(** * Creativ44 world-simulation core: a shallow embedding and its properties

    The development follows the TypeScript sources:
    - [constants.ts]  : world dimensions, the [BlockType] enum, [isCollidable];
    - [noise.ts]      : the seeded gradient noise ([SimplexNoise]);
    - [worldgen.ts]   : chunk storage ([getIndex], [getBlock], [setBlock]) and
                        [generateChunk];
    - [physics.ts]    : [PhysicsEngine] (falling blocks, explosions);
    - the game renderer: [getBlockAt], [setBlockAt], [updateRedstone],
                        [updateWaterFlow], [collideAxis], [breakBlock],
                        [explodeTNT], [applyMultiplayerBlockEvents].

    JavaScript numbers that only ever hold integers (block coordinates, block
    ids, array indices) are modelled by [Z]; numbers that hold fractions (noise
    samples, player kinematics) are modelled by the kernel's binary64 floats,
    which is the representation JavaScript itself uses. *)

From Stdlib Require Import ZArith Lia Bool List.
From Stdlib Require Import Floats.PrimFloat Floats.SpecFloat Floats.FloatOps Floats.FloatAxioms Uint63.
From stdpp Require Import gmap list.

Set Warnings "-inexact-float".
Open Scope Z_scope.

(** [lia] reasons about [/], [mod], [Z.quot] and [Z.rem] through their
    defining equations. *)
Ltac Zify.zify_post_hook ::= Z.to_euclidean_division_equations.

(** ** constants.ts *)

Definition CHUNK_SIZE : Z := 16.
Definition CHUNK_HEIGHT : Z := 80.
Definition SEA_LEVEL : Z := 30.
Definition BEDROCK_LEVEL : Z := 0.
Definition WATER_LEVEL : Z := 28.
Definition GRAVITY : float := 20%float.
Definition JUMP_FORCE : float := 8%float.
Definition PLAYER_HEIGHT : float := 1.7%float.
Definition PLAYER_WIDTH : float := 0.6%float.

(** The [BlockType] enum is a numeric enum: at run time a block id is a
    number, and chunks store it in a [Uint8Array]. *)
Definition BlockType : Type := Z.

Module BlockType.
Definition AIR : BlockType := 0.
Definition GRASS : BlockType := 1.
Definition DIRT : BlockType := 2.
Definition STONE : BlockType := 3.
Definition BEDROCK : BlockType := 4.
Definition WOOD : BlockType := 5.
Definition LEAVES : BlockType := 6.
Definition SAND : BlockType := 7.
Definition WATER : BlockType := 8.
Definition FLOWER_RED : BlockType := 9.
Definition FLOWER_YELLOW : BlockType := 10.
Definition TALL_GRASS : BlockType := 11.
Definition MUSHROOM_RED : BlockType := 12.
Definition MUSHROOM_BROWN : BlockType := 13.
Definition COBBLESTONE : BlockType := 14.
Definition PLANKS : BlockType := 15.
Definition GLASS : BlockType := 16.
Definition BRICK : BlockType := 17.
Definition REDSTONE_DUST : BlockType := 18.
Definition REDSTONE_TORCH : BlockType := 19.
Definition REDSTONE_BLOCK : BlockType := 20.
Definition REDSTONE_LAMP : BlockType := 21.
Definition REDSTONE_REPEATER : BlockType := 22.
Definition LEVER : BlockType := 23.
Definition BUTTON : BlockType := 24.
Definition PISTON : BlockType := 25.
Definition TNT : BlockType := 26.
Definition OBSERVER : BlockType := 27.
Definition COMPARATOR : BlockType := 28.
Definition NOTE_BLOCK : BlockType := 29.
Definition IRON_BLOCK : BlockType := 30.
Definition GOLD_BLOCK : BlockType := 31.
Definition DIAMOND_BLOCK : BlockType := 32.
Definition CRAFTING_TABLE : BlockType := 33.
Definition FURNACE : BlockType := 34.
Definition TORCH : BlockType := 35.
Definition LOG_BIRCH : BlockType := 41.
Definition SNOW : BlockType := 42.
Definition OBSIDIAN : BlockType := 44.
Definition BOOKSHELF : BlockType := 46.
Definition FERN : BlockType := 48.
Definition SUGAR_CANE : BlockType := 49.
Definition CACTUS : BlockType := 50.
Definition SUNFLOWER : BlockType := 51.
Definition ROSE_BUSH : BlockType := 52.
Definition LILAC : BlockType := 53.
Definition LILY_PAD : BlockType := 54.
Definition DOOR_OAK : BlockType := 55.
Definition FENCE_OAK : BlockType := 56.
Definition GRAVEL : BlockType := 57.
Definition CLAY : BlockType := 58.
Definition LEAVES_BIRCH : BlockType := 59.
Definition LAPIS_BLOCK : BlockType := 61.
Definition COMMAND_BLOCK : BlockType := 62.
Definition LOG_SPRUCE : BlockType := 65.
Definition LOG_JUNGLE : BlockType := 66.
Definition LOG_ACACIA : BlockType := 67.
Definition LOG_DARK_OAK : BlockType := 68.
Definition LOG_CHERRY : BlockType := 69.
Definition PLANKS_SPRUCE : BlockType := 70.
Definition PLANKS_BIRCH : BlockType := 71.
Definition PLANKS_JUNGLE : BlockType := 72.
Definition PLANKS_ACACIA : BlockType := 73.
Definition PLANKS_DARK_OAK : BlockType := 74.
Definition PLANKS_CHERRY : BlockType := 75.
Definition LEAVES_SPRUCE : BlockType := 76.
Definition LEAVES_JUNGLE : BlockType := 77.
Definition LEAVES_ACACIA : BlockType := 78.
Definition LEAVES_DARK_OAK : BlockType := 79.
Definition LEAVES_CHERRY : BlockType := 80.
Definition QUARTZ_BLOCK : BlockType := 83.
Definition QUARTZ_PILLAR : BlockType := 84.
Definition MYCELIUM : BlockType := 89.
Definition PODZOL : BlockType := 90.
Definition BASALT : BlockType := 91.
Definition POLISHED_BASALT : BlockType := 92.
Definition DEEPSLATE : BlockType := 93.
Definition ANVIL : BlockType := 99.
End BlockType.

(** [Array.prototype.includes] / [Set.prototype.has] on block ids. *)
Definition includes (l : list BlockType) (b : BlockType) : bool :=
  existsb (Z.eqb b) l.

Definition DECORATIVE_BLOCKS : list BlockType :=
  [ BlockType.FLOWER_RED; BlockType.FLOWER_YELLOW;
    BlockType.TALL_GRASS; BlockType.MUSHROOM_RED;
    BlockType.MUSHROOM_BROWN; BlockType.TORCH;
    BlockType.REDSTONE_DUST; BlockType.REDSTONE_TORCH;
    BlockType.LEVER; BlockType.BUTTON;
    BlockType.FERN; BlockType.SUGAR_CANE;
    BlockType.SUNFLOWER; BlockType.ROSE_BUSH;
    BlockType.LILAC; BlockType.LILY_PAD ].

Definition isCollidable (b : BlockType) : bool :=
  negb (b =? BlockType.AIR) && negb (includes DECORATIVE_BLOCKS b)
  && negb (b =? BlockType.WATER).

(** ** JavaScript arithmetic on integers *)

(** [a % b] truncates towards zero, as [Z.rem] does. *)
Definition js_mod (a b : Z) : Z := Z.rem a b.

(** The wrap used for every local coordinate:
    [((n % CHUNK_SIZE) + CHUNK_SIZE) % CHUNK_SIZE]. *)
Definition wrapLocal (n : Z) : Z :=
  js_mod (js_mod n CHUNK_SIZE + CHUNK_SIZE) CHUNK_SIZE.

(** [Math.floor(n / CHUNK_SIZE)] on an integer [n]. *)
Definition chunkCoord (n : Z) : Z := n / CHUNK_SIZE.

(** ** worldgen.ts: chunk storage *)

(** A [Uint8Array] of fixed length, zero-initialised: a finite map from the
    index to the stored byte, an index without an entry holding 0.  A store
    keeps the low eight bits of the value written. *)
Definition BLOCKS_LENGTH : Z := CHUNK_SIZE * CHUNK_SIZE * CHUNK_HEIGHT.

Definition u8_get (a : gmap Z Z) (i : Z) : Z := default 0 (a !! i).
Definition u8_set (a : gmap Z Z) (i : Z) (v : Z) : gmap Z Z :=
  <[ i := v mod 256 ]> a.

Record ChunkData := mkChunk {
  blocks : gmap Z Z;
  cx : Z;
  cz : Z
}.

Definition getIndex (x y z : Z) : Z :=
  x + z * CHUNK_SIZE + y * CHUNK_SIZE * CHUNK_SIZE.

Definition outOfChunk (x y z : Z) : bool :=
  (x <? 0) || (x >=? CHUNK_SIZE) || (y <? 0) || (y >=? CHUNK_HEIGHT)
  || (z <? 0) || (z >=? CHUNK_SIZE).

Definition getBlock (chunk : ChunkData) (x y z : Z) : BlockType :=
  if outOfChunk x y z then BlockType.AIR
  else u8_get (blocks chunk) (getIndex x y z).

Definition setBlock (chunk : ChunkData) (x y z : Z) (type : BlockType) : ChunkData :=
  if outOfChunk x y z then chunk
  else mkChunk (u8_set (blocks chunk) (getIndex x y z) type) (cx chunk) (cz chunk).

(** [chunkKey] builds the string ["cx,cz"]; decimal rendering of integers is
    injective, so the pair itself serves as the key. *)
Definition chunkKey (cx cz : Z) : Z * Z := (cx, cz).

(** Every byte of the array is a byte. *)
Definition u8_valid (a : gmap Z Z) : Prop :=
  ∀ i v, a !! i = Some v → 0 <= v < 256.

(** ** JavaScript arithmetic on fractional numbers (binary64) *)

Local Open Scope float_scope.

(** An integer-valued number as a float (exact below 2^53). *)
Definition Z2F (z : Z) : float :=
  if (z <? 0)%Z then PrimFloat.opp (PrimFloat.of_uint63 (Uint63.of_Z (- z)))
  else PrimFloat.of_uint63 (Uint63.of_Z z).

(** [Math.floor] of a finite number, as the integer it denotes. *)
Definition floorZ (x : float) : Z :=
  match Prim2SF x with
  | S754_finite s m e =>
      let n := if s then Z.neg m else Z.pos m in
      if (0 <=? e)%Z then Z.shiftl n e else Z.shiftr n (- e)
  | _ => 0%Z
  end.

(** [Math.floor(x)] as a number again. *)
Definition Math_floor (x : float) : float := Z2F (floorZ x).

Definition Math_max (a b : float) : float := if PrimFloat.ltb a b then b else a.
Definition Math_min (a b : float) : float := if PrimFloat.ltb b a then b else a.
Definition Math_abs (a : float) : float := PrimFloat.abs a.
(** [a > b] *)
Definition gt (a b : float) : bool := PrimFloat.ltb b a.

(** [Math.random()]: an oracle of numbers in [0,1), read at a cursor that
    every call advances. *)
Definition Oracle : Type := nat → float.

Definition Math_random (rnd : Oracle) (cur : nat) : float * nat :=
  (rnd cur, S cur).

(** ** noise.ts *)

(** The permutation table built by the constructor.  The shuffle is modelled
    for the seeds on which its arithmetic is exact and its indices are valid:
    [0 <= seed] and [seed * 16807 < 2^53].  A negative seed makes the source
    index the table with a negative number, which leaves undefined entries,
    and a larger one has its first product rounded to binary64; neither is
    modelled. *)
Definition swap (p : list Z) (i j : nat) : list Z :=
  let pi := nth i p 0%Z in
  let pj := nth j p 0%Z in
  <[ j := pi ]> (<[ i := pj ]> p).

Fixpoint shuffle (n : nat) (s : Z) (p : list Z) : list Z :=
  match n with
  | O => p
  | S i' =>
      (* the loop variable i is [n] here, running from 255 down to 1 *)
      let s' := js_mod (s * 16807 + 0) 2147483647 in
      let j := js_mod s' (Z.of_nat n + 1) in
      shuffle i' s' (swap p n (Z.to_nat j))
  end.

(** [perm] is written once by the constructor and only read afterwards: it
    is kept as the finite map from index to entry. *)
Record SimplexNoise := mkNoise { perm : gmap Z Z }.

Definition newSimplexNoise (seed : Z) : SimplexNoise :=
  let p := shuffle 255 seed (seqZ 0 256) in
  mkNoise (list_to_map
    (map (fun i => (i, nth (Z.to_nat (Z.land i 255)) p 0%Z)) (seqZ 0 512))).

Definition permAt (n : SimplexNoise) (i : Z) : Z := default 0%Z (perm n !! i).

Definition fade (t : float) : float := t * t * t * (t * (t * 6 - 15) + 10).

Definition lerp (a b t : float) : float := a + t * (b - a).

Definition grad (hash : Z) (x y : float) : float :=
  let h := Z.land hash 3 in
  let u := if (h <? 2)%Z then x else y in
  let v := if (h <? 2)%Z then y else x in
  (if (Z.land h 1 =? 0)%Z then u else - u) + (if (Z.land h 2 =? 0)%Z then v else - v).

Definition noise2D (n : SimplexNoise) (x y : float) : float :=
  let fx := floorZ x in
  let fy := floorZ y in
  let X := Z.land fx 255 in
  let Y := Z.land fy 255 in
  let x := x - Z2F fx in
  let y := y - Z2F fy in
  let u := fade x in
  let v := fade y in
  let a := (permAt n X + Y)%Z in
  let b := (permAt n (X + 1) + Y)%Z in
  lerp
    (lerp (grad (permAt n a) x y) (grad (permAt n b) (x - 1) y) u)
    (lerp (grad (permAt n (a + 1)) x (y - 1)) (grad (permAt n (b + 1)) (x - 1) (y - 1)) u)
    v.

Fixpoint fbm_loop (n : SimplexNoise) (x y : float) (octaves : nat)
    (lacunarity gain : float) (sum amp freq max : float) : float * float :=
  match octaves with
  | O => (sum, max)
  | S k =>
      let sum := sum + noise2D n (x * freq) (y * freq) * amp in
      let max := max + amp in
      let amp := amp * gain in
      let freq := freq * lacunarity in
      fbm_loop n x y k lacunarity gain sum amp freq max
  end.

Definition fbm (n : SimplexNoise) (x y : float) (octaves : nat)
    (lacunarity gain : float) : float :=
  let '(sum, max) := fbm_loop n x y octaves lacunarity gain 0 1 1 0 in
  sum / max.

(** ** worldgen.ts: generation *)

Inductive WorldType := normal | flat.

Record WorldGenConfig := mkConfig { seed : Z; worldType : WorldType }.

(** The module-level state of worldgen.ts: the configuration and the seven
    noise instances derived from it. *)
Record WorldGen := mkWorldGen {
  worldGenConfig : WorldGenConfig;
  noise : SimplexNoise;
  treeNoise : SimplexNoise;
  flowerNoise : SimplexNoise;
  biomeNoise : SimplexNoise;
  houseNoise : SimplexNoise;
  plantNoise : SimplexNoise;
  caveNoise : SimplexNoise
}.

(** The state the module starts in. *)
Definition initialWorldGen : WorldGen :=
  mkWorldGen (mkConfig 12345 normal)
    (newSimplexNoise 12345) (newSimplexNoise 67890) (newSimplexNoise 11111)
    (newSimplexNoise 22222) (newSimplexNoise 33333) (newSimplexNoise 44444)
    (newSimplexNoise 55555).

(** [configureWorldGeneration] followed by [rebuildNoises], on an integer
    seed ([Math.floor(seed) || 12345] turns 0 into 12345). *)
Definition configureWorldGeneration (config : WorldGenConfig) : WorldGen :=
  let base := if (seed config =? 0)%Z then 12345%Z else seed config in
  mkWorldGen config
    (newSimplexNoise (base + 11)) (newSimplexNoise (base + 29))
    (newSimplexNoise (base + 47)) (newSimplexNoise (base + 71))
    (newSimplexNoise (base + 89)) (newSimplexNoise (base + 113))
    (newSimplexNoise (base + 137)).

Definition isFlat (w : WorldGen) : bool :=
  match worldType (worldGenConfig w) with flat => true | normal => false end.

Definition getTerrainHeight (w : WorldGen) (worldX worldZ : Z) : Z :=
  if isFlat w then Z.max (BEDROCK_LEVEL + 4) (WATER_LEVEL + 2)
  else
    let wx := Z2F worldX in
    let wz := Z2F worldZ in
    let scale := 0.008 in
    let detailScale := 0.03 in
    let microScale := 0.08 in
    let base := fbm (noise w) (wx * scale) (wz * scale) 6 2 0.5 in
    let detail := fbm (noise w) (wx * detailScale) (wz * detailScale) 3 2 0.5 in
    let micro := noise2D (noise w) (wx * microScale) (wz * microScale) in
    let biome := fbm (biomeNoise w) (wx * 0.003) (wz * 0.003) 3 2 0.5 in
    let height :=
      if gt biome 0.2 then Z2F SEA_LEVEL + base * 20 + detail * 8 + micro * 2
      else if gt biome (-0.1) then Z2F SEA_LEVEL + base * 10 + detail * 4 + micro
      else Z2F SEA_LEVEL + base * 5 + detail * 2 + micro * 0.5 in
    floorZ (Math_max (Z2F (BEDROCK_LEVEL + 3)) (Math_min (Z2F (CHUNK_HEIGHT - 2)) height)).

Local Close Scope float_scope.

(** [for (let i = lo; i < hi; i++) body], threading the state [s]. *)
Definition forZ {S : Type} (lo hi : Z) (body : S → Z → S) (s : S) : S :=
  fold_left body (seqZ lo (hi - lo)) s.

Section Generation.
Local Open Scope float_scope.

Variable w : WorldGen.
(** The oracle behind [Math.random()]. *)
Variable rnd : Oracle.

(** The state a decoration pass threads: the chunk under construction and
    the cursor of the random oracle. *)
Definition GenState : Type := ChunkData * nat.

Definition placeBirchTree (st : GenState) (tx ty tz : Z) : GenState :=
  let '(chunk, cur) := st in
  let '(r, cur) := Math_random rnd cur in
  let trunkHeight := (5 + floorZ (r * 2))%Z in
  let chunk := forZ 0 trunkHeight
    (fun chunk y => setBlock chunk tx (ty + y) tz BlockType.LOG_BIRCH) chunk in
  let leafStart := (ty + trunkHeight - 2)%Z in
  let leafEnd := (ty + trunkHeight + 1)%Z in
  forZ leafStart (leafEnd + 1) (fun st y =>
    let radius := if (y <? leafEnd)%Z then 2%Z else 1%Z in
    forZ (- radius) (radius + 1) (fun st dx =>
      forZ (- radius) (radius + 1) (fun st dz =>
        let '(chunk, cur) := st in
        if (dx =? 0)%Z && (dz =? 0)%Z && (y <? leafEnd)%Z then st
        else
          let corner := (Z.abs dx =? radius)%Z && (Z.abs dz =? radius)%Z in
          let '(skip, cur) :=
            if corner then
              let '(r, cur) := Math_random rnd cur in (gt r 0.4, cur)
            else (false, cur) in
          if skip then (chunk, cur)
          else
            let lx := (tx + dx)%Z in
            let lz := (tz + dz)%Z in
            if (lx >=? 0)%Z && (lx <? CHUNK_SIZE)%Z && (lz >=? 0)%Z
               && (lz <? CHUNK_SIZE)%Z && (y <? CHUNK_HEIGHT)%Z
            then
              if (getBlock chunk lx y lz =? BlockType.AIR)%Z
              then (setBlock chunk lx y lz BlockType.LEAVES_BIRCH, cur)
              else (chunk, cur)
            else (chunk, cur)) st) st) (chunk, cur).

Definition placeTree (st : GenState) (tx ty tz : Z) : GenState :=
  let '(chunk, cur) := st in
  let '(r, cur) := Math_random rnd cur in
  let trunkHeight := (4 + floorZ (r * 3))%Z in
  let chunk := forZ 0 trunkHeight
    (fun chunk y => setBlock chunk tx (ty + y) tz BlockType.WOOD) chunk in
  let leafStart := (ty + trunkHeight - 2)%Z in
  let leafEnd := (ty + trunkHeight + 2)%Z in
  forZ leafStart (leafEnd + 1) (fun st y =>
    let radius := if (y <? leafEnd - 1)%Z then 2%Z else 1%Z in
    forZ (- radius) (radius + 1) (fun st dx =>
      forZ (- radius) (radius + 1) (fun st dz =>
        let '(chunk, cur) := st in
        if (dx =? 0)%Z && (dz =? 0)%Z && (y <? leafEnd)%Z then st
        else
          let corner := (Z.abs dx =? radius)%Z && (Z.abs dz =? radius)%Z in
          let '(skip, cur) :=
            if corner then
              let '(r, cur) := Math_random rnd cur in (gt r 0.5, cur)
            else (false, cur) in
          if skip then (chunk, cur)
          else
            let lx := (tx + dx)%Z in
            let lz := (tz + dz)%Z in
            if (lx >=? 0)%Z && (lx <? CHUNK_SIZE)%Z && (lz >=? 0)%Z
               && (lz <? CHUNK_SIZE)%Z && (y <? CHUNK_HEIGHT)%Z
            then
              if (getBlock chunk lx y lz =? BlockType.AIR)%Z
              then (setBlock chunk lx y lz BlockType.LEAVES, cur)
              else (chunk, cur)
            else (chunk, cur)) st) st) (chunk, cur).

Definition placeHouse (chunk : ChunkData) (hx hy hz : Z) : ChunkData :=
  let w := 5%Z in let d := 6%Z in let h := 4%Z in
  if (hx + w >=? CHUNK_SIZE)%Z || (hz + d >=? CHUNK_SIZE)%Z
     || (hx <? 1)%Z || (hz <? 1)%Z then chunk
  else
    (* Floor *)
    let chunk := forZ 0 w (fun chunk x =>
      forZ 0 d (fun chunk z =>
        setBlock chunk (hx + x) hy (hz + z) BlockType.PLANKS) chunk) chunk in
    (* Walls *)
    let chunk := forZ 1 (h + 1) (fun chunk y =>
      forZ 0 w (fun chunk x =>
        forZ 0 d (fun chunk z =>
          let isWall := (x =? 0)%Z || (x =? w - 1)%Z || (z =? 0)%Z || (z =? d - 1)%Z in
          if isWall then
            let isWindow := (y =? 2)%Z &&
              (((x =? 0)%Z && (z =? 2)%Z) || ((x =? 0)%Z && (z =? 3)%Z)
               || ((x =? w - 1)%Z && (z =? 2)%Z) || ((x =? w - 1)%Z && (z =? 3)%Z)) in
            let isDoor := (z =? 0)%Z && (x =? 2)%Z && ((y =? 1)%Z || (y =? 2)%Z) in
            if isDoor then chunk
            else if isWindow then
              setBlock chunk (hx + x) (hy + y) (hz + z) BlockType.GLASS
            else
              setBlock chunk (hx + x) (hy + y) (hz + z)
                (if (y <=? 1)%Z then BlockType.COBBLESTONE else BlockType.PLANKS)
          else chunk) chunk) chunk) chunk in
    (* Roof *)
    let chunk := forZ (-1) (d + 1) (fun chunk z =>
      forZ (-1) (w + 1) (fun chunk x =>
        let rx := (hx + x)%Z in let rz := (hz + z)%Z in
        if (rx <? 0)%Z || (rx >=? CHUNK_SIZE)%Z || (rz <? 0)%Z || (rz >=? CHUNK_SIZE)%Z
        then chunk
        else setBlock chunk rx (hy + h + 1) rz BlockType.PLANKS) chunk) chunk in
    let chunk := forZ 0 d (fun chunk z =>
      forZ 1 (w - 1) (fun chunk x =>
        let rx := (hx + x)%Z in let rz := (hz + z)%Z in
        if (rx <? 0)%Z || (rx >=? CHUNK_SIZE)%Z || (rz <? 0)%Z || (rz >=? CHUNK_SIZE)%Z
        then chunk
        else setBlock chunk rx (hy + h + 2) rz BlockType.BRICK) chunk) chunk in
    let chunk := setBlock chunk (hx + 2) (hy + 3) (hz + 3) BlockType.TORCH in
    let chunk := setBlock chunk (hx + 1) (hy + 1) (hz + d - 2) BlockType.CRAFTING_TABLE in
    setBlock chunk (hx + 3) (hy + 1) (hz + d - 2) BlockType.FURNACE.

Definition isAir (chunk : ChunkData) (x y z : Z) : Z :=
  if (getBlock chunk x y z =? BlockType.AIR)%Z then 1%Z else 0%Z.

Definition carveCaves (chunk : ChunkData) (worldOffsetX worldOffsetZ : Z) : ChunkData :=
  if isFlat w then chunk
  else
    let chunk := forZ 0 CHUNK_SIZE (fun chunk x =>
      forZ 0 CHUNK_SIZE (fun chunk z =>
        let worldX := (worldOffsetX + x)%Z in
        let worldZ := (worldOffsetZ + z)%Z in
        let surfaceY := getTerrainHeight w worldX worldZ in
        let caveTop := Z.max (BEDROCK_LEVEL + 3) (surfaceY - 4) in
        forZ (BEDROCK_LEVEL + 2) caveTop (fun chunk y =>
          let block := getBlock chunk x y z in
          if negb (block =? BlockType.STONE)%Z && negb (block =? BlockType.DIRT)%Z
             && negb (block =? BlockType.GRAVEL)%Z && negb (block =? BlockType.CLAY)%Z
          then chunk
          else
            let fx := Z2F worldX in let fz := Z2F worldZ in let fy := Z2F y in
            let shapeA := noise2D (caveNoise w) (fx * 0.055 + fy * 0.11) (fz * 0.055 - fy * 0.09) in
            let shapeB := noise2D (caveNoise w) (fx * 0.095 - fy * 0.07) (fz * 0.095 + fy * 0.06) in
            let tunnels := noise2D (caveNoise w) (fx * 0.18 + 300) (fz * 0.18 + fy * 0.14) in
            let caveValue := shapeA * 0.58 + shapeB * 0.32 + tunnels * 0.1 in
            if gt caveValue 0.34 && (y <? WATER_LEVEL - 1)%Z then
              let chunk := setBlock chunk x y z BlockType.AIR in
              let chunk := if gt caveValue 0.44 && (y + 1 <? caveTop)%Z
                           then setBlock chunk x (y + 1) z BlockType.AIR else chunk in
              let chunk := if gt caveValue 0.48 && (y - 1 >? BEDROCK_LEVEL + 1)%Z
                           then setBlock chunk x (y - 1) z BlockType.AIR else chunk in
              let chunk := if gt caveValue 0.52 && (x + 1 <? CHUNK_SIZE)%Z
                           then setBlock chunk (x + 1) y z BlockType.AIR else chunk in
              let chunk := if gt caveValue 0.52 && (x - 1 >=? 0)%Z
                           then setBlock chunk (x - 1) y z BlockType.AIR else chunk in
              let chunk := if gt caveValue 0.52 && (z + 1 <? CHUNK_SIZE)%Z
                           then setBlock chunk x y (z + 1) BlockType.AIR else chunk in
              if gt caveValue 0.52 && (z - 1 >=? 0)%Z
              then setBlock chunk x y (z - 1) BlockType.AIR else chunk
            else chunk) chunk) chunk) chunk in
    (* Secondary expansion pass for larger chambers. *)
    forZ 1 (CHUNK_SIZE - 1) (fun chunk x =>
      forZ 1 (CHUNK_SIZE - 1) (fun chunk z =>
        let worldX := (worldOffsetX + x)%Z in
        let worldZ := (worldOffsetZ + z)%Z in
        let caveTop := (getTerrainHeight w worldX worldZ - 5)%Z in
        forZ (BEDROCK_LEVEL + 2) caveTop (fun chunk y =>
          let current := getBlock chunk x y z in
          if (current =? BlockType.AIR)%Z || (current =? BlockType.BEDROCK)%Z
             || (y >=? WATER_LEVEL - 1)%Z then chunk
          else
            let airNeighbors :=
              (isAir chunk (x + 1) y z + isAir chunk (x - 1) y z
               + isAir chunk x (y + 1) z + isAir chunk x (y - 1) z
               + isAir chunk x y (z + 1) + isAir chunk x y (z - 1))%Z in
            if (airNeighbors >=? 3)%Z then setBlock chunk x y z BlockType.AIR
            else chunk) chunk) chunk) chunk.
End Generation.

Section GenerateChunk.
Local Open Scope float_scope.

Variable w : WorldGen.
Variable rnd : Oracle.

(** The terrain pass of one column. *)
Definition fillColumn (chunk : ChunkData) (x z worldX worldZ height : Z) : ChunkData :=
  let chunk := forZ 0 (Z.max height WATER_LEVEL + 1) (fun chunk y =>
    if (y >? height)%Z && (y <=? WATER_LEVEL)%Z then
      setBlock chunk x y z BlockType.WATER
    else if (y <=? height)%Z then
      if (y =? BEDROCK_LEVEL)%Z then setBlock chunk x y z BlockType.BEDROCK
      else if (y <? height - 4)%Z then setBlock chunk x y z BlockType.STONE
      else if (y <? height)%Z then setBlock chunk x y z BlockType.DIRT
      else
        let biome := fbm (biomeNoise w) (Z2F worldX * 0.003) (Z2F worldZ * 0.003) 3 2 0.5 in
        if (height <=? WATER_LEVEL + 1)%Z then
          let chunk := setBlock chunk x y z BlockType.SAND in
          if gt (noise2D (plantNoise w) (Z2F worldX * 0.1) (Z2F worldZ * 0.1)) 0.5
          then setBlock chunk x y z BlockType.GRAVEL else chunk
        else if PrimFloat.ltb biome (-0.3) then setBlock chunk x y z BlockType.SAND
        else setBlock chunk x y z BlockType.GRASS
    else chunk) chunk in
  if (height <? WATER_LEVEL - 2)%Z then
    let clayVal := noise2D (plantNoise w) (Z2F worldX * 0.15) (Z2F worldZ * 0.15) in
    if gt clayVal 0.4 then setBlock chunk x height z BlockType.CLAY else chunk
  else chunk.

(** The tree pass at one column. *)
Definition treeColumn (st : GenState) (x z worldX worldZ : Z) : GenState :=
  let height := getTerrainHeight w worldX worldZ in
  if (height <=? WATER_LEVEL + 1)%Z then st
  else
    let surfaceBlock := getBlock (fst st) x height z in
    if (surfaceBlock =? BlockType.GRASS)%Z then
      let treeVal := noise2D (treeNoise w) (Z2F worldX * 0.5) (Z2F worldZ * 0.5) in
      if gt treeVal 0.6 then
        let birchChance :=
          noise2D (treeNoise w) (Z2F worldX * 0.2 + 500) (Z2F worldZ * 0.2 + 500) in
        if gt birchChance 0.3 then placeBirchTree rnd st x (height + 1) z
        else placeTree rnd st x (height + 1) z
      else st
    else st.

(** The flower choice of the vegetation pass. *)
Definition flowerColumn (chunk : ChunkData) (x z worldX worldZ height : Z) : ChunkData :=
  let fVal := noise2D (flowerNoise w) (Z2F worldX * 0.3) (Z2F worldZ * 0.3) in
  let fVal2 := noise2D (flowerNoise w) (Z2F worldX * 0.7 + 100) (Z2F worldZ * 0.7 + 100) in
  let pVal := noise2D (plantNoise w) (Z2F worldX * 0.5 + 400) (Z2F worldZ * 0.5 + 400) in
  let put := setBlock chunk x (height + 1) z in
  if gt fVal 0.65 then put BlockType.FLOWER_RED
  else if PrimFloat.ltb fVal (-0.65) then put BlockType.FLOWER_YELLOW
  else if gt pVal 0.7 then put BlockType.SUNFLOWER
  else if PrimFloat.ltb pVal (-0.7) then put BlockType.LILAC
  else if gt pVal 0.55 && PrimFloat.ltb pVal 0.6 then put BlockType.ROSE_BUSH
  else if gt fVal2 0.3 && PrimFloat.ltb fVal2 0.5 then put BlockType.TALL_GRASS
  else if gt fVal2 0.5 && PrimFloat.ltb fVal2 0.6 then put BlockType.FERN
  else if gt fVal2 0.7 then
    let hasCanopy :=
      (getBlock chunk x (height + 3) z =? BlockType.LEAVES)%Z
      || (getBlock chunk x (height + 3) z =? BlockType.LEAVES_BIRCH)%Z in
    if hasCanopy
    then put (if gt fVal 0 then BlockType.MUSHROOM_RED else BlockType.MUSHROOM_BROWN)
    else chunk
  else chunk.

(** A stalk of [1 + floor(random * 3)] blocks of [type] above the surface. *)
Definition placeStalk (st : GenState) (x z height : Z) (type : BlockType) : GenState :=
  let '(chunk, cur) := st in
  let '(r, cur) := Math_random rnd cur in
  let stalkH := (1 + floorZ (r * 3))%Z in
  (forZ 1 (stalkH + 1) (fun chunk cy => setBlock chunk x (height + cy) z type) chunk, cur).

(** The vegetation pass at one column. *)
Definition vegetationColumn (st : GenState) (x z worldX worldZ : Z) : GenState :=
  let '(chunk, cur) := st in
  let height := getTerrainHeight w worldX worldZ in
  let surfaceBlock := getBlock chunk x height z in
  let aboveBlock := getBlock chunk x (height + 1) z in
  (* Lily pads on water *)
  let chunk :=
    if ((surfaceBlock =? BlockType.WATER)%Z
        || (getBlock chunk x WATER_LEVEL z =? BlockType.WATER)%Z)
       && (height <=? WATER_LEVEL)%Z
       && gt (noise2D (plantNoise w) (Z2F worldX * 0.8) (Z2F worldZ * 0.8)) 0.7
    then setBlock chunk x (WATER_LEVEL + 1) z BlockType.LILY_PAD
    else chunk in
  (* Sugar cane near water *)
  if ((surfaceBlock =? BlockType.GRASS)%Z || (surfaceBlock =? BlockType.SAND)%Z)
     && ((height =? WATER_LEVEL + 1)%Z || (height =? WATER_LEVEL + 2)%Z)
     && gt (noise2D (plantNoise w) (Z2F worldX * 0.6 + 200) (Z2F worldZ * 0.6 + 200)) 0.55
     && (aboveBlock =? BlockType.AIR)%Z
  then placeStalk (chunk, cur) x z height BlockType.SUGAR_CANE
  (* Cactus on sand *)
  else if (surfaceBlock =? BlockType.SAND)%Z && (height >? WATER_LEVEL + 2)%Z
          && (aboveBlock =? BlockType.AIR)%Z
          && gt (noise2D (plantNoise w) (Z2F worldX * 0.4 + 300) (Z2F worldZ * 0.4 + 300)) 0.7
  then placeStalk (chunk, cur) x z height BlockType.CACTUS
  else if (surfaceBlock =? BlockType.GRASS)%Z && (aboveBlock =? BlockType.AIR)%Z
  then (flowerColumn chunk x z worldX worldZ height, cur)
  else (chunk, cur).

(** The house pass. *)
Definition housePass (chunk : ChunkData) (cx cz worldOffsetX worldOffsetZ : Z) : ChunkData :=
  let hVal := noise2D (houseNoise w) (Z2F cx * 0.3) (Z2F cz * 0.3) in
  if gt hVal 0.55 then
    let hx := (3 + floorZ (Math_abs (noise2D (houseNoise w) (Z2F cx * 1.7) (Z2F cz * 1.7)) * 5))%Z in
    let hz := (3 + floorZ (Math_abs (noise2D (houseNoise w) (Z2F cx * 2.3) (Z2F cz * 2.3)) * 5))%Z in
    let worldHX := (worldOffsetX + hx)%Z in
    let worldHZ := (worldOffsetZ + hz)%Z in
    let hy := getTerrainHeight w worldHX worldHZ in
    if (hy >? WATER_LEVEL + 2)%Z && (getBlock chunk hx hy hz =? BlockType.GRASS)%Z
    then placeHouse chunk hx hy hz
    else chunk
  else chunk.

(** [generateChunk(cx, cz)]: the chunk, and the cursor the random oracle
    is left at. *)
Definition generateChunk (cx cz : Z) (cur : nat) : ChunkData * nat :=
  let chunk := mkChunk ∅ cx cz in
  let worldOffsetX := (cx * CHUNK_SIZE)%Z in
  let worldOffsetZ := (cz * CHUNK_SIZE)%Z in
  (* Terrain generation with water *)
  let chunk := forZ 0 CHUNK_SIZE (fun chunk x =>
    forZ 0 CHUNK_SIZE (fun chunk z =>
      let worldX := (worldOffsetX + x)%Z in
      let worldZ := (worldOffsetZ + z)%Z in
      fillColumn chunk x z worldX worldZ (getTerrainHeight w worldX worldZ)) chunk) chunk in
  (* Cave generation pass. *)
  let chunk := carveCaves w chunk worldOffsetX worldOffsetZ in
  if isFlat w then (chunk, cur)
  else
    (* Tree placement *)
    let st := forZ 2 (CHUNK_SIZE - 2) (fun st x =>
      forZ 2 (CHUNK_SIZE - 2) (fun st z =>
        treeColumn st x z (worldOffsetX + x) (worldOffsetZ + z)) st) (chunk, cur) in
    (* Vegetation placement *)
    let st := forZ 0 CHUNK_SIZE (fun st x =>
      forZ 0 CHUNK_SIZE (fun st z =>
        vegetationColumn st x z (worldOffsetX + x) (worldOffsetZ + z)) st) st in
    (* House placement *)
    (housePass (fst st) cx cz worldOffsetX worldOffsetZ, snd st).
End GenerateChunk.

(** ** The game renderer: state *)

Inductive GameMode := creative | survival.

Module ToolType.
Inductive t := NONE | SWORD | AXE | PICKAXE | SHOVEL.
End ToolType.
Definition ToolType : Type := ToolType.t.

(** physics.ts *)
Record FallingBlock := mkFallingBlock {
  fb_position : float * float * float;
  fb_velocity : float * float * float;
  fb_blockType : BlockType;
  fb_lifetime : float
}.

(** A dropped item: the cell it was dropped at and its payload (the random
    ejection velocity is not kept). *)
Record DroppedItem := mkDroppedItem {
  di_cell : Z * Z * Z;
  di_blockType : BlockType
}.

Record Explosion := mkExplosion {
  ex_position : Z * Z * Z;
  ex_power : Z
}.

(** [MultiplayerBlockEvent], and the payload of [onBlockChanged]. *)
Record BlockEvent := mkBlockEvent {
  ev_x : Z;
  ev_y : Z;
  ev_z : Z;
  ev_type : Z
}.

Record ActiveBreak := mkActiveBreak {
  ab_x : Z;
  ab_y : Z;
  ab_z : Z;
  ab_block : BlockType;
  ab_progress : float
}.

Record Game := mkGame {
  chunks : gmap (Z * Z) ChunkData;  (* the Map [this.chunks], by key *)
  chunkOrder : list (Z * Z);  (* the insertion order of [this.chunks] *)
  chunkMeshes : list (Z * Z);  (* the keys of [this.chunkMeshes] *)
  meshBuilds : list (Z * Z);  (* the calls of [buildChunkMesh], oldest first *)
  redstonePower : gmap (Z * Z * Z) Z;
  redstoneActive : gmap (Z * Z * Z) bool;
  rsPoweredState : gmap (Z * Z * Z) bool;
  redstoneDirty : bool;
  waterFlowActive : list (Z * Z * Z);  (* a Set, in insertion order *)
  lowEndDevice : bool;
  fallingBlocks : list FallingBlock;  (* [physicsEngine.fallingBlocks] *)
  physicsItems : list DroppedItem;  (* [physicsEngine.droppedItems] *)
  explosions : list Explosion;  (* [physicsEngine.explosions] *)
  droppedItems : list DroppedItem;  (* the renderer's own dropped items *)
  blockEvents : list BlockEvent;  (* the events handed to [onBlockChanged], oldest first *)
  commandBlockData : gmap (Z * Z * Z) bool;  (* whether a non-empty command is saved at the position *)
  commandsRun : list (Z * Z * Z);  (* command blocks executed by a signal edge *)
  notes : list (Z * Z * Z);  (* note particles spawned *)
  crosshairTarget : option (Z * Z * Z);  (* the targeted block, floored *)
  gameMode : GameMode;
  selectedTool : ToolType;
  activeBreak : option ActiveBreak
}.

(** Field updates. *)
Definition set_chunks (v : gmap (Z * Z) ChunkData) (g : Game) : Game :=
  mkGame v (chunkOrder g) (chunkMeshes g) (meshBuilds g) (redstonePower g) (redstoneActive g) (rsPoweredState g) (redstoneDirty g) (waterFlowActive g) (lowEndDevice g) (fallingBlocks g) (physicsItems g) (explosions g) (droppedItems g) (blockEvents g) (commandBlockData g) (commandsRun g) (notes g) (crosshairTarget g) (gameMode g) (selectedTool g) (activeBreak g).
Definition set_chunkOrder (v : list (Z * Z)) (g : Game) : Game :=
  mkGame (chunks g) v (chunkMeshes g) (meshBuilds g) (redstonePower g) (redstoneActive g) (rsPoweredState g) (redstoneDirty g) (waterFlowActive g) (lowEndDevice g) (fallingBlocks g) (physicsItems g) (explosions g) (droppedItems g) (blockEvents g) (commandBlockData g) (commandsRun g) (notes g) (crosshairTarget g) (gameMode g) (selectedTool g) (activeBreak g).
Definition set_chunkMeshes (v : list (Z * Z)) (g : Game) : Game :=
  mkGame (chunks g) (chunkOrder g) v (meshBuilds g) (redstonePower g) (redstoneActive g) (rsPoweredState g) (redstoneDirty g) (waterFlowActive g) (lowEndDevice g) (fallingBlocks g) (physicsItems g) (explosions g) (droppedItems g) (blockEvents g) (commandBlockData g) (commandsRun g) (notes g) (crosshairTarget g) (gameMode g) (selectedTool g) (activeBreak g).
Definition set_meshBuilds (v : list (Z * Z)) (g : Game) : Game :=
  mkGame (chunks g) (chunkOrder g) (chunkMeshes g) v (redstonePower g) (redstoneActive g) (rsPoweredState g) (redstoneDirty g) (waterFlowActive g) (lowEndDevice g) (fallingBlocks g) (physicsItems g) (explosions g) (droppedItems g) (blockEvents g) (commandBlockData g) (commandsRun g) (notes g) (crosshairTarget g) (gameMode g) (selectedTool g) (activeBreak g).
Definition set_redstonePower (v : gmap (Z * Z * Z) Z) (g : Game) : Game :=
  mkGame (chunks g) (chunkOrder g) (chunkMeshes g) (meshBuilds g) v (redstoneActive g) (rsPoweredState g) (redstoneDirty g) (waterFlowActive g) (lowEndDevice g) (fallingBlocks g) (physicsItems g) (explosions g) (droppedItems g) (blockEvents g) (commandBlockData g) (commandsRun g) (notes g) (crosshairTarget g) (gameMode g) (selectedTool g) (activeBreak g).
Definition set_redstoneActive (v : gmap (Z * Z * Z) bool) (g : Game) : Game :=
  mkGame (chunks g) (chunkOrder g) (chunkMeshes g) (meshBuilds g) (redstonePower g) v (rsPoweredState g) (redstoneDirty g) (waterFlowActive g) (lowEndDevice g) (fallingBlocks g) (physicsItems g) (explosions g) (droppedItems g) (blockEvents g) (commandBlockData g) (commandsRun g) (notes g) (crosshairTarget g) (gameMode g) (selectedTool g) (activeBreak g).
Definition set_rsPoweredState (v : gmap (Z * Z * Z) bool) (g : Game) : Game :=
  mkGame (chunks g) (chunkOrder g) (chunkMeshes g) (meshBuilds g) (redstonePower g) (redstoneActive g) v (redstoneDirty g) (waterFlowActive g) (lowEndDevice g) (fallingBlocks g) (physicsItems g) (explosions g) (droppedItems g) (blockEvents g) (commandBlockData g) (commandsRun g) (notes g) (crosshairTarget g) (gameMode g) (selectedTool g) (activeBreak g).
Definition set_redstoneDirty (v : bool) (g : Game) : Game :=
  mkGame (chunks g) (chunkOrder g) (chunkMeshes g) (meshBuilds g) (redstonePower g) (redstoneActive g) (rsPoweredState g) v (waterFlowActive g) (lowEndDevice g) (fallingBlocks g) (physicsItems g) (explosions g) (droppedItems g) (blockEvents g) (commandBlockData g) (commandsRun g) (notes g) (crosshairTarget g) (gameMode g) (selectedTool g) (activeBreak g).
Definition set_waterFlowActive (v : list (Z * Z * Z)) (g : Game) : Game :=
  mkGame (chunks g) (chunkOrder g) (chunkMeshes g) (meshBuilds g) (redstonePower g) (redstoneActive g) (rsPoweredState g) (redstoneDirty g) v (lowEndDevice g) (fallingBlocks g) (physicsItems g) (explosions g) (droppedItems g) (blockEvents g) (commandBlockData g) (commandsRun g) (notes g) (crosshairTarget g) (gameMode g) (selectedTool g) (activeBreak g).
Definition set_fallingBlocks (v : list FallingBlock) (g : Game) : Game :=
  mkGame (chunks g) (chunkOrder g) (chunkMeshes g) (meshBuilds g) (redstonePower g) (redstoneActive g) (rsPoweredState g) (redstoneDirty g) (waterFlowActive g) (lowEndDevice g) v (physicsItems g) (explosions g) (droppedItems g) (blockEvents g) (commandBlockData g) (commandsRun g) (notes g) (crosshairTarget g) (gameMode g) (selectedTool g) (activeBreak g).
Definition set_physicsItems (v : list DroppedItem) (g : Game) : Game :=
  mkGame (chunks g) (chunkOrder g) (chunkMeshes g) (meshBuilds g) (redstonePower g) (redstoneActive g) (rsPoweredState g) (redstoneDirty g) (waterFlowActive g) (lowEndDevice g) (fallingBlocks g) v (explosions g) (droppedItems g) (blockEvents g) (commandBlockData g) (commandsRun g) (notes g) (crosshairTarget g) (gameMode g) (selectedTool g) (activeBreak g).
Definition set_explosions (v : list Explosion) (g : Game) : Game :=
  mkGame (chunks g) (chunkOrder g) (chunkMeshes g) (meshBuilds g) (redstonePower g) (redstoneActive g) (rsPoweredState g) (redstoneDirty g) (waterFlowActive g) (lowEndDevice g) (fallingBlocks g) (physicsItems g) v (droppedItems g) (blockEvents g) (commandBlockData g) (commandsRun g) (notes g) (crosshairTarget g) (gameMode g) (selectedTool g) (activeBreak g).
Definition set_droppedItems (v : list DroppedItem) (g : Game) : Game :=
  mkGame (chunks g) (chunkOrder g) (chunkMeshes g) (meshBuilds g) (redstonePower g) (redstoneActive g) (rsPoweredState g) (redstoneDirty g) (waterFlowActive g) (lowEndDevice g) (fallingBlocks g) (physicsItems g) (explosions g) v (blockEvents g) (commandBlockData g) (commandsRun g) (notes g) (crosshairTarget g) (gameMode g) (selectedTool g) (activeBreak g).
Definition set_blockEvents (v : list BlockEvent) (g : Game) : Game :=
  mkGame (chunks g) (chunkOrder g) (chunkMeshes g) (meshBuilds g) (redstonePower g) (redstoneActive g) (rsPoweredState g) (redstoneDirty g) (waterFlowActive g) (lowEndDevice g) (fallingBlocks g) (physicsItems g) (explosions g) (droppedItems g) v (commandBlockData g) (commandsRun g) (notes g) (crosshairTarget g) (gameMode g) (selectedTool g) (activeBreak g).
Definition set_commandBlockData (v : gmap (Z * Z * Z) bool) (g : Game) : Game :=
  mkGame (chunks g) (chunkOrder g) (chunkMeshes g) (meshBuilds g) (redstonePower g) (redstoneActive g) (rsPoweredState g) (redstoneDirty g) (waterFlowActive g) (lowEndDevice g) (fallingBlocks g) (physicsItems g) (explosions g) (droppedItems g) (blockEvents g) v (commandsRun g) (notes g) (crosshairTarget g) (gameMode g) (selectedTool g) (activeBreak g).
Definition set_commandsRun (v : list (Z * Z * Z)) (g : Game) : Game :=
  mkGame (chunks g) (chunkOrder g) (chunkMeshes g) (meshBuilds g) (redstonePower g) (redstoneActive g) (rsPoweredState g) (redstoneDirty g) (waterFlowActive g) (lowEndDevice g) (fallingBlocks g) (physicsItems g) (explosions g) (droppedItems g) (blockEvents g) (commandBlockData g) v (notes g) (crosshairTarget g) (gameMode g) (selectedTool g) (activeBreak g).
Definition set_notes (v : list (Z * Z * Z)) (g : Game) : Game :=
  mkGame (chunks g) (chunkOrder g) (chunkMeshes g) (meshBuilds g) (redstonePower g) (redstoneActive g) (rsPoweredState g) (redstoneDirty g) (waterFlowActive g) (lowEndDevice g) (fallingBlocks g) (physicsItems g) (explosions g) (droppedItems g) (blockEvents g) (commandBlockData g) (commandsRun g) v (crosshairTarget g) (gameMode g) (selectedTool g) (activeBreak g).
Definition set_crosshairTarget (v : option (Z * Z * Z)) (g : Game) : Game :=
  mkGame (chunks g) (chunkOrder g) (chunkMeshes g) (meshBuilds g) (redstonePower g) (redstoneActive g) (rsPoweredState g) (redstoneDirty g) (waterFlowActive g) (lowEndDevice g) (fallingBlocks g) (physicsItems g) (explosions g) (droppedItems g) (blockEvents g) (commandBlockData g) (commandsRun g) (notes g) v (gameMode g) (selectedTool g) (activeBreak g).
Definition set_gameMode (v : GameMode) (g : Game) : Game :=
  mkGame (chunks g) (chunkOrder g) (chunkMeshes g) (meshBuilds g) (redstonePower g) (redstoneActive g) (rsPoweredState g) (redstoneDirty g) (waterFlowActive g) (lowEndDevice g) (fallingBlocks g) (physicsItems g) (explosions g) (droppedItems g) (blockEvents g) (commandBlockData g) (commandsRun g) (notes g) (crosshairTarget g) v (selectedTool g) (activeBreak g).
Definition set_selectedTool (v : ToolType) (g : Game) : Game :=
  mkGame (chunks g) (chunkOrder g) (chunkMeshes g) (meshBuilds g) (redstonePower g) (redstoneActive g) (rsPoweredState g) (redstoneDirty g) (waterFlowActive g) (lowEndDevice g) (fallingBlocks g) (physicsItems g) (explosions g) (droppedItems g) (blockEvents g) (commandBlockData g) (commandsRun g) (notes g) (crosshairTarget g) (gameMode g) v (activeBreak g).
Definition set_activeBreak (v : option ActiveBreak) (g : Game) : Game :=
  mkGame (chunks g) (chunkOrder g) (chunkMeshes g) (meshBuilds g) (redstonePower g) (redstoneActive g) (rsPoweredState g) (redstoneDirty g) (waterFlowActive g) (lowEndDevice g) (fallingBlocks g) (physicsItems g) (explosions g) (droppedItems g) (blockEvents g) (commandBlockData g) (commandsRun g) (notes g) (crosshairTarget g) (gameMode g) (selectedTool g) v.

(** [Set.prototype.add]: a set keeps its first insertion of an element. *)
Definition set_add {A : Type} `{EqDecision A} (x : A) (s : list A) : list A :=
  if decide (x ∈ s) then s else s ++ [x].

(** ** The game renderer: voxel access *)

Definition vertOut (y : Z) : bool := (y <? 0) || (y >=? CHUNK_HEIGHT).

Definition getBlockAt (g : Game) (wx wy wz : Z) : BlockType :=
  let bx := wx in let by_ := wy in let bz := wz in
  if vertOut by_ then BlockType.AIR
  else
    let cx := chunkCoord bx in
    let cz := chunkCoord bz in
    match chunks g !! chunkKey cx cz with
    | None => BlockType.STONE
    | Some chunk => getBlock chunk (wrapLocal bx) by_ (wrapLocal bz)
    end.

Definition getBlockAtLoaded (g : Game) (wx wy wz : Z) : BlockType :=
  let bx := wx in let by_ := wy in let bz := wz in
  if vertOut by_ then BlockType.AIR
  else
    let cx := chunkCoord bx in
    let cz := chunkCoord bz in
    match chunks g !! chunkKey cx cz with
    | None => BlockType.AIR
    | Some chunk => getBlock chunk (wrapLocal bx) by_ (wrapLocal bz)
    end.

(** [waterKey] builds ["x,y,z"]; the triple serves as the key. *)
Definition waterKey (x y z : Z) : Z * Z * Z := (x, y, z).

Definition queueWaterAt (g : Game) (x y z : Z) : Game :=
  if vertOut y then g
  else if negb (getBlockAtLoaded g x y z =? BlockType.WATER) then g
  else set_waterFlowActive (set_add (waterKey x y z) (waterFlowActive g)) g.

Definition queueWaterAround (g : Game) (x y z : Z) : Game :=
  let g := queueWaterAt g x y z in
  let g := queueWaterAt g (x + 1) y z in
  let g := queueWaterAt g (x - 1) y z in
  let g := queueWaterAt g x y (z + 1) in
  let g := queueWaterAt g x y (z - 1) in
  let g := queueWaterAt g x (y + 1) z in
  queueWaterAt g x (y - 1) z.

(** The chunk object is shared between the map and its users: a write
    through it is a write into the map entry. *)
Definition storeChunk (g : Game) (key : Z * Z) (chunk : ChunkData) : Game :=
  set_chunks (<[ key := chunk ]> (chunks g)) g.

(** The keys of the chunks to rebuild after a write at local [(lx, lz)]. *)
Definition touchedChunks (rebuild : list (Z * Z)) (cx cz lx lz : Z) : list (Z * Z) :=
  let rebuild := set_add (chunkKey cx cz) rebuild in
  let rebuild := if lx =? 0 then set_add (chunkKey (cx - 1) cz) rebuild else rebuild in
  let rebuild := if lx =? CHUNK_SIZE - 1 then set_add (chunkKey (cx + 1) cz) rebuild else rebuild in
  let rebuild := if lz =? 0 then set_add (chunkKey cx (cz - 1)) rebuild else rebuild in
  if lz =? CHUNK_SIZE - 1 then set_add (chunkKey cx (cz + 1)) rebuild else rebuild.

(** [setLoadedBlockFast]: the state, the rebuild set, and the previous block
    ([None] for JavaScript's [null]). *)
Definition setLoadedBlockFast (g : Game) (x y z : Z) (blockType : BlockType)
    (rebuildChunks : list (Z * Z)) : Game * list (Z * Z) * option BlockType :=
  if vertOut y then (g, rebuildChunks, None)
  else
    let cx := chunkCoord x in
    let cz := chunkCoord z in
    let key := chunkKey cx cz in
    match chunks g !! key with
    | None => (g, rebuildChunks, None)
    | Some chunk =>
        let lx := wrapLocal x in
        let lz := wrapLocal z in
        let prev := getBlock chunk lx y lz in
        if prev =? blockType then (g, rebuildChunks, Some prev)
        else
          (storeChunk g key (setBlock chunk lx y lz blockType),
           touchedChunks rebuildChunks cx cz lx lz,
           Some prev)
    end.

Definition buildChunkMesh (g : Game) (key : Z * Z) : Game :=
  set_chunkMeshes (set_add key (chunkMeshes g))
    (set_meshBuilds (meshBuilds g ++ [key]) g).

Definition rebuildChunkSet (g : Game) (keys : list (Z * Z)) : Game :=
  fold_left (fun g key =>
    match chunks g !! key with
    | Some _ => buildChunkMesh g key
    | None => g
    end) keys g.

Definition rebuildEdge (g : Game) (lx lz cx cz : Z) : Game :=
  let build g key :=
    match chunks g !! key with Some _ => buildChunkMesh g key | None => g end in
  let g := if lx =? 0 then build g (chunkKey (cx - 1) cz) else g in
  let g := if lx =? CHUNK_SIZE - 1 then build g (chunkKey (cx + 1) cz) else g in
  let g := if lz =? 0 then build g (chunkKey cx (cz - 1)) else g in
  if lz =? CHUNK_SIZE - 1 then build g (chunkKey cx (cz + 1)) else g.

Definition isBlockSolid (g : Game) (wx wy wz : Z) : bool :=
  isCollidable (getBlockAt g wx wy wz).

(** ** The game renderer: the edit protocol *)

(** [requestRedstoneRefresh(false)] only marks the network dirty. *)
Definition requestRedstoneRefresh_deferred (g : Game) : Game :=
  set_redstoneDirty true g.

Definition checkRS (g : Game) (b : BlockType) : Game :=
  let rs := [ BlockType.REDSTONE_DUST; BlockType.REDSTONE_TORCH; BlockType.REDSTONE_BLOCK;
              BlockType.REDSTONE_LAMP; BlockType.LEVER; BlockType.BUTTON;
              BlockType.REDSTONE_REPEATER; BlockType.COMPARATOR;
              BlockType.COMMAND_BLOCK; BlockType.TNT; BlockType.NOTE_BLOCK ] in
  if includes rs b then requestRedstoneRefresh_deferred g else g.

Definition onBlockChanged (g : Game) (x y z : Z) (type : BlockType) : Game :=
  set_blockEvents (blockEvents g ++ [mkBlockEvent x y z type]) g.

(** physics.ts: [shouldBlockFall]. *)
Definition shouldBlockFall (blockType : BlockType) : bool :=
  includes [BlockType.SAND; BlockType.GRAVEL; BlockType.ANVIL] blockType.

Definition half : float := 0.5%float.

(** [setBlockAt] and [makeFallingBlock] call each other; [depth] bounds the
    nesting of the calls ([setBlockAt_total] shows that two levels are all
    that is ever used). *)
Fixpoint setBlockAt_rec (depth : nat) (g : Game) (x y z : Z) (blockType : BlockType) : Game :=
  match depth with
  | O => g
  | S depth' =>
      let '(g, rebuildChunks, prev) := setLoadedBlockFast g x y z blockType [] in
      match prev with
      | None => g
      | Some prev =>
          if prev =? blockType then g
          else
            let g := rebuildChunkSet g rebuildChunks in
            let g := checkRS g prev in
            let g := checkRS g blockType in
            (* Check if block should fall *)
            let g :=
              if shouldBlockFall blockType then
                (* makeFallingBlock(x, y, z, blockType) *)
                let pos := (PrimFloat.add (Z2F x) half, PrimFloat.add (Z2F y) half,
                            PrimFloat.add (Z2F z) half) in
                let block := mkFallingBlock pos (0%float, 0%float, 0%float) blockType 0%float in
                let g := set_fallingBlocks (fallingBlocks g ++ [block]) g in
                (* Remove block from world *)
                setBlockAt_rec depth' g x y z BlockType.AIR
              else g in
            let g := queueWaterAround g x y z in
            let g := if blockType =? BlockType.WATER then queueWaterAt g x y z else g in
            onBlockChanged g x y z blockType
      end
  end.

Definition setBlockAt (g : Game) (x y z : Z) (blockType : BlockType) : Game :=
  setBlockAt_rec 2 g x y z blockType.

(** [applyMultiplayerBlockEvents]. *)
Definition applyMultiplayerBlockEvent (st : Game * list (Z * Z)) (ev : BlockEvent)
    : Game * list (Z * Z) :=
  let '(g, rebuild) := st in
  let cx := chunkCoord (ev_x ev) in
  let cz := chunkCoord (ev_z ev) in
  let key := chunkKey cx cz in
  match chunks g !! key with
  | None => st
  | Some chunk =>
      if vertOut (ev_y ev) then st
      else
        let lx := wrapLocal (ev_x ev) in
        let lz := wrapLocal (ev_z ev) in
        let prev := getBlock chunk lx (ev_y ev) lz in
        let nextType := ev_type ev in
        let g := storeChunk g key (setBlock chunk lx (ev_y ev) lz nextType) in
        let g := checkRS g prev in
        let g := checkRS g nextType in
        let g := queueWaterAround g (ev_x ev) (ev_y ev) (ev_z ev) in
        let g := if nextType =? BlockType.WATER
                 then queueWaterAt g (ev_x ev) (ev_y ev) (ev_z ev) else g in
        (g, touchedChunks rebuild cx cz lx lz)
  end.

Definition applyMultiplayerBlockEvents (g : Game) (events : list BlockEvent) : Game :=
  let '(g, rebuild) := fold_left applyMultiplayerBlockEvent events (g, []) in
  rebuildChunkSet g rebuild.

(** ** The game renderer: explosions *)

(** The cells of [for dx, for dy, for dz] over [-r..r], in loop order. *)
Definition cube (r : Z) : list (Z * Z * Z) :=
  dx ← seqZ (- r) (2 * r + 1);
  dy ← seqZ (- r) (2 * r + 1);
  dz ← seqZ (- r) (2 * r + 1);
  [(dx, dy, dz)].

Definition explodeTNT_cell (x y z r : Z) (st : Game * list (Z * Z)) (d : Z * Z * Z)
    : Game * list (Z * Z) :=
  let '(g, rebuild) := st in
  let '(dx, dy, dz) := d in
  if dx * dx + dy * dy + dz * dz >? r * r then st
  else
    let bx := x + dx in let by_ := y + dy in let bz := z + dz in
    let b := getBlockAtLoaded g bx by_ bz in
    if negb (b =? BlockType.AIR) && negb (b =? BlockType.BEDROCK) then
      let cx := chunkCoord bx in
      let cz := chunkCoord bz in
      let key := chunkKey cx cz in
      match chunks g !! key with
      | Some chunk =>
          let g := storeChunk g key
                     (setBlock chunk (wrapLocal bx) by_ (wrapLocal bz) BlockType.AIR) in
          (queueWaterAround g bx by_ bz, set_add key rebuild)
      | None => st
      end
    else st.

Definition explodeTNT (g : Game) (x y z : Z) : Game :=
  let r := 4 in
  let '(g, rebuild) := fold_left (explodeTNT_cell x y z r) (cube r) (g, []) in
  rebuildChunkSet g rebuild.

(** ** The game renderer: the signal network *)

Definition getRedstonePower (pw : gmap (Z * Z * Z) Z) (wx wy wz : Z) : Z :=
  default 0 (pw !! (wx, wy, wz)).

Definition setRSPower (pw : gmap (Z * Z * Z) Z) (wx wy wz : Z) (p : Z)
    : gmap (Z * Z * Z) Z :=
  if p >? 0 then <[ (wx, wy, wz) := p ]> pw else delete (wx, wy, wz) pw.

Definition dirs6 : list (Z * Z * Z) :=
  [(1, 0, 0); (-1, 0, 0); (0, 0, 1); (0, 0, -1); (0, 1, 0); (0, -1, 0)].

(** The local cells of a chunk in the order of
    [for x, for y, for z]. *)
Definition chunkCells : list (Z * Z * Z) :=
  x ← seqZ 0 CHUNK_SIZE;
  y ← seqZ 0 CHUNK_HEIGHT;
  z ← seqZ 0 CHUNK_SIZE;
  [(x, y, z)].

(** [for (const [, chunk] of this.chunks) for x, y, z]: the body receives the
    key of the chunk and the local cell, and reads the chunk from the state it
    is handed (chunk objects are mutated in place while a scan runs). *)
Definition scanChunks {S : Type} (order : list (Z * Z))
    (body : S → Z * Z → Z * Z * Z → S) (s : S) : S :=
  fold_left (fun s key => fold_left (fun s c => body s key c) chunkCells s) order s.

(** An entry of the queue: position and the power it was queued with. *)
Definition QItem : Type := Z * Z * Z * Z.

(** Step 1: the sources. *)
Definition scanSource (g : Game) (oldActive : gmap (Z * Z * Z) bool)
    (st : list QItem * gmap (Z * Z * Z) bool) (key : Z * Z) (c : Z * Z * Z)
    : list QItem * gmap (Z * Z * Z) bool :=
  let '(sources, active) := st in
  match chunks g !! key with
  | None => st
  | Some chunk =>
      let '(x, y, z) := c in
      let w0 := cx chunk * CHUNK_SIZE in
      let z0 := cz chunk * CHUNK_SIZE in
      let b := getBlock chunk x y z in
      let wx := w0 + x in let wz := z0 + z in
      if (b =? BlockType.REDSTONE_BLOCK) || (b =? BlockType.REDSTONE_TORCH) then
        (sources ++ [(wx, y, wz, 15)], active)
      else if (b =? BlockType.LEVER) || (b =? BlockType.BUTTON) then
        if default false (oldActive !! (wx, y, wz))
        then (sources ++ [(wx, y, wz, 15)], <[ (wx, y, wz) := true ]> active)
        else st
      else st
  end.

(** Step 2: the breadth-first relaxation. *)
Record Bfs := mkBfs {
  queue : list QItem;
  iter : Z;
  power : gmap (Z * Z * Z) Z
}.

Definition BFS_CAP : Z := 5000.

(** The guard of [while (queue.length > 0 && iter < 5000)]. *)
Definition bfsGuard (st : Bfs) : bool :=
  match queue st with
  | [] => false
  | _ :: _ => iter st <? BFS_CAP
  end.

Definition relax (g : Game) (cur : Z * Z * Z) (cp : Z)
    (st : list QItem * gmap (Z * Z * Z) Z) (d : Z * Z * Z)
    : list QItem * gmap (Z * Z * Z) Z :=
  let '(q, pw) := st in
  let '(x, y, z) := cur in
  let '(dx, dy, dz) := d in
  let nx := x + dx in let ny := y + dy in let nz := z + dz in
  let nb := getBlockAtLoaded g nx ny nz in
  let '(q, pw) :=
    if nb =? BlockType.REDSTONE_DUST then
      let np := cp - 1 in
      if np >? getRedstonePower pw nx ny nz
      then (q ++ [(nx, ny, nz, np)], setRSPower pw nx ny nz np)
      else (q, pw)
    else (q, pw) in
  if (nb =? BlockType.REDSTONE_REPEATER) && (15 >? getRedstonePower pw nx ny nz)
  then (q ++ [(nx, ny, nz, 15)], setRSPower pw nx ny nz 15)
  else (q, pw).

(** One execution of the loop body. *)
Definition bfsBody (g : Game) (st : Bfs) : Bfs :=
  match queue st with
  | [] => st
  | (x, y, z, _) :: rest =>
      let it := iter st + 1 in
      let cp := getRedstonePower (power st) x y z in
      if cp <=? 1 then mkBfs rest it (power st)
      else
        let '(q, pw) := fold_left (relax g (x, y, z) cp) dirs6 (rest, power st) in
        mkBfs q it pw
  end.

(** The loop, run for at most [n] executions of the body. *)
Fixpoint bfsLoop (n : nat) (g : Game) (st : Bfs) : Bfs :=
  match n with
  | O => st
  | S n' => if bfsGuard st then bfsLoop n' g (bfsBody g st) else st
  end.

Definition anyNeighbourPowered (pw : gmap (Z * Z * Z) Z) (wx y wz : Z) : bool :=
  existsb (fun d : Z * Z * Z =>
    let '(dx, dy, dz) := d in getRedstonePower pw (wx + dx) (y + dy) (wz + dz) >? 0) dirs6.

(** Step 3a: the lamps. *)
Definition scanLamp (g : Game) (oldActive : gmap (Z * Z * Z) bool)
    (st : bool * gmap (Z * Z * Z) bool) (key : Z * Z) (c : Z * Z * Z)
    : bool * gmap (Z * Z * Z) bool :=
  let '(needsRebuild, active) := st in
  match chunks g !! key with
  | None => st
  | Some chunk =>
      let '(x, y, z) := c in
      let w0 := cx chunk * CHUNK_SIZE in
      let z0 := cz chunk * CHUNK_SIZE in
      if getBlock chunk x y z =? BlockType.REDSTONE_LAMP then
        let powered := anyNeighbourPowered (redstonePower g) (w0 + x) y (z0 + z) in
        let k := (w0 + x, y, z0 + z) in
        let needsRebuild :=
          if negb (eqb powered (default false (oldActive !! k))) then true else needsRebuild in
        (needsRebuild, if powered then <[ k := true ]> active else active)
      else st
  end.

(** Step 3b: the edge-triggered consumers. *)
Definition scanTrigger (st : Game * gmap (Z * Z * Z) bool) (key : Z * Z) (c : Z * Z * Z)
    : Game * gmap (Z * Z * Z) bool :=
  let '(g, nextPoweredState) := st in
  match chunks g !! key with
  | None => st
  | Some chunk =>
      let '(x, y, z) := c in
      let w0 := cx chunk * CHUNK_SIZE in
      let z0 := cz chunk * CHUNK_SIZE in
      let b := getBlock chunk x y z in
      if negb (includes [BlockType.COMMAND_BLOCK; BlockType.TNT; BlockType.NOTE_BLOCK] b)
      then st
      else
        let wx := w0 + x in let wz := z0 + z in
        let k := (wx, y, wz) in
        let powered := anyNeighbourPowered (redstonePower g) wx y wz in
        let wasPowered := default false (rsPoweredState g !! k) in
        let g :=
          if powered && negb wasPowered then
            if b =? BlockType.COMMAND_BLOCK then
              if default false (commandBlockData g !! k)
              then set_commandsRun (commandsRun g ++ [k]) g else g
            else if b =? BlockType.TNT then explodeTNT g wx y wz
            else if b =? BlockType.NOTE_BLOCK
            then set_notes (notes g ++ [(wx, y + 1, wz)]) g
            else g
          else g in
        (g, <[ k := powered ]> nextPoweredState)
  end.

Definition rebuildAllMeshed (g : Game) : Game :=
  fold_left (fun g key =>
    match chunks g !! key with
    | Some _ => if decide (key ∈ chunkMeshes g) then buildChunkMesh g key else g
    | None => g
    end) (chunkOrder g) g.

Definition updateRedstone (g : Game) : Game :=
  let oldActive := redstoneActive g in
  let '(sources, active) := scanChunks (chunkOrder g) (scanSource g oldActive) ([], ∅) in
  let pw := fold_left (fun pw (s : QItem) =>
              let '(x, y, z, p) := s in setRSPower pw x y z p) sources ∅ in
  let bfs := bfsLoop (Z.to_nat BFS_CAP) g (mkBfs sources 0 pw) in
  let g := set_redstonePower (power bfs) g in
  let '(needsRebuild, active) :=
    scanChunks (chunkOrder g) (scanLamp g oldActive) (false, active) in
  let g := set_redstoneActive active g in
  let '(g, nextPoweredState) := scanChunks (chunkOrder g) scanTrigger (g, ∅) in
  let g := set_rsPoweredState nextPoweredState g in
  if needsRebuild then rebuildAllMeshed g else g.

(** ** The game renderer: water *)

Definition dirs4 : list (Z * Z) := [(1, 0); (-1, 0); (0, 1); (0, -1)].

(** The state of the side-flow loop of one cell. *)
Record Spread := mkSpread {
  sp_game : Game;
  sp_rebuild : list (Z * Z);
  sp_spreads : Z;
  sp_changed : bool
}.

Definition spreadStep (x y z : Z) (st : Spread) (d : Z * Z) : Spread :=
  if sp_spreads st >=? 2 then st
  else
    let g := sp_game st in
    let nx := x + fst d in
    let nz := z + snd d in
    if negb (getBlockAtLoaded g nx y nz =? BlockType.AIR) then st
    else
      let below := if y >? 0 then getBlockAtLoaded g nx (y - 1) nz else BlockType.BEDROCK in
      if below =? BlockType.AIR then st
      else
        let '(g', rebuild, prev) :=
          setLoadedBlockFast g nx y nz BlockType.WATER (sp_rebuild st) in
        match prev with
        | Some p =>
            if p =? BlockType.AIR then
              mkSpread
                (set_waterFlowActive (set_add (waterKey nx y nz) (waterFlowActive g')) g')
                rebuild (sp_spreads st + 1) true
            else mkSpread g' rebuild (sp_spreads st) (sp_changed st)
        | None => mkSpread g' rebuild (sp_spreads st) (sp_changed st)
        end.

(** The body of the loop of [updateWaterFlow] for one dequeued entry: the
    state, the rebuild set, and whether the entry counted as processed. *)
Definition flowCell (g : Game) (rebuildChunks : list (Z * Z)) (c : Z * Z * Z)
    : Game * list (Z * Z) * bool :=
  let '(x, y, z) := c in
  if negb (getBlockAtLoaded g x y z =? BlockType.WATER) then (g, rebuildChunks, false)
  else
    let '(g, rebuildChunks, changed) :=
      (* Gravity first: always try to flow down. *)
      if (y >? 0) && (getBlockAtLoaded g x (y - 1) z =? BlockType.AIR) then
        let '(g', rebuild, prev) :=
          setLoadedBlockFast g x (y - 1) z BlockType.WATER rebuildChunks in
        match prev with
        | Some p =>
            if p =? BlockType.AIR then
              (set_waterFlowActive (set_add (waterKey x (y - 1) z) (waterFlowActive g')) g',
               rebuild, true)
            else (g', rebuild, false)
        | None => (g', rebuild, false)
        end
      else
        (* Side flow on supported ground. *)
        let st := fold_left (spreadStep x y z) dirs4 (mkSpread g rebuildChunks 0 false) in
        (sp_game st, sp_rebuild st, sp_changed st) in
    let g := if changed
             then set_waterFlowActive (set_add (waterKey x y z) (waterFlowActive g)) g
             else g in
    (g, rebuildChunks, true).

Definition updateWaterFlow (g : Game) : Game :=
  match waterFlowActive g with
  | [] => g
  | pending =>
      let g := set_waterFlowActive [] g in
      let maxUpdates := if lowEndDevice g then 64 else 140 in
      let '(g, rebuildChunks, _) :=
        fold_left (fun (st : Game * list (Z * Z) * Z) c =>
          let '(g, rebuild, processed) := st in
          if processed <? maxUpdates then
            let '(g, rebuild, counted) := flowCell g rebuild c in
            (g, rebuild, if counted then processed + 1 else processed)
          else st) pending (g, [], 0) in
      match rebuildChunks with
      | [] => g
      | _ => rebuildChunkSet g rebuildChunks
      end
  end.

(** ** The game renderer: breaking blocks *)

Definition isTreeBlock (b : BlockType) : bool :=
  (b =? BlockType.WOOD) || (b =? BlockType.LOG_BIRCH)
  || (b =? BlockType.LEAVES) || (b =? BlockType.LEAVES_BIRCH).

(** The flood of [collapseTree]. *)
Record Collapse := mkCollapse {
  cl_queue : list (Z * Z * Z);
  cl_visited : list (Z * Z * Z);
  cl_toRemove : list (Z * Z * Z)
}.

Definition COLLAPSE_CAP : Z := 200.

(** The guard of [while (queue.length > 0 && visited.size < 200)]. *)
Definition collapseGuard (st : Collapse) : bool :=
  match cl_queue st with
  | [] => false
  | _ :: _ => Z.of_nat (length (cl_visited st)) <? COLLAPSE_CAP
  end.

Definition collapseBody (g : Game) (st : Collapse) : Collapse :=
  match cl_queue st with
  | [] => st
  | cur :: rest =>
      if decide (cur ∈ cl_visited st) then mkCollapse rest (cl_visited st) (cl_toRemove st)
      else
        let visited := cl_visited st ++ [cur] in
        let '(x, y, z) := cur in
        if isTreeBlock (getBlockAtLoaded g x y z) then
          mkCollapse
            (rest ++ map (fun d : Z * Z * Z =>
                       let '(dx, dy, dz) := d in (x + dx, y + dy, z + dz))
                     [(0, 1, 0); (0, -1, 0); (1, 0, 0); (-1, 0, 0); (0, 0, 1); (0, 0, -1)])
            visited (cl_toRemove st ++ [cur])
        else mkCollapse rest visited (cl_toRemove st)
  end.

Fixpoint collapseLoop (n : nat) (g : Game) (st : Collapse) : Collapse :=
  match n with
  | O => st
  | S n' => if collapseGuard st then collapseLoop n' g (collapseBody g st) else st
  end.

(** Each execution of the body either drops a visited entry or visits a new
    one and queues six more, so [1 + 6 * 200] executions exhaust the loop
    ([collapseLoop_exits]). *)
Definition COLLAPSE_FUEL : nat := Z.to_nat (1 + 6 * COLLAPSE_CAP).

Definition removeCell (st : Game * list (Z * Z)) (p : Z * Z * Z) : Game * list (Z * Z) :=
  let '(g, rebuild) := st in
  let '(x, y, z) := p in
  let key := chunkKey (chunkCoord x) (chunkCoord z) in
  match chunks g !! key with
  | Some chunk =>
      (storeChunk g key (setBlock chunk (wrapLocal x) y (wrapLocal z) BlockType.AIR),
       set_add key rebuild)
  | None => st
  end.

Definition collapseTree (g : Game) (wx wy wz : Z) : Game :=
  let st := collapseLoop COLLAPSE_FUEL g (mkCollapse [(wx, wy, wz)] [] []) in
  let '(g, rebuild) := fold_left removeCell (cl_toRemove st) (g, []) in
  rebuildChunkSet g rebuild.

Definition clearBreakState (g : Game) : Game := set_activeBreak None g.

(** [spawnDroppedItem]: the item enters the renderer's list (its random
    velocity and spin are visual only and not kept). *)
Definition spawnDroppedItem (g : Game) (blockType : BlockType) (cell : Z * Z * Z) : Game :=
  set_droppedItems (droppedItems g ++ [mkDroppedItem cell blockType]) g.

Definition finishBreakingBlock (g : Game) (px py pz : Z) (key : Z * Z)
    (lx lz : Z) (existing : BlockType) : Game :=
  let isLog := (existing =? BlockType.WOOD) || (existing =? BlockType.LOG_BIRCH) in
  let blockBelow := getBlockAtLoaded g px (py - 1) pz in
  let blockAbove := getBlockAtLoaded g px (py + 1) pz in
  let isTreeBase :=
    isLog && ((blockBelow =? BlockType.GRASS) || (blockBelow =? BlockType.DIRT))
    && ((blockAbove =? BlockType.WOOD) || (blockAbove =? BlockType.LOG_BIRCH)) in
  let g := if negb (existing =? BlockType.AIR)
           then spawnDroppedItem g existing (px, py, pz) else g in
  let g := match chunks g !! key with
           | Some chunk => storeChunk g key (setBlock chunk lx py lz BlockType.AIR)
           | None => g
           end in
  let g := buildChunkMesh g key in
  let g := rebuildEdge g lx lz (chunkCoord px) (chunkCoord pz) in
  let g := checkRS g existing in
  let g := onBlockChanged g px py pz BlockType.AIR in
  let g := if isTreeBase then collapseTree g px (py + 1) pz else g in
  clearBreakState g.

Section Breaking.
Local Open Scope float_scope.

(** [customizationManager.getBlockProperties(block).hardness]: a table the
    player can edit at run time. *)
Variable hardness : BlockType → float.

Definition getBreakIncrement (g : Game) (block : BlockType) : float :=
  if includes DECORATIVE_BLOCKS block then 1.0
  else if includes [BlockType.LEAVES; BlockType.LEAVES_BIRCH; BlockType.LEAVES_SPRUCE;
                    BlockType.LEAVES_JUNGLE; BlockType.LEAVES_ACACIA;
                    BlockType.LEAVES_DARK_OAK; BlockType.LEAVES_CHERRY;
                    BlockType.GLASS] block then 0.65
  else
    let hard := Math_max 4 (hardness block) in
    let pickaxeBlocks :=
      [ BlockType.STONE; BlockType.COBBLESTONE; BlockType.OBSIDIAN; BlockType.DEEPSLATE;
        BlockType.IRON_BLOCK; BlockType.GOLD_BLOCK; BlockType.DIAMOND_BLOCK;
        BlockType.LAPIS_BLOCK; BlockType.REDSTONE_BLOCK; BlockType.QUARTZ_BLOCK;
        BlockType.QUARTZ_PILLAR; BlockType.BASALT; BlockType.POLISHED_BASALT;
        BlockType.BEDROCK ] in
    let axeBlocks :=
      [ BlockType.WOOD; BlockType.LOG_BIRCH; BlockType.LOG_SPRUCE; BlockType.LOG_JUNGLE;
        BlockType.LOG_ACACIA; BlockType.LOG_DARK_OAK; BlockType.LOG_CHERRY;
        BlockType.PLANKS; BlockType.PLANKS_BIRCH; BlockType.PLANKS_SPRUCE;
        BlockType.PLANKS_JUNGLE; BlockType.PLANKS_ACACIA; BlockType.PLANKS_DARK_OAK;
        BlockType.PLANKS_CHERRY; BlockType.BOOKSHELF; BlockType.CRAFTING_TABLE;
        BlockType.FENCE_OAK; BlockType.DOOR_OAK ] in
    let shovelBlocks :=
      [ BlockType.DIRT; BlockType.GRASS; BlockType.SAND; BlockType.GRAVEL;
        BlockType.CLAY; BlockType.SNOW; BlockType.MYCELIUM; BlockType.PODZOL ] in
    let toolBoost := 1 in
    let toolBoost := match selectedTool g with
                     | ToolType.PICKAXE => if includes pickaxeBlocks block then 2.2 else toolBoost
                     | _ => toolBoost end in
    let toolBoost := match selectedTool g with
                     | ToolType.AXE => if includes axeBlocks block then 2.0 else toolBoost
                     | _ => toolBoost end in
    let toolBoost := match selectedTool g with
                     | ToolType.SHOVEL => if includes shovelBlocks block then 2.0 else toolBoost
                     | _ => toolBoost end in
    let toolBoost := match selectedTool g with
                     | ToolType.SWORD => if includes DECORATIVE_BLOCKS block then 1.7 else toolBoost
                     | _ => toolBoost end in
    let base := (10 / hard) * toolBoost in
    Math_max 0.06 (Math_min 0.48 base).

Definition isBreakingTargetSame (g : Game) (x y z : Z) (block : BlockType) : bool :=
  match activeBreak g with
  | Some ab => (ab_x ab =? x)%Z && (ab_y ab =? y)%Z && (ab_z ab =? z)%Z
               && (ab_block ab =? block)%Z
  | None => false
  end.

(** [breakBlock] (the sword's damage to nearby animals and the break
    overlay touch no state kept here). *)
Definition breakBlock (g : Game) : Game :=
  match crosshairTarget g with
  | None => g
  | Some (px, py, pz) =>
      let cx := chunkCoord px in
      let cz := chunkCoord pz in
      let key := chunkKey cx cz in
      match chunks g !! key with
      | None => g
      | Some chunk =>
          let lx := wrapLocal px in
          let lz := wrapLocal pz in
          let existing := getBlock chunk lx py lz in
          if (existing =? BlockType.AIR)%Z then clearBreakState g
          else if (existing =? BlockType.BEDROCK)%Z then g
          else
            match gameMode g with
            | creative => finishBreakingBlock g px py pz key lx lz existing
            | survival =>
                let g :=
                  if negb (isBreakingTargetSame g px py pz existing)
                  then set_activeBreak (Some (mkActiveBreak px py pz existing 0)) g
                  else g in
                match activeBreak g with
                | None => g
                | Some ab =>
                    let progress :=
                      Math_min 1 (ab_progress ab + getBreakIncrement g existing) in
                    let g := set_activeBreak
                               (Some (mkActiveBreak (ab_x ab) (ab_y ab) (ab_z ab)
                                        (ab_block ab) progress)) g in
                    if PrimFloat.ltb progress 1 then g
                    else finishBreakingBlock g px py pz key lx lz existing
                end
            end
      end
  end.
End Breaking.

(** ** physics.ts: explosions *)

Section Explosions.
Local Open Scope float_scope.

Variable rnd : Oracle.

(** [dropItem]: three random draws shape the ejection; the item enters the
    engine's list. *)
Definition dropItem (st : Game * nat) (x y z : Z) (blockType : BlockType) : Game * nat :=
  let '(g, cur) := st in
  let '(_, cur) := Math_random rnd cur in
  let '(_, cur) := Math_random rnd cur in
  let '(_, cur) := Math_random rnd cur in
  (set_physicsItems (physicsItems g ++ [mkDroppedItem (x, y, z) blockType]) g, cur).

Definition createExplosion_cell (x y z power : Z) (st : Game * nat) (d : Z * Z * Z)
    : Game * nat :=
  let '(g, cur) := st in
  let '(dx, dy, dz) := d in
  (* dist <= power, on integers *)
  if (dx * dx + dy * dy + dz * dz <=? power * power)%Z then
    let bx := (x + dx)%Z in let by_ := (y + dy)%Z in let bz := (z + dz)%Z in
    let blockType := getBlockAt g bx by_ bz in
    if negb (blockType =? BlockType.AIR)%Z && negb (blockType =? BlockType.BEDROCK)%Z then
      let '(r, cur) := Math_random rnd cur in
      let '(g, cur) := if PrimFloat.ltb r 0.3 then dropItem (g, cur) bx by_ bz blockType
                       else (g, cur) in
      (setBlockAt g bx by_ bz BlockType.AIR, cur)
    else (g, cur)
  else st.

(** [createExplosion] at an integer position with an integer power.  The
    fifty particles take four random draws each. *)
Definition createExplosion (g : Game) (cur : nat) (x y z power : Z) : Game * nat :=
  let cur := (cur + 200)%nat in
  let g := set_explosions (explosions g ++ [mkExplosion (x, y, z) power]) g in
  let radius := power in
  fold_left (createExplosion_cell x y z power) (cube radius) (g, cur).
End Explosions.

(** ** The game renderer: player collision *)

Inductive Axis := AxisX | AxisY | AxisZ.

Record Vector3 := mkVec { vx : float; vy : float; vz : float }.

Definition component (v : Vector3) (a : Axis) : float :=
  match a with AxisX => vx v | AxisY => vy v | AxisZ => vz v end.

Definition setComponent (v : Vector3) (a : Axis) (c : float) : Vector3 :=
  match a with
  | AxisX => mkVec c (vy v) (vz v)
  | AxisY => mkVec (vx v) c (vz v)
  | AxisZ => mkVec (vx v) (vy v) c
  end.

(** The part of the renderer's state that player movement reads and writes. *)
Record Player := mkPlayer {
  playerPos : Vector3;
  playerVelocity : Vector3;
  onGround : bool;
  wasFalling : bool;
  lastGroundY : float;
  health : Z
}.

Section Collision.
Local Open Scope float_scope.

(** The integers of [for (let b = Math.floor(mn); b <= Math.floor(mx); b++)]. *)
Definition cellRange (mn mx : float) : list Z :=
  seqZ (floorZ mn) (floorZ mx - floorZ mn + 1).

(** The cells the box overlaps, in the order the three loops visit them. *)
Definition overlapped (tp : Vector3) : list (Z * Z * Z) :=
  let hw := PLAYER_WIDTH / 2 in
  let mnX := vx tp - hw in let mxX := vx tp + hw - 0.001 in
  let mnY := vy tp in let mxY := vy tp + PLAYER_HEIGHT - 0.001 in
  let mnZ := vz tp - hw in let mxZ := vz tp + hw - 0.001 in
  bx ← cellRange mnX mxX;
  by_ ← cellRange mnY mxY;
  bz ← cellRange mnZ mxZ;
  [(bx, by_, bz)].

(** [collideAxis]: the position, the velocity, the ground latch, and the
    returned flag. *)
Definition collideAxis (g : Game) (pos vel : Vector3) (ground : bool)
    (axis : Axis) (dt : float) : Vector3 * Vector3 * bool * bool :=
  let hw := PLAYER_WIDTH / 2 in
  let newVal := component pos axis + component vel axis * dt in
  let tp := setComponent pos axis newVal in
  match List.find (fun c : Z * Z * Z =>
                     let '(bx, by_, bz) := c in isBlockSolid g bx by_ bz)
                  (overlapped tp) with
  | Some (bx, by_, bz) =>
      match axis with
      | AxisY =>
          if PrimFloat.ltb (vy vel) 0
          then (setComponent pos AxisY (Z2F by_ + 1.0), setComponent vel AxisY 0, true, true)
          else (setComponent pos AxisY (Z2F by_ - PLAYER_HEIGHT),
                setComponent vel AxisY 0, ground, true)
      | AxisX =>
          (setComponent pos AxisX
             (if gt (vx vel) 0 then Z2F bx - hw else Z2F bx + 1 + hw),
           setComponent vel AxisX 0, ground, true)
      | AxisZ =>
          (setComponent pos AxisZ
             (if gt (vz vel) 0 then Z2F bz - hw else Z2F bz + 1 + hw),
           setComponent vel AxisZ 0, ground, true)
      end
  | None => (setComponent pos axis newVal, vel, ground, false)
  end.

(** The survival branch of [update(dt)], as far as the player's body goes.
    [mvx], [mvz] are the horizontal components of the move vector built from
    the input; [jumping] is the jump key. *)
Definition updatePlayer (g : Game) (p : Player) (mvx mvz : float) (jumping : bool)
    (dt : float) : Player :=
  let vel := mkVec mvx (vy (playerVelocity p)) mvz in
  let vel := setComponent vel AxisY (vy vel - GRAVITY * dt) in
  let vel := if jumping && onGround p then setComponent vel AxisY JUMP_FORCE else vel in
  let ground := false in
  let '(pos, vel, ground, _) := collideAxis g (playerPos p) vel ground AxisY dt in
  let '(pos, vel, ground, _) := collideAxis g pos vel ground AxisX dt in
  let '(pos, vel, ground, _) := collideAxis g pos vel ground AxisZ dt in
  let '(hp, lastY, falling) :=
    if ground then
      let hp :=
        if wasFalling p then
          let fall := lastGroundY p - vy pos in
          if gt fall 3 then Z.max 0 (health p - floorZ (fall - 3)) else health p
        else health p in
      (hp, vy pos, false)
    else (health p, lastGroundY p, true) in
  let pos := setComponent pos AxisY (Math_max 0 (vy pos)) in
  mkPlayer pos vel ground falling lastY hp.

(** [n] frames of [update(dt)] with no input. *)
Fixpoint fall (n : nat) (g : Game) (p : Player) (dt : float) : Player :=
  match n with
  | O => p
  | S n' => fall n' g (updatePlayer g p 0 0 false dt) dt
  end.
End Collision.

(** ** Concrete worlds *)

(** The renderer before any chunk is loaded. *)
Definition emptyGame : Game :=
  mkGame ∅ [] [] [] ∅ ∅ ∅ false [] false [] [] [] [] [] ∅ [] [] None survival
    ToolType.NONE None.

(** [this.chunks.set(chunkKey(cx, cz), chunk)] for a key not yet present. *)
Definition loadChunk (g : Game) (chunk : ChunkData) : Game :=
  let key := chunkKey (cx chunk) (cz chunk) in
  set_chunkOrder (chunkOrder g ++ [key]) (set_chunks (<[ key := chunk ]> (chunks g)) g).

(** An empty chunk (all AIR) at the given chunk coordinates. *)
Definition airChunk (cx cz : Z) : ChunkData := mkChunk ∅ cx cz.

(** A straight line along x at height 1: a REDSTONE_BLOCK at x = 0 followed
    by sixteen cells of REDSTONE_DUST at x = 1 .. 16 (the last one in the
    neighbouring chunk), everything else AIR. *)
Definition lineChunk0 : ChunkData :=
  forZ 1 16 (fun chunk x => setBlock chunk x 1 0 BlockType.REDSTONE_DUST)
    (setBlock (airChunk 0 0) 0 1 0 BlockType.REDSTONE_BLOCK).

Definition lineChunk1 : ChunkData :=
  setBlock (airChunk 1 0) 0 1 0 BlockType.REDSTONE_DUST.

Definition lineWorld : Game :=
  loadChunk (loadChunk emptyGame lineChunk0) lineChunk1.

(** The power read along the line after a refresh, at x = lo .. lo+n-1. *)
Definition linePowers (g : Game) (lo n : Z) : list Z :=
  map (fun x => getRedstonePower (redstonePower g) x 1 0) (seqZ lo n).

(** The default world: seed 12345, normal terrain. *)
Definition defaultWorldGen : WorldGen := configureWorldGeneration (mkConfig 12345 normal).

(** A run of [Math.random()] whose first number is 0 and whose later numbers
    are all 0.9. *)
Definition lowThenHigh : Oracle :=
  fun n => match n with O => 0%float | S _ => 0.9%float end.

(** A single chunk with one STONE block at the origin, everything else AIR. *)
Definition stoneFloor : Game :=
  loadChunk emptyGame (setBlock (airChunk 0 0) 0 0 0 BlockType.STONE).

(** A loaded chunk with BEDROCK at the origin, a STONE block on top of it
    under the crosshair, and a TNT block next to it. *)
Definition bedrockWorld : Game :=
  set_crosshairTarget (Some (0, 1, 0))
    (loadChunk emptyGame
       (setBlock (setBlock (setBlock (airChunk 0 0) 0 0 0 BlockType.BEDROCK)
                    0 1 0 BlockType.STONE) 1 0 0 BlockType.TNT)).

(** Chunk (0, 0) of the flat world of seed 12345: bedrock, stone, dirt, and
    a surface layer at height 30. *)
Definition flatWorld : Game :=
  loadChunk emptyGame
    (fst (generateChunk (configureWorldGeneration (mkConfig 12345 flat))
            (fun _ => 0%float) 0 0 0%nat)).

(** A player at rest in mid-air above the centre of chunk (0, 0). *)
Definition playerAt (h : float) : Player :=
  mkPlayer (mkVec 8.5 h 8.5) (mkVec 0 0 0) false false h 20.

(** A column of water: a WATER block at (1, 2, 1) over AIR, and a second
    WATER block at (5, 1, 5) standing on a STONE floor at height 0 that covers
    x, z = 4 .. 6 except below (5, 1, 6). *)
Definition pondChunk : ChunkData :=
  let c := setBlock (airChunk 0 0) 1 2 1 BlockType.WATER in
  let c := setBlock c 5 1 5 BlockType.WATER in
  forZ 4 7 (fun c x =>
    forZ 4 7 (fun c z =>
      if (x =? 5) && (z =? 6) then c else setBlock c x 0 z BlockType.STONE) c) c.

Definition pondWorld : Game := loadChunk emptyGame pondChunk.



(** ** Reading a voxel from the chunk map

    [getBlockAt] and [getBlockAtLoaded] differ only in what they answer for a
    chunk that is not loaded; both are [readVoxel] at a different default. *)
Definition readVoxel (dflt : BlockType) (cs : gmap (Z * Z) ChunkData) (x y z : Z) : BlockType :=
  if vertOut y then BlockType.AIR
  else match cs !! chunkKey (chunkCoord x) (chunkCoord z) with
       | None => dflt
       | Some chunk => getBlock chunk (wrapLocal x) y (wrapLocal z)
       end.

(** The chunk map after [chunk.blocks[...] = type] at world cell [(x, y, z)]
    of a loaded chunk. *)
Definition writeVoxel (cs : gmap (Z * Z) ChunkData) (x y z : Z) (type : BlockType)
    : gmap (Z * Z) ChunkData :=
  let key := chunkKey (chunkCoord x) (chunkCoord z) in
  match cs !! key with
  | Some chunk => <[ key := setBlock chunk (wrapLocal x) y (wrapLocal z) type ]> cs
  | None => cs
  end.

(** ** The side flow of water, stated on the state before the cell is
    processed *)

(** The four lateral neighbours of a cell, in the order the loop tries them. *)
Definition lateralCell (x y z : Z) (d : Z * Z) : Z * Z * Z := (x + fst d, y, z + snd d).

Definition lateralCells (x y z : Z) : list (Z * Z * Z) := map (lateralCell x y z) dirs4.

Definition isLoaded (g : Game) (x z : Z) : bool :=
  bool_decide (is_Some (chunks g !! chunkKey (chunkCoord x) (chunkCoord z))).

(** A lateral neighbour water may spread into: it holds AIR and has support,
    that is, the cell below it is not AIR (at the bottom layer, where there is
    no cell below, the neighbour's chunk has to be loaded). *)
Definition canSpreadInto (g : Game) (c : Z * Z * Z) : bool :=
  let '(nx, ny, nz) := c in
  (getBlockAtLoaded g nx ny nz =? BlockType.AIR)
  && (if ny >? 0 then negb (getBlockAtLoaded g nx (ny - 1) nz =? BlockType.AIR)
      else isLoaded g nx nz).

(** The chunk map with WATER written into each of the cells. *)
Definition waterCells (cs : gmap (Z * Z) ChunkData) (cells : list (Z * Z * Z))
    : gmap (Z * Z) ChunkData :=
  fold_left (fun cs (c : Z * Z * Z) =>
               let '(x, y, z) := c in writeVoxel cs x y z BlockType.WATER) cells cs.

(** The work queue with each of the cells added. *)
Definition queued (q : list (Z * Z * Z)) (cells : list (Z * Z * Z)) : list (Z * Z * Z) :=
  fold_left (fun q c => set_add c q) cells q.

(** ** Remote edits, on the chunk map *)

(** The chunk map after one remote event. *)
Definition appliedEvent (cs : gmap (Z * Z) ChunkData) (ev : BlockEvent)
    : gmap (Z * Z) ChunkData :=
  if vertOut (ev_y ev) then cs
  else writeVoxel cs (ev_x ev) (ev_y ev) (ev_z ev) (ev_type ev).

(** ** The stages of an edit *)

(** The part of [setBlockAt] that follows the write and the fall check. *)
Definition afterWrite (g : Game) (x y z : Z) (blockType : BlockType) : Game :=
  let g := queueWaterAround g x y z in
  let g := if blockType =? BlockType.WATER then queueWaterAt g x y z else g in
  onBlockChanged g x y z blockType.

(** The state after the write, the rebuild and the two [checkRS] calls of an
    edit that changes the voxel. *)
Definition afterStore (g : Game) (x y z : Z) (blockType : BlockType) : Game :=
  let '(g1, rebuildChunks, prev) := setLoadedBlockFast g x y z blockType [] in
  checkRS (checkRS (rebuildChunkSet g1 rebuildChunks) (default 0 prev)) blockType.

(** The falling-block entity [makeFallingBlock] creates. *)
Definition fallingEntity (x y z : Z) (blockType : BlockType) : FallingBlock :=
  mkFallingBlock (PrimFloat.add (Z2F x) half, PrimFloat.add (Z2F y) half,
                  PrimFloat.add (Z2F z) half)
    (0%float, 0%float, 0%float) blockType 0%float.

(** The state in which [makeFallingBlock] makes its nested edit. *)
Definition withEntity (g : Game) (x y z : Z) (t : BlockType) : Game :=
  set_fallingBlocks (fallingBlocks (afterStore g x y z t) ++ [fallingEntity x y z t])
    (afterStore g x y z t).

(** ** The flood of a collapsing tree *)

(** The work the flood of [collapseTree] still has to do. *)
Definition collapseMeasure (st : Collapse) : Z :=
  Z.of_nat (length (cl_queue st))
  + 6 * (COLLAPSE_CAP - Z.of_nat (length (cl_visited st))).

(** ** The side-flow loop *)

(** The state of the side-flow loop after the directions [done_] have been
    tried: water stands in the first two neighbours, among those tried, that
    it may spread into, and those are queued. *)
Definition spreadState (g : Game) (cells : list (Z * Z * Z)) (st : Spread) : Prop :=
  sp_game st
  = set_waterFlowActive (queued (waterFlowActive g) cells)
      (set_chunks (waterCells (chunks g) cells) g)
  ∧ sp_spreads st = Z.of_nat (length cells)
  ∧ sp_changed st = negb (bool_decide (cells = [])).

Definition spreadTargets (g : Game) (tried : list (Z * Z * Z)) : list (Z * Z * Z) :=
  take 2 (List.filter (canSpreadInto g) tried).

(** ** Collision, stated per axis *)

(** The boundary of the hit cell the body is put against, by the sign of the
    velocity along the axis. *)
Definition clampTo (vel : Vector3) (axis : Axis) (cell : Z * Z * Z) : float :=
  let '(bx, by_, bz) := cell in
  let hw := PrimFloat.div PLAYER_WIDTH 2%float in
  match axis with
  | AxisY => if PrimFloat.ltb (vy vel) 0%float
             then PrimFloat.add (Z2F by_) 1.0%float
             else PrimFloat.sub (Z2F by_) PLAYER_HEIGHT
  | AxisX => if gt (vx vel) 0%float
             then PrimFloat.sub (Z2F bx) hw
             else PrimFloat.add (PrimFloat.add (Z2F bx) 1%float) hw
  | AxisZ => if gt (vz vel) 0%float
             then PrimFloat.sub (Z2F bz) hw
             else PrimFloat.add (PrimFloat.add (Z2F bz) 1%float) hw
  end.

(** The candidate position of a sweep along [axis]. *)
Definition candidate (pos vel : Vector3) (axis : Axis) (dt : float) : Vector3 :=
  setComponent pos axis
    (PrimFloat.add (component pos axis) (PrimFloat.mul (component vel axis) dt)).

Definition solidCell (g : Game) (c : Z * Z * Z) : bool :=
  let '(bx, by_, bz) := c in isBlockSolid g bx by_ bz.

(** The velocity [update(dt)] hands to the three sweeps. *)
Definition sweepVelocity (p : Player) (mvx mvz : float) (jumping : bool) (dt : float)
    : Vector3 :=
  let vel := mkVec mvx (vy (playerVelocity p)) mvz in
  let vel := setComponent vel AxisY (PrimFloat.sub (vy vel) (PrimFloat.mul GRAVITY dt)) in
  if jumping && onGround p then setComponent vel AxisY JUMP_FORCE else vel.
(** ** Trees, as [collapseTree] sees them *)

(** Two cells that share a face. *)
Definition adjacent (c c' : Z * Z * Z) : Prop :=
  let '(x, y, z) := c in
  let '(x', y', z') := c' in
  Z.abs (x' - x) + Z.abs (y' - y) + Z.abs (z' - z) = 1.

(** [treePath g s c]: the cell [c] is reached from [s] by a chain of
    face-sharing cells that all hold a log or leaves. *)
Inductive treePath (g : Game) (s : Z * Z * Z) : Z * Z * Z → Prop :=
  | treePath_start :
      isTreeBlock (let '(x, y, z) := s in getBlockAtLoaded g x y z) = true →
      treePath g s s
  | treePath_step (c c' : Z * Z * Z) :
      treePath g s c → adjacent c c' →
      isTreeBlock (let '(x, y, z) := c' in getBlockAtLoaded g x y z) = true →
      treePath g s c'.

(** What the flood keeps true of its lists. *)
Definition collapseInv (g : Game) (s : Z * Z * Z) (st : Collapse) : Prop :=
  NoDup (cl_visited st) ∧ NoDup (cl_toRemove st) ∧
  (∀ c, c ∈ cl_toRemove st → c ∈ cl_visited st) ∧
  (length (cl_toRemove st) <= length (cl_visited st))%nat ∧
  Z.of_nat (length (cl_visited st)) <= COLLAPSE_CAP ∧
  (∀ c, c ∈ cl_toRemove st → treePath g s c) ∧
  (∀ q, q ∈ cl_queue st → q = s ∨ ∃ c, treePath g s c ∧ adjacent c q).

(** What the flood keeps true of the cells it has still to look at: the start
    cell and every neighbour of a cell to remove has been visited or waits in
    the queue; a visited cell that holds a log or leaves is among the cells to
    remove; and a visited cell is the start cell or touches the tree. *)
Definition collapseFront (g : Game) (s : Z * Z * Z) (st : Collapse) : Prop :=
  (s ∈ cl_visited st ∨ s ∈ cl_queue st) ∧
  (∀ c c', c ∈ cl_toRemove st → adjacent c c' →
     c' ∈ cl_visited st ∨ c' ∈ cl_queue st) ∧
  (∀ c, c ∈ cl_visited st →
     isTreeBlock (let '(x, y, z) := c in getBlockAtLoaded g x y z) = true →
     c ∈ cl_toRemove st) ∧
  (∀ v, v ∈ cl_visited st → v = s ∨ ∃ c, treePath g s c ∧ adjacent c v).
(** ** What a fluid tick may do to a cell *)

(** A cell either keeps its block or turns from AIR into WATER. *)
Definition fills (b b' : BlockType) : Prop :=
  b' = b ∨ (b = BlockType.AIR ∧ b' = BlockType.WATER).

(** What the loop of [updateWaterFlow] keeps true between the state [g0] it
    started in and the state [g] it has reached. *)
Definition flowInv (g0 g : Game) : Prop :=
  (∀ x y z, fills (getBlockAtLoaded g0 x y z) (getBlockAtLoaded g x y z)) ∧
  (∀ x y z, (x, y, z) ∈ waterFlowActive g → getBlockAtLoaded g x y z = BlockType.WATER) ∧
  blockEvents g = blockEvents g0 ∧ fallingBlocks g = fallingBlocks g0.
(** ** Signal levels *)

(** Every stored level of a power map is between 1 and 15. *)
Definition powerLevels (pw : gmap (Z * Z * Z) Z) : Prop :=
  ∀ k v, pw !! k = Some v → 1 <= v <= 15.
(** ** Remote edits, per cell *)

(** The event addresses the world cell [(x, y, z)]. *)
Definition addresses (x y z : Z) (ev : BlockEvent) : bool :=
  (ev_x ev =? x) && (ev_y ev =? y) && (ev_z ev =? z).
(** ** Breaking, as the player sees it *)

(** The test [finishBreakingBlock] makes before it fells a tree: a log that
    stands on GRASS or DIRT and carries a log. *)
Definition isTreeBase (g : Game) (px py pz : Z) (existing : BlockType) : bool :=
  ((existing =? BlockType.WOOD) || (existing =? BlockType.LOG_BIRCH))
  && ((getBlockAtLoaded g px (py - 1) pz =? BlockType.GRASS)
      || (getBlockAtLoaded g px (py - 1) pz =? BlockType.DIRT))
  && ((getBlockAtLoaded g px (py + 1) pz =? BlockType.WOOD)
      || (getBlockAtLoaded g px (py + 1) pz =? BlockType.LOG_BIRCH)).
(** ** The permutation table of the noise *)

(** What the shuffle keeps true of its array: 256 entries, pairwise distinct,
    each between 0 and 255. *)
Definition tableInv (p : list Z) : Prop :=
  length p = 256%nat ∧ NoDup p ∧ ∀ v, v ∈ p → 0 <= v < 256.
(** ** The floor of a chunk *)

(** The column at local [(x0, z0)] stands on BEDROCK. *)
Definition hasFloor (x0 z0 : Z) (chunk : ChunkData) : Prop :=
  getBlock chunk x0 0 z0 = BlockType.BEDROCK.
(** ** The layers of a flat world *)

(** What a column of a flat world holds at height [y], [top] being its
    surface block. *)
Definition flatLayer (top : BlockType) (y : Z) : BlockType :=
  if (y <? 0) || (30 <? y) then BlockType.AIR
  else if y =? 0 then BlockType.BEDROCK
  else if y <? 26 then BlockType.STONE
  else if y <? 30 then BlockType.DIRT
  else top.

(** The surface block of the column at world [(worldX, worldZ)] of a flat
    world: SAND where the biome noise is below -0.3, GRASS elsewhere. *)
Definition flatTop (w : WorldGen) (worldX worldZ : Z) : BlockType :=
  if PrimFloat.ltb
       (fbm (biomeNoise w) (PrimFloat.mul (Z2F worldX) 0.003%float)
          (PrimFloat.mul (Z2F worldZ) 0.003%float) 3 2%float 0.5%float)
       (-0.3)%float
  then BlockType.SAND else BlockType.GRASS.
(** ** The game renderer: creative mode tools *)

(** The cells of [for x = min..max, for y = min..max, for z = min..max] over
    the box spanned by two corners, in loop order. *)
Definition boxCells (x1 y1 z1 x2 y2 z2 : Z) : list (Z * Z * Z) :=
  x ← seqZ (Z.min x1 x2) (Z.max x1 x2 - Z.min x1 x2 + 1);
  y ← seqZ (Z.min y1 y2) (Z.max y1 y2 - Z.min y1 y2 + 1);
  z ← seqZ (Z.min z1 z2) (Z.max z1 z2 - Z.min z1 z2 + 1);
  [(x, y, z)].

Definition fillRegion (g : Game) (x1 y1 z1 x2 y2 z2 : Z) (blockType : BlockType) : Game :=
  fold_left (fun g (c : Z * Z * Z) => let '(x, y, z) := c in setBlockAt g x y z blockType)
    (boxCells x1 y1 z1 x2 y2 z2) g.

(** [cloneRegion] first collects the blocks of the source box that are not
    AIR, each with its destination, and then writes them. *)
Definition cloneRegion (g : Game) (x1 y1 z1 x2 y2 z2 destX destY destZ : Z) : Game :=
  let blocks :=
    fold_left (fun (blocks : list BlockEvent) (c : Z * Z * Z) =>
      let '(x, y, z) := c in
      let blockType := getBlockAt g x y z in
      if negb (blockType =? BlockType.AIR)
      then blocks ++ [mkBlockEvent (destX + (x - x1)) (destY + (y - y1)) (destZ + (z - z1))
                        blockType]
      else blocks) (boxCells x1 y1 z1 x2 y2 z2) [] in
  fold_left (fun g b => setBlockAt g (ev_x b) (ev_y b) (ev_z b) (ev_type b)) blocks g.

(** What a cell that held [old] holds after [setBlockAt] wrote [t] to it. *)
Definition edited (old t : BlockType) : BlockType :=
  if old =? t then old
  else if shouldBlockFall t then BlockType.AIR
  else t mod 256.

(** The cell an entry of an edit list addresses. *)
Definition target (b : BlockEvent) : Z * Z * Z := (ev_x b, ev_y b, ev_z b).

(** The cell is inside the box spanned by the two corners. *)
Definition inBox (x1 y1 z1 x2 y2 z2 : Z) (c : Z * Z * Z) : Prop :=
  let '(x, y, z) := c in
  Z.min x1 x2 <= x <= Z.max x1 x2 ∧ Z.min y1 y2 <= y <= Z.max y1 y2
  ∧ Z.min z1 z2 <= z <= Z.max z1 z2.
(** ** A straight line of dust *)

(** The sources the first step of a signal refresh finds, in scan order: the
    loaded REDSTONE_BLOCK and REDSTONE_TORCH cells and the active levers and
    buttons, each at level 15. *)
Definition foundSources (g : Game) : list QItem :=
  fst (scanChunks (chunkOrder g) (scanSource g (redstoneActive g)) ([], ∅)).

(** The neighbour of the cell [c] in direction [d]. *)
Definition shift (c d : Z * Z * Z) : Z * Z * Z :=
  let '(x, y, z) := c in let '(dx, dy, dz) := d in (x + dx, y + dy, z + dz).

(** The [i]-th cell of the line that starts at [s] and runs in direction [d];
    cell 0 is [s] itself. *)
Definition lineCell (s d : Z * Z * Z) (i : Z) : Z * Z * Z :=
  let '(x, y, z) := s in let '(dx, dy, dz) := d in (x + i * dx, y + i * dy, z + i * dz).

Definition blockAt (g : Game) (c : Z * Z * Z) : BlockType :=
  let '(x, y, z) := c in getBlockAtLoaded g x y z.

Definition powerAt (pw : gmap (Z * Z * Z) Z) (c : Z * Z * Z) : Z :=
  let '(x, y, z) := c in getRedstonePower pw x y z.

(** The blocks the relaxation hands power to. *)
Definition conducts (b : BlockType) : bool :=
  (b =? BlockType.REDSTONE_DUST) || (b =? BlockType.REDSTONE_REPEATER).

(** [straightLine g s d n]: a source at [s] feeds a straight line of [n] dust
    cells.  The refresh finds one source, the one at [s]; [d] is one of the
    six directions; the cells 1 .. n of the line from [s] in direction [d]
    hold REDSTONE_DUST; and a neighbour of one of the cells 0 .. n that is
    not itself one of them holds neither dust nor a repeater. *)
Definition straightLine (g : Game) (s d : Z * Z * Z) (n : Z) : bool :=
  (0 <=? n)
  && bool_decide (d ∈ dirs6)
  && bool_decide (foundSources g = [(s, 15)])
  && forallb (fun i => blockAt g (lineCell s d i) =? BlockType.REDSTONE_DUST) (seqZ 1 n)
  && forallb (fun i =>
       forallb (fun d' =>
         let c := shift (lineCell s d i) d' in
         bool_decide (c ∈ map (lineCell s d) (seqZ 0 (n + 1)))
         || negb (conducts (blockAt g c))) dirs6) (seqZ 0 (n + 1)).

(** The relaxation has walked the line up to its cell [k]: that cell is the
    one entry of the queue, the cells 0 .. k hold 15, 14, ..., 15 - k, and no
    other cell holds power. *)
Definition walked (s d : Z * Z * Z) (k : Z) (st : Bfs) : Prop :=
  queue st = [(lineCell s d k, 15 - k)] ∧ iter st = k ∧
  (∀ i, 0 <= i <= k → powerAt (power st) (lineCell s d i) = 15 - i) ∧
  (∀ c, (∀ i, 0 <= i <= k → c ≠ lineCell s d i) → powerAt (power st) c = 0).
(** ** The fluid tick, entry by entry *)



(** * Properties *)

(** ** Addressing *)

Lemma wrapLocal_mod (n : Z) : wrapLocal n = n mod 16.
Proof. unfold wrapLocal, js_mod, CHUNK_SIZE. lia. Qed.

Lemma wrapLocal_range (n : Z) : 0 <= wrapLocal n < CHUNK_SIZE.
Proof. rewrite wrapLocal_mod. unfold CHUNK_SIZE. lia. Qed.

Lemma chunk_split (n : Z) : n = CHUNK_SIZE * chunkCoord n + wrapLocal n.
Proof. rewrite wrapLocal_mod. unfold chunkCoord, CHUNK_SIZE. lia. Qed.

Lemma vertOut_false (y : Z) : vertOut y = false ↔ 0 <= y < CHUNK_HEIGHT.
Proof. unfold vertOut, CHUNK_HEIGHT. lia. Qed.

Lemma vertOut_true (y : Z) : vertOut y = true ↔ y < 0 ∨ y >= CHUNK_HEIGHT.
Proof. unfold vertOut, CHUNK_HEIGHT. lia. Qed.

Lemma outOfChunk_false (x y z : Z) :
  outOfChunk x y z = false ↔
  0 <= x < CHUNK_SIZE ∧ 0 <= y < CHUNK_HEIGHT ∧ 0 <= z < CHUNK_SIZE.
Proof. unfold outOfChunk, CHUNK_SIZE, CHUNK_HEIGHT. lia. Qed.

Lemma outOfChunk_wrap (x y z : Z) :
  vertOut y = false → outOfChunk (wrapLocal x) y (wrapLocal z) = false.
Proof.
  intros Hy. apply outOfChunk_false. apply vertOut_false in Hy.
  pose proof (wrapLocal_range x). pose proof (wrapLocal_range z). lia.
Qed.

Lemma getIndex_range (x y z : Z) :
  outOfChunk x y z = false → 0 <= getIndex x y z < BLOCKS_LENGTH.
Proof.
  intros H%outOfChunk_false.
  unfold getIndex, BLOCKS_LENGTH, CHUNK_SIZE, CHUNK_HEIGHT in *. lia.
Qed.

Lemma getIndex_inj (x y z x' y' z' : Z) :
  outOfChunk x y z = false → outOfChunk x' y' z' = false →
  getIndex x y z = getIndex x' y' z' → x = x' ∧ y = y' ∧ z = z'.
Proof.
  intros H%outOfChunk_false H'%outOfChunk_false.
  unfold getIndex, CHUNK_SIZE, CHUNK_HEIGHT in *. lia.
Qed.

(** A world coordinate is its chunk coordinate and its wrapped local one. *)
Lemma chunk_local_inj (n m : Z) :
  chunkCoord n = chunkCoord m → wrapLocal n = wrapLocal m → n = m.
Proof.
  intros Hc Hl. rewrite (chunk_split n), (chunk_split m). congruence.
Qed.

(** C9. For all integers x, z and every y with 0 <= y < 80, the wrapped local
    coordinates [((x % 16) + 16) % 16] and [((z % 16) + 16) % 16] pass the
    bounds test of [getBlock]/[setBlock] and give an array index
    [lx + lz*16 + y*256] inside [0, 16*16*80). *)
Theorem wrapped_index_in_bounds (x y z : Z) :
  0 <= y < 80 →
  let lx := js_mod (js_mod x 16 + 16) 16 in
  let lz := js_mod (js_mod z 16 + 16) 16 in
  lx = wrapLocal x ∧ lz = wrapLocal z ∧
  0 <= lx < 16 ∧ 0 <= lz < 16 ∧
  outOfChunk lx y lz = false ∧
  getIndex lx y lz = lx + lz * 16 + y * 256 ∧
  0 <= getIndex lx y lz < 16 * 16 * 80.
Proof.
  intros Hy lx lz.
  assert (Hx : lx = wrapLocal x) by reflexivity.
  assert (Hz : lz = wrapLocal z) by reflexivity.
  pose proof (wrapLocal_range x) as Rx. pose proof (wrapLocal_range z) as Rz.
  rewrite <- Hx in Rx. rewrite <- Hz in Rz. unfold CHUNK_SIZE in Rx, Rz.
  assert (Hout : outOfChunk lx y lz = false).
  { apply outOfChunk_false. unfold CHUNK_SIZE, CHUNK_HEIGHT. lia. }
  repeat split; try assumption; try lia.
  - unfold getIndex, CHUNK_SIZE. lia.
  - pose proof (getIndex_range _ _ _ Hout). lia.
  - pose proof (getIndex_range _ _ _ Hout) as H.
    unfold BLOCKS_LENGTH, CHUNK_SIZE, CHUNK_HEIGHT in H. lia.
Qed.

Lemma wrapped_index_in_bounds_witness :
  0 <= 79 < 80 ∧
  getIndex (js_mod (js_mod (-17) 16 + 16) 16) 79 (js_mod (js_mod 33 16 + 16) 16)
  = 15 + 1 * 16 + 79 * 256.
Proof.
  split; [lia |].
  pose proof (wrapped_index_in_bounds (-17) 79 33 ltac:(lia)) as H.
  cbv zeta in H. destruct H as (_ & _ & _ & _ & _ & H & _).
  rewrite H. reflexivity.
Defined.

(** ** Voxel reads and writes *)

Lemma getBlockAt_read (g : Game) (x y z : Z) :
  getBlockAt g x y z = readVoxel BlockType.STONE (chunks g) x y z.
Proof. reflexivity. Qed.

Lemma getBlockAtLoaded_read (g : Game) (x y z : Z) :
  getBlockAtLoaded g x y z = readVoxel BlockType.AIR (chunks g) x y z.
Proof. reflexivity. Qed.

Lemma getBlock_setBlock_same (chunk : ChunkData) (x y z : Z) (t : BlockType) :
  outOfChunk x y z = false →
  getBlock (setBlock chunk x y z t) x y z = t mod 256.
Proof.
  intros H. unfold getBlock, setBlock. rewrite H. simpl.
  unfold u8_get, u8_set. by rewrite lookup_insert_eq.
Qed.

Lemma getBlock_setBlock_other (chunk : ChunkData) (x y z x' y' z' : Z) (t : BlockType) :
  (x', y', z') ≠ (x, y, z) →
  getBlock (setBlock chunk x y z t) x' y' z' = getBlock chunk x' y' z'.
Proof.
  intros Hne. unfold getBlock, setBlock.
  destruct (outOfChunk x' y' z') eqn:H'; [reflexivity |].
  destruct (outOfChunk x y z) eqn:H; [reflexivity |]. simpl.
  unfold u8_get, u8_set. rewrite lookup_insert_ne; [reflexivity |].
  intros Heq. destruct (getIndex_inj _ _ _ _ _ _ H H' Heq) as (-> & -> & ->).
  by apply Hne.
Qed.

(** What a voxel reads after a write to a loaded, vertically valid cell. *)
Lemma readVoxel_writeVoxel (d : BlockType) (cs : gmap (Z * Z) ChunkData)
    (x y z : Z) (t : BlockType) (x' y' z' : Z) :
  vertOut y = false →
  is_Some (cs !! chunkKey (chunkCoord x) (chunkCoord z)) →
  readVoxel d (writeVoxel cs x y z t) x' y' z' =
  if decide ((x', y', z') = (x, y, z)) then t mod 256 else readVoxel d cs x' y' z'.
Proof.
  intros Hy [chunk Hc]. unfold writeVoxel, readVoxel. rewrite Hc.
  destruct (decide ((x', y', z') = (x, y, z))) as [Heq | Hne].
  - injection Heq as -> -> ->. rewrite Hy, lookup_insert_eq.
    apply getBlock_setBlock_same. by apply outOfChunk_wrap.
  - destruct (vertOut y') eqn:Hy'; [reflexivity |].
    destruct (decide (chunkKey (chunkCoord x) (chunkCoord z)
                      = chunkKey (chunkCoord x') (chunkCoord z'))) as [Hk | Hk].
    + rewrite <- Hk, lookup_insert_eq, Hc.
      apply getBlock_setBlock_other. intros Heq. apply Hne.
      injection Heq as Hx -> Hz. injection Hk as Hcx Hcz.
      f_equal; [f_equal |]; by apply chunk_local_inj.
    + by rewrite lookup_insert_ne.
Qed.

Lemma readVoxel_writeVoxel_unloaded (d : BlockType) (cs : gmap (Z * Z) ChunkData)
    (x y z : Z) (t : BlockType) :
  cs !! chunkKey (chunkCoord x) (chunkCoord z) = None → writeVoxel cs x y z t = cs.
Proof. intros H. unfold writeVoxel. by rewrite H. Qed.

(** A write outside the vertical range leaves every chunk as it was. *)
Lemma setBlock_vertOut (chunk : ChunkData) (x y z : Z) (t : BlockType) :
  vertOut y = true → setBlock chunk x y z t = chunk.
Proof.
  intros H. unfold setBlock, outOfChunk. unfold vertOut in H.
  destruct (x <? 0), (x >=? CHUNK_SIZE); simpl; try reflexivity.
  by rewrite H.
Qed.

(** C3. For every integer world coordinate, [getBlockAt] answers with a block
    id: AIR outside the vertical range, STONE in range when the owning chunk
    is not loaded, and otherwise the byte stored at the wrapped index, which
    lies inside the chunk's array; the answer is a byte whenever the arrays
    hold bytes. *)
Theorem getBlockAt_never_fails (g : Game) (x y z : Z) :
  (y < 0 ∨ y >= 80 → getBlockAt g x y z = BlockType.AIR) ∧
  (0 <= y < 80 → chunks g !! chunkKey (chunkCoord x) (chunkCoord z) = None →
     getBlockAt g x y z = BlockType.STONE) ∧
  (∀ chunk, 0 <= y < 80 →
     chunks g !! chunkKey (chunkCoord x) (chunkCoord z) = Some chunk →
     getBlockAt g x y z = u8_get (blocks chunk) (getIndex (wrapLocal x) y (wrapLocal z)) ∧
     0 <= getIndex (wrapLocal x) y (wrapLocal z) < BLOCKS_LENGTH) ∧
  ((∀ k chunk, chunks g !! k = Some chunk → u8_valid (blocks chunk)) →
     0 <= getBlockAt g x y z < 256).
Proof.
  assert (Hout : 0 <= y < 80 → vertOut y = false)
    by (intros; apply vertOut_false; unfold CHUNK_HEIGHT; lia).
  repeat split.
  - intros Hy. unfold getBlockAt.
    replace (vertOut y) with true; [reflexivity |].
    symmetry. apply vertOut_true. unfold CHUNK_HEIGHT. lia.
  - intros Hy Hc. unfold getBlockAt. by rewrite (Hout Hy), Hc.
  - unfold getBlockAt. rewrite (Hout H), H0. unfold getBlock.
    by rewrite outOfChunk_wrap by auto.
  - apply getIndex_range, outOfChunk_wrap; auto.
  - apply getIndex_range, outOfChunk_wrap; auto.
  - unfold getBlockAt. destruct (vertOut y); [done |].
    destruct (chunks g !! _) as [chunk |] eqn:Hc; [| done].
    unfold getBlock. destruct (outOfChunk _ _ _); [done |].
    unfold u8_get. destruct (blocks chunk !! _) as [v |] eqn:Hv; simpl; [| lia].
    specialize (H _ _ Hc _ _ Hv). lia.
  - unfold getBlockAt. destruct (vertOut y); [done |].
    destruct (chunks g !! _) as [chunk |] eqn:Hc; [| done].
    unfold getBlock. destruct (outOfChunk _ _ _); [done |].
    unfold u8_get. destruct (blocks chunk !! _) as [v |] eqn:Hv; simpl; [| lia].
    specialize (H _ _ Hc _ _ Hv). lia.
Qed.

(** ** What the bookkeeping helpers leave alone *)

Lemma chunks_queueWaterAt (g : Game) (x y z : Z) :
  chunks (queueWaterAt g x y z) = chunks g.
Proof.
  unfold queueWaterAt. destruct (vertOut y); [done |].
  by destruct (negb _).
Qed.

Lemma chunks_queueWaterAround (g : Game) (x y z : Z) :
  chunks (queueWaterAround g x y z) = chunks g.
Proof. unfold queueWaterAround. by rewrite !chunks_queueWaterAt. Qed.

Lemma chunks_checkRS (g : Game) (b : BlockType) : chunks (checkRS g b) = chunks g.
Proof. unfold checkRS. by destruct (includes _ b). Qed.

Lemma chunks_buildChunkMesh (g : Game) (key : Z * Z) :
  chunks (buildChunkMesh g key) = chunks g.
Proof. reflexivity. Qed.

Lemma chunks_rebuildChunkSet (g : Game) (keys : list (Z * Z)) :
  chunks (rebuildChunkSet g keys) = chunks g.
Proof.
  unfold rebuildChunkSet. revert g.
  induction keys as [| k keys IH]; intros g; simpl; [done |].
  rewrite IH. by destruct (chunks g !! k).
Qed.

Lemma chunks_rebuildEdge (g : Game) (lx lz cx cz : Z) :
  chunks (rebuildEdge g lx lz cx cz) = chunks g.
Proof.
  unfold rebuildEdge.
  repeat match goal with
         | |- context [if ?b then _ else _] => destruct b
         | |- context [match chunks ?h !! ?k with _ => _ end] =>
             destruct (chunks h !! k) eqn:?
         end; reflexivity.
Qed.

Lemma chunks_onBlockChanged (g : Game) (x y z : Z) (t : BlockType) :
  chunks (onBlockChanged g x y z t) = chunks g.
Proof. reflexivity. Qed.

Lemma fallingBlocks_queueWaterAt (g : Game) (x y z : Z) :
  fallingBlocks (queueWaterAt g x y z) = fallingBlocks g.
Proof.
  unfold queueWaterAt. destruct (vertOut y); [done |].
  by destruct (negb _).
Qed.

Lemma fallingBlocks_queueWaterAround (g : Game) (x y z : Z) :
  fallingBlocks (queueWaterAround g x y z) = fallingBlocks g.
Proof. unfold queueWaterAround. by rewrite !fallingBlocks_queueWaterAt. Qed.

Lemma fallingBlocks_checkRS (g : Game) (b : BlockType) :
  fallingBlocks (checkRS g b) = fallingBlocks g.
Proof. unfold checkRS. by destruct (includes _ b). Qed.

Lemma fallingBlocks_rebuildChunkSet (g : Game) (keys : list (Z * Z)) :
  fallingBlocks (rebuildChunkSet g keys) = fallingBlocks g.
Proof.
  unfold rebuildChunkSet. revert g.
  induction keys as [| k keys IH]; intros g; simpl; [done |].
  rewrite IH. by destruct (chunks g !! k).
Qed.

(** Reads depend on the chunk map only. *)
Lemma getBlockAt_chunks (g g' : Game) (x y z : Z) :
  chunks g' = chunks g → getBlockAt g' x y z = getBlockAt g x y z.
Proof. intros H. by rewrite !getBlockAt_read, H. Qed.

Lemma getBlockAtLoaded_chunks (g g' : Game) (x y z : Z) :
  chunks g' = chunks g → getBlockAtLoaded g' x y z = getBlockAtLoaded g x y z.
Proof. intros H. by rewrite !getBlockAtLoaded_read, H. Qed.

(** [setLoadedBlockFast], in terms of the chunk map. *)
Lemma setLoadedBlockFast_spec (g : Game) (x y z : Z) (t : BlockType) (rb : list (Z * Z)) :
  let '(g', rb', prev) := setLoadedBlockFast g x y z t rb in
  (prev = None ∧ g' = g ∧ rb' = rb ∧
     (vertOut y = true ∨ chunks g !! chunkKey (chunkCoord x) (chunkCoord z) = None))
  ∨ (vertOut y = false ∧ is_Some (chunks g !! chunkKey (chunkCoord x) (chunkCoord z))
     ∧ prev = Some (getBlockAtLoaded g x y z)
     ∧ ((getBlockAtLoaded g x y z = t ∧ g' = g ∧ rb' = rb)
        ∨ (getBlockAtLoaded g x y z ≠ t
           ∧ g' = set_chunks (writeVoxel (chunks g) x y z t) g))).
Proof.
  unfold setLoadedBlockFast.
  destruct (vertOut y) eqn:Hy; [left; auto |].
  destruct (chunks g !! chunkKey (chunkCoord x) (chunkCoord z)) as [chunk |] eqn:Hc;
    [| left; auto].
  assert (Hread : getBlockAtLoaded g x y z = getBlock chunk (wrapLocal x) y (wrapLocal z)).
  { unfold getBlockAtLoaded. by rewrite Hy, Hc. }
  destruct (Z.eqb_spec (getBlock chunk (wrapLocal x) y (wrapLocal z)) t) as [He | Hne].
  - right. rewrite Hread. repeat split; eauto.
  - right. rewrite Hread. repeat split; eauto. right. split; [done |].
    unfold storeChunk, writeVoxel. by rewrite Hc.
Qed.

(** ** Remote edits *)

Lemma setBlock_setBlock (chunk : ChunkData) (x y z : Z) (t : BlockType) :
  setBlock (setBlock chunk x y z t) x y z t = setBlock chunk x y z t.
Proof.
  unfold setBlock. destruct (outOfChunk x y z) eqn:H; rewrite ?H; [done |].
  simpl. unfold u8_set. by rewrite insert_insert_eq.
Qed.

Lemma writeVoxel_idem (cs : gmap (Z * Z) ChunkData) (x y z : Z) (t : BlockType) :
  writeVoxel (writeVoxel cs x y z t) x y z t = writeVoxel cs x y z t.
Proof.
  unfold writeVoxel.
  destruct (cs !! chunkKey (chunkCoord x) (chunkCoord z)) as [chunk |] eqn:Hc.
  - by rewrite lookup_insert_eq, insert_insert_eq, setBlock_setBlock.
  - by rewrite Hc.
Qed.

Lemma appliedEvent_idem (cs : gmap (Z * Z) ChunkData) (ev : BlockEvent) :
  appliedEvent (appliedEvent cs ev) ev = appliedEvent cs ev.
Proof.
  unfold appliedEvent. destruct (vertOut (ev_y ev)); [done |]. apply writeVoxel_idem.
Qed.

Lemma chunks_applyMultiplayerBlockEvent (g : Game) (rb : list (Z * Z)) (ev : BlockEvent) :
  chunks (fst (applyMultiplayerBlockEvent (g, rb) ev)) = appliedEvent (chunks g) ev.
Proof.
  unfold applyMultiplayerBlockEvent, appliedEvent, writeVoxel.
  destruct (chunks g !! chunkKey (chunkCoord (ev_x ev)) (chunkCoord (ev_z ev)))
    as [chunk |] eqn:Hc.
  - destruct (vertOut (ev_y ev)); [done |]. simpl.
    destruct (ev_type ev =? BlockType.WATER);
      by rewrite ?chunks_queueWaterAt, chunks_queueWaterAround, !chunks_checkRS.
  - simpl. by destruct (vertOut (ev_y ev)).
Qed.

Lemma chunks_fold_applyMultiplayerBlockEvent (events : list BlockEvent)
    (st : Game * list (Z * Z)) :
  chunks (fst (fold_left applyMultiplayerBlockEvent events st))
  = fold_left appliedEvent events (chunks (fst st)).
Proof.
  revert st. induction events as [| ev events IH]; intros [g rb]; [done |].
  cbn [fold_left]. rewrite IH. f_equal. apply chunks_applyMultiplayerBlockEvent.
Qed.

Lemma chunks_applyMultiplayerBlockEvents (g : Game) (events : list BlockEvent) :
  chunks (applyMultiplayerBlockEvents g events) = fold_left appliedEvent events (chunks g).
Proof.
  unfold applyMultiplayerBlockEvents.
  pose proof (chunks_fold_applyMultiplayerBlockEvent events (g, [])) as H.
  destruct (fold_left applyMultiplayerBlockEvent events (g, [])) as [g1 rb1].
  rewrite chunks_rebuildChunkSet. exact H.
Qed.

(** C7. Applying the same remote block-edit event a second time, as a batch
    of its own or twice in one batch, leaves the chunk map, and so every voxel
    of every loaded chunk, exactly as the first application left it. *)
Theorem applyMultiplayerBlockEvents_idempotent (g : Game) (ev : BlockEvent) :
  let once := applyMultiplayerBlockEvents g [ev] in
  let twice := applyMultiplayerBlockEvents once [ev] in
  chunks twice = chunks once ∧
  (∀ x y z, getBlockAt twice x y z = getBlockAt once x y z) ∧
  chunks (applyMultiplayerBlockEvents g [ev; ev]) = chunks once.
Proof.
  intros once twice.
  assert (H : chunks twice = chunks once).
  { unfold twice, once. rewrite !chunks_applyMultiplayerBlockEvents. simpl.
    apply appliedEvent_idem. }
  split; [exact H |]. split.
  - intros x y z. by apply getBlockAt_chunks.
  - unfold once. rewrite !chunks_applyMultiplayerBlockEvents. simpl.
    apply appliedEvent_idem.
Qed.

(** ** The signal network *)

Lemma bfsBody_iter (g : Game) (st : Bfs) :
  bfsGuard st = true → iter (bfsBody g st) = iter st + 1.
Proof.
  unfold bfsGuard, bfsBody. destruct (queue st) as [| [[[x y] z] p] rest]; [done |].
  intros _. destruct (_ <=? 1); [done |].
  by destruct (fold_left _ _ _).
Qed.

Lemma bfsGuard_cap (st : Bfs) : BFS_CAP <= iter st → bfsGuard st = false.
Proof.
  unfold bfsGuard. destruct (queue st); [done |]. intros H.
  apply Z.ltb_ge. exact H.
Qed.

Lemma iter_shift {A : Type} (f : A → A) (k : nat) (x : A) :
  Nat.iter k f (f x) = Nat.iter (S k) f x.
Proof. induction k as [| k IH]; [done |]. simpl in *. by rewrite IH. Qed.

(** The loop run on [n] units of fuel is the body iterated [k <= n] times,
    the guard holding before each of them. *)
Lemma bfsLoop_iterates (n : nat) (g : Game) (st : Bfs) :
  ∃ k : nat, (k <= n)%nat ∧
    bfsLoop n g st = Nat.iter k (bfsBody g) st ∧
    iter (bfsLoop n g st) = iter st + Z.of_nat k ∧
    (∀ j, (j < k)%nat → bfsGuard (Nat.iter j (bfsBody g) st) = true) ∧
    ((k < n)%nat → bfsGuard (bfsLoop n g st) = false).
Proof.
  revert st. induction n as [| n IH]; intros st.
  - exists 0%nat. simpl. repeat split; try lia.
  - simpl. destruct (bfsGuard st) eqn:Hg.
    + destruct (IH (bfsBody g st)) as (k & Hk & Heq & Hit & Hbefore & Hexit).
      exists (S k). repeat split.
      * lia.
      * by rewrite Heq, iter_shift.
      * rewrite Hit, bfsBody_iter by done. lia.
      * intros [| j] Hj; [done |]. rewrite <- iter_shift. apply Hbefore. lia.
      * intros Hlt. apply Hexit. lia.
    + exists 0%nat. simpl. repeat split; try lia. done.
Qed.

(** C8. The relaxation loop of a signal refresh, started as [updateRedstone]
    starts it (iteration counter 0), leaves the loop after at most 5000
    executions of its body, whatever the chunks and the queue hold: the run
    of [updateRedstone] is the body iterated [k <= 5000] times, the loop guard
    true before each and false after the last. *)
Theorem updateRedstone_loop_bounded (g : Game) (st : Bfs) :
  iter st = 0 →
  ∃ k : nat, Z.of_nat k <= 5000 ∧
    bfsLoop (Z.to_nat BFS_CAP) g st = Nat.iter k (bfsBody g) st ∧
    (∀ j, (j < k)%nat → bfsGuard (Nat.iter j (bfsBody g) st) = true) ∧
    bfsGuard (Nat.iter k (bfsBody g) st) = false ∧
    iter (Nat.iter k (bfsBody g) st) = Z.of_nat k.
Proof.
  intros H0.
  destruct (bfsLoop_iterates (Z.to_nat BFS_CAP) g st)
    as (k & Hk & Heq & Hit & Hbefore & Hexit).
  assert (Hcap : Z.of_nat (Z.to_nat BFS_CAP) = 5000) by (unfold BFS_CAP; lia).
  exists k. rewrite <- Heq.
  split; [lia |]. split; [reflexivity |]. split; [exact Hbefore |]. split.
  - destruct (Nat.lt_ge_cases k (Z.to_nat BFS_CAP)) as [Hlt | Hge].
    + apply Hexit. exact Hlt.
    + apply bfsGuard_cap. rewrite Hit, H0. unfold BFS_CAP in *. lia.
  - rewrite Hit, H0. lia.
Qed.

Lemma updateRedstone_loop_bounded_witness :
  ∃ k : nat, Z.of_nat k <= 5000 ∧
    bfsLoop (Z.to_nat BFS_CAP) lineWorld (mkBfs [(0, 1, 0, 15)] 0 {[ (0, 1, 0) := 15 ]})
    = Nat.iter k (bfsBody lineWorld) (mkBfs [(0, 1, 0, 15)] 0 {[ (0, 1, 0) := 15 ]}) ∧
    (∀ j, (j < k)%nat →
       bfsGuard (Nat.iter j (bfsBody lineWorld)
                   (mkBfs [(0, 1, 0, 15)] 0 {[ (0, 1, 0) := 15 ]})) = true) ∧
    bfsGuard (Nat.iter k (bfsBody lineWorld)
                (mkBfs [(0, 1, 0, 15)] 0 {[ (0, 1, 0) := 15 ]})) = false ∧
    iter (Nat.iter k (bfsBody lineWorld)
            (mkBfs [(0, 1, 0, 15)] 0 {[ (0, 1, 0) := 15 ]})) = Z.of_nat k.
Proof.
  apply (updateRedstone_loop_bounded lineWorld
           (mkBfs [(0, 1, 0, 15)] 0 {[ (0, 1, 0) := 15 ]})).
  reflexivity.
Defined.

(** The refresh itself runs its loop from counter 0. *)
Lemma updateRedstone_starts_at_zero (sources : list QItem) (pw : gmap (Z * Z * Z) Z) :
  iter (mkBfs sources 0 pw) = 0.
Proof. reflexivity. Qed.

Lemma getRedstonePower_set (pw : gmap (Z * Z * Z) Z) (x y z p x' y' z' : Z) :
  getRedstonePower (setRSPower pw x y z p) x' y' z' =
  if decide ((x', y', z') = (x, y, z)) then Z.max p 0
  else getRedstonePower pw x' y' z'.
Proof.
  unfold getRedstonePower, setRSPower.
  destruct (decide ((x', y', z') = (x, y, z))) as [-> | Hne].
  - destruct (Z.gtb_spec p 0).
    + rewrite lookup_insert_eq. simpl. lia.
    + rewrite lookup_delete_eq. simpl. lia.
  - destruct (p >? 0).
    + by rewrite lookup_insert_ne.
    + by rewrite lookup_delete_ne.
Qed.

(** One hop into a dust cell: the cell takes the power of the current cell
    less one when that is strictly more than what it holds, and keeps what it
    holds otherwise; no other cell changes. *)
Lemma relax_dust (g : Game) (x y z cp : Z) (q : list QItem)
    (pw : gmap (Z * Z * Z) Z) (dx dy dz : Z) :
  getBlockAtLoaded g (x + dx) (y + dy) (z + dz) = BlockType.REDSTONE_DUST →
  0 <= getRedstonePower pw (x + dx) (y + dy) (z + dz) →
  let old := getRedstonePower pw (x + dx) (y + dy) (z + dz) in
  let '(q', pw') := relax g (x, y, z) cp (q, pw) (dx, dy, dz) in
  getRedstonePower pw' (x + dx) (y + dy) (z + dz) = Z.max old (cp - 1) ∧
  (q' = if cp - 1 >? old then q ++ [(x + dx, y + dy, z + dz, cp - 1)] else q) ∧
  (∀ x' y' z', (x', y', z') ≠ (x + dx, y + dy, z + dz) →
     getRedstonePower pw' x' y' z' = getRedstonePower pw x' y' z').
Proof.
  intros Hd Hold old. unfold relax. rewrite Hd. simpl.
  fold old. destruct (Z.gtb_spec (cp - 1) old) as [Hgt | Hle]; simpl.
  - repeat split.
    + rewrite getRedstonePower_set, decide_True by done. lia.
    + intros x' y' z' Hne. by rewrite getRedstonePower_set, decide_False.
  - repeat split. lia.
Qed.

(** The readings of the line in terms of single cells. *)
Lemma linePowers_hd (g : Game) (lo n : Z) :
  0 < n → hd 0 (linePowers g lo n) = getRedstonePower (redstonePower g) lo 1 0.
Proof.
  intros Hn. unfold linePowers.
  replace n with (Z.succ (n - 1)) by lia.
  rewrite seqZ_cons by lia. reflexivity.
Qed.

(** C4, as stated, fails: after a refresh of the line, the fifteen dust cells
    fed by the level-15 source read [14, 13, ..., 1, 0], not
    [15, 14, ..., 1, 0]; the cell next to the source reads 14. *)
Lemma dust_cells_do_not_start_at_15 :
  linePowers (updateRedstone lineWorld) 1 15
    = [14; 13; 12; 11; 10; 9; 8; 7; 6; 5; 4; 3; 2; 1; 0] ∧
  linePowers (updateRedstone lineWorld) 1 15
    ≠ [15; 14; 13; 12; 11; 10; 9; 8; 7; 6; 5; 4; 3; 2; 1; 0] ∧
  getRedstonePower (redstonePower (updateRedstone lineWorld)) 1 1 0 ≠ 15.
Proof.
  assert (H : linePowers (updateRedstone lineWorld) 1 15
              = [14; 13; 12; 11; 10; 9; 8; 7; 6; 5; 4; 3; 2; 1; 0])
    by (vm_compute; reflexivity).
  split; [exact H |]. split.
  - rewrite H. discriminate.
  - rewrite <- (linePowers_hd _ 1 15) by lia. rewrite H. discriminate.
Qed.

(** ** The edit protocol *)

Lemma shouldBlockFall_AIR : shouldBlockFall BlockType.AIR = false.
Proof. reflexivity. Qed.

Lemma shouldBlockFall_cases (t : BlockType) :
  shouldBlockFall t = true ↔
  t = BlockType.SAND ∨ t = BlockType.GRAVEL ∨ t = BlockType.ANVIL.
Proof.
  unfold shouldBlockFall, includes. simpl.
  unfold BlockType.SAND, BlockType.GRAVEL, BlockType.ANVIL. lia.
Qed.

Lemma chunks_afterWrite (g : Game) (x y z : Z) (t : BlockType) :
  chunks (afterWrite g x y z t) = chunks g.
Proof.
  unfold afterWrite. rewrite chunks_onBlockChanged.
  destruct (t =? BlockType.WATER); by rewrite ?chunks_queueWaterAt, chunks_queueWaterAround.
Qed.

Lemma fallingBlocks_afterWrite (g : Game) (x y z : Z) (t : BlockType) :
  fallingBlocks (afterWrite g x y z t) = fallingBlocks g.
Proof.
  unfold afterWrite.
  change (fallingBlocks (onBlockChanged ?h _ _ _ _)) with (fallingBlocks h).
  destruct (t =? BlockType.WATER);
    by rewrite ?fallingBlocks_queueWaterAt, fallingBlocks_queueWaterAround.
Qed.

(** An edit that finds the chunk unloaded, the height out of range, or the
    block already there returns at once. *)
Lemma setBlockAt_rec_unchanged (n : nat) (g : Game) (x y z : Z) (t : BlockType) :
  vertOut y = true ∨ chunks g !! chunkKey (chunkCoord x) (chunkCoord z) = None
  ∨ getBlockAtLoaded g x y z = t →
  setBlockAt_rec n g x y z t = g.
Proof.
  intros H. destruct n as [| n]; [done |]. cbn [setBlockAt_rec].
  pose proof (setLoadedBlockFast_spec g x y z t []) as S.
  destruct (setLoadedBlockFast g x y z t []) as [[g1 rb1] prev].
  destruct S as [(-> & -> & _) | (Hy & Hc & -> & S)]; [done |].
  destruct S as [(He & -> & _) | (Hne & _)].
  - by rewrite He, Z.eqb_refl.
  - destruct H as [H | [H | H]]; [congruence | | done].
    rewrite H in Hc. by destruct Hc.
Qed.

Lemma afterStore_spec (g : Game) (x y z : Z) (t : BlockType) :
  vertOut y = false → is_Some (chunks g !! chunkKey (chunkCoord x) (chunkCoord z)) →
  getBlockAtLoaded g x y z ≠ t →
  chunks (afterStore g x y z t) = writeVoxel (chunks g) x y z t ∧
  fallingBlocks (afterStore g x y z t) = fallingBlocks g.
Proof.
  intros Hy Hc Hne. unfold afterStore.
  pose proof (setLoadedBlockFast_spec g x y z t []) as S.
  destruct (setLoadedBlockFast g x y z t []) as [[g1 rb1] prev].
  rewrite !chunks_checkRS, chunks_rebuildChunkSet,
    !fallingBlocks_checkRS, fallingBlocks_rebuildChunkSet.
  destruct S as [(_ & _ & _ & [H | H]) | (_ & _ & _ & S)].
  - congruence.
  - rewrite H in Hc. by destruct Hc.
  - destruct S as [(He & _) | (_ & ->)]; done.
Qed.

(** One level of [setBlockAt] for an edit that changes the voxel. *)
Lemma setBlockAt_rec_step (n : nat) (g : Game) (x y z : Z) (t : BlockType) :
  vertOut y = false → is_Some (chunks g !! chunkKey (chunkCoord x) (chunkCoord z)) →
  getBlockAtLoaded g x y z ≠ t →
  setBlockAt_rec (S n) g x y z t =
  afterWrite
    (if shouldBlockFall t then
       setBlockAt_rec n
         (set_fallingBlocks
            (fallingBlocks (afterStore g x y z t) ++ [fallingEntity x y z t])
            (afterStore g x y z t))
         x y z BlockType.AIR
     else afterStore g x y z t) x y z t.
Proof.
  intros Hy Hc Hne. cbn [setBlockAt_rec]. unfold afterStore.
  pose proof (setLoadedBlockFast_spec g x y z t []) as S.
  destruct (setLoadedBlockFast g x y z t []) as [[g1 rb1] prev].
  destruct S as [(_ & _ & _ & [H | H]) | (_ & _ & -> & S)].
  - congruence.
  - rewrite H in Hc. by destruct Hc.
  - destruct S as [(He & _) | (_ & ->)]; [done |].
    destruct (Z.eqb_spec (getBlockAtLoaded g x y z) t) as [| _]; [done |].
    reflexivity.
Qed.

(** An edit that changes the voxel, for a block that does not fall. *)
Lemma setBlockAt_rec_plain (n : nat) (g : Game) (x y z : Z) (t : BlockType) :
  vertOut y = false → is_Some (chunks g !! chunkKey (chunkCoord x) (chunkCoord z)) →
  getBlockAtLoaded g x y z ≠ t → shouldBlockFall t = false →
  setBlockAt_rec (S n) g x y z t = afterWrite (afterStore g x y z t) x y z t.
Proof.
  intros Hy Hc Hne Hfall. rewrite setBlockAt_rec_step by done. by rewrite Hfall.
Qed.

Lemma withEntity_spec (g : Game) (x y z : Z) (t : BlockType) :
  vertOut y = false → is_Some (chunks g !! chunkKey (chunkCoord x) (chunkCoord z)) →
  getBlockAtLoaded g x y z ≠ t → shouldBlockFall t = true →
  chunks (withEntity g x y z t) = writeVoxel (chunks g) x y z t ∧
  fallingBlocks (withEntity g x y z t) = fallingBlocks g ++ [fallingEntity x y z t] ∧
  vertOut y = false ∧
  is_Some (chunks (withEntity g x y z t) !! chunkKey (chunkCoord x) (chunkCoord z)) ∧
  getBlockAtLoaded (withEntity g x y z t) x y z = t ∧ t ≠ BlockType.AIR.
Proof.
  intros Hy Hc Hne Hfall.
  destruct (afterStore_spec g x y z t Hy Hc Hne) as [H1 H2].
  assert (Hg1 : chunks (withEntity g x y z t) = writeVoxel (chunks g) x y z t)
    by exact H1.
  assert (Ht : t mod 256 = t ∧ t ≠ BlockType.AIR).
  { apply shouldBlockFall_cases in Hfall as [-> | [-> | ->]]; done. }
  repeat split.
  - exact Hg1.
  - unfold withEntity. simpl. by rewrite H2.
  - exact Hy.
  - rewrite Hg1. unfold writeVoxel. destruct Hc as [c Hc]. rewrite Hc.
    rewrite lookup_insert_eq. eauto.
  - rewrite getBlockAtLoaded_read, Hg1, readVoxel_writeVoxel, decide_True by done.
    apply Ht.
  - apply Ht.
Qed.

(** An edit that changes the voxel, for a block that falls: the entity is
    created and the nested edit puts AIR back. *)
Lemma setBlockAt_rec_falling (n : nat) (g : Game) (x y z : Z) (t : BlockType) :
  vertOut y = false → is_Some (chunks g !! chunkKey (chunkCoord x) (chunkCoord z)) →
  getBlockAtLoaded g x y z ≠ t → shouldBlockFall t = true →
  setBlockAt_rec (S (S n)) g x y z t
  = afterWrite
      (afterWrite (afterStore (withEntity g x y z t) x y z BlockType.AIR)
         x y z BlockType.AIR) x y z t.
Proof.
  intros Hy Hc Hne Hfall. rewrite setBlockAt_rec_step by done. rewrite Hfall.
  destruct (withEntity_spec g x y z t Hy Hc Hne Hfall) as (_ & _ & _ & Hc1 & Hr & Hair).
  fold (withEntity g x y z t).
  rewrite setBlockAt_rec_plain; [reflexivity | done | done | | done].
  by rewrite Hr.
Qed.

(** Two levels of nesting are all [setBlockAt] uses: deeper bounds give the
    same result, so the bound cuts no call short. *)
Lemma setBlockAt_total (n : nat) (g : Game) (x y z : Z) (t : BlockType) :
  setBlockAt_rec (S (S n)) g x y z t = setBlockAt g x y z t.
Proof.
  unfold setBlockAt.
  destruct (vertOut y) eqn:Hy;
    [by rewrite !setBlockAt_rec_unchanged by auto |].
  destruct (chunks g !! chunkKey (chunkCoord x) (chunkCoord z)) as [c |] eqn:Hc;
    [| by rewrite !setBlockAt_rec_unchanged by auto].
  destruct (decide (getBlockAtLoaded g x y z = t)) as [He | Hne];
    [by rewrite !setBlockAt_rec_unchanged by auto |].
  assert (Hc' : is_Some (chunks g !! chunkKey (chunkCoord x) (chunkCoord z)))
    by (rewrite Hc; eauto).
  destruct (shouldBlockFall t) eqn:Hfall.
  - by rewrite (setBlockAt_rec_falling n), (setBlockAt_rec_falling 0).
  - by rewrite (setBlockAt_rec_plain (S n)), (setBlockAt_rec_plain 1).
Qed.

(** What an edit does to the voxels and to the falling-block entities. *)
Lemma setBlockAt_effect (g : Game) (x y z : Z) (t : BlockType) :
  vertOut y = false → is_Some (chunks g !! chunkKey (chunkCoord x) (chunkCoord z)) →
  getBlockAtLoaded g x y z ≠ t →
  if shouldBlockFall t then
    chunks (setBlockAt g x y z t)
      = writeVoxel (writeVoxel (chunks g) x y z t) x y z BlockType.AIR ∧
    fallingBlocks (setBlockAt g x y z t) = fallingBlocks g ++ [fallingEntity x y z t]
  else
    chunks (setBlockAt g x y z t) = writeVoxel (chunks g) x y z t ∧
    fallingBlocks (setBlockAt g x y z t) = fallingBlocks g.
Proof.
  intros Hy Hc Hne. unfold setBlockAt.
  destruct (shouldBlockFall t) eqn:Hfall.
  - rewrite setBlockAt_rec_falling by done.
    destruct (withEntity_spec g x y z t Hy Hc Hne Hfall) as (H1 & H2 & _ & Hc1 & Hr & Hair).
    destruct (afterStore_spec (withEntity g x y z t) x y z BlockType.AIR Hy Hc1) as [H3 H4];
      [by rewrite Hr |].
    by rewrite !chunks_afterWrite, !fallingBlocks_afterWrite, H3, H4, H1, H2.
  - rewrite setBlockAt_rec_plain by done.
    destruct (afterStore_spec g x y z t Hy Hc Hne) as [H1 H2].
    by rewrite chunks_afterWrite, fallingBlocks_afterWrite.
Qed.

(** An edit leaves every other voxel as it was. *)
Lemma setBlockAt_other (d : BlockType) (g : Game) (x y z : Z) (t : BlockType) (x' y' z' : Z) :
  (x', y', z') ≠ (x, y, z) →
  readVoxel d (chunks (setBlockAt g x y z t)) x' y' z' = readVoxel d (chunks g) x' y' z'.
Proof.
  intros Hne.
  destruct (vertOut y) eqn:Hy;
    [by unfold setBlockAt; rewrite setBlockAt_rec_unchanged by auto |].
  destruct (chunks g !! chunkKey (chunkCoord x) (chunkCoord z)) as [c |] eqn:Hc;
    [| by unfold setBlockAt; rewrite setBlockAt_rec_unchanged by auto].
  destruct (decide (getBlockAtLoaded g x y z = t)) as [He | Hne'];
    [by unfold setBlockAt; rewrite setBlockAt_rec_unchanged by auto |].
  assert (Hc' : is_Some (chunks g !! chunkKey (chunkCoord x) (chunkCoord z)))
    by (rewrite Hc; eauto).
  pose proof (setBlockAt_effect g x y z t Hy Hc' Hne') as E.
  destruct (shouldBlockFall t); destruct E as [-> _].
  - rewrite !readVoxel_writeVoxel, !decide_False; try done.
    unfold writeVoxel. rewrite Hc, lookup_insert_eq. eauto.
  - by rewrite readVoxel_writeVoxel, decide_False.
Qed.

(** ** Bedrock *)

Lemma writeVoxel_vertOut (cs : gmap (Z * Z) ChunkData) (x y z : Z) (t : BlockType) :
  vertOut y = true → writeVoxel cs x y z t = cs.
Proof.
  intros Hy. unfold writeVoxel.
  destruct (cs !! chunkKey (chunkCoord x) (chunkCoord z)) as [c |] eqn:Hc; [| done].
  rewrite setBlock_vertOut by done. by apply insert_id.
Qed.

(** A write changes no voxel but the one written. *)
Lemma readVoxel_writeVoxel_other (d : BlockType) (cs : gmap (Z * Z) ChunkData)
    (x y z : Z) (t : BlockType) (x' y' z' : Z) :
  (x', y', z') ≠ (x, y, z) →
  readVoxel d (writeVoxel cs x y z t) x' y' z' = readVoxel d cs x' y' z'.
Proof.
  intros Hne.
  destruct (vertOut y) eqn:Hy; [by rewrite writeVoxel_vertOut |].
  destruct (cs !! chunkKey (chunkCoord x) (chunkCoord z)) as [c |] eqn:Hc.
  - rewrite readVoxel_writeVoxel, decide_False; eauto.
  - unfold writeVoxel. by rewrite Hc.
Qed.

(** A cell that reads BEDROCK through [getBlockAt] lies in a loaded chunk. *)
Lemma bedrock_loaded (cs : gmap (Z * Z) ChunkData) (x y z : Z) :
  readVoxel BlockType.STONE cs x y z = BlockType.BEDROCK →
  readVoxel BlockType.AIR cs x y z = BlockType.BEDROCK.
Proof.
  unfold readVoxel. destruct (vertOut y); [done |].
  by destruct (cs !! chunkKey (chunkCoord x) (chunkCoord z)).
Qed.

Lemma read_defaults_agree (cs : gmap (Z * Z) ChunkData) (x y z : Z) (b : BlockType) :
  readVoxel BlockType.AIR cs x y z = b → b ≠ BlockType.AIR →
  readVoxel BlockType.STONE cs x y z = b.
Proof.
  unfold readVoxel. destruct (vertOut y); [done |].
  destruct (cs !! chunkKey (chunkCoord x) (chunkCoord z)); [done |].
  intros <-. done.
Qed.

(** A write of a cell that does not read BEDROCK keeps every BEDROCK cell. *)
Lemma bedrock_kept_by_write (cs : gmap (Z * Z) ChunkData) (bx by_ bz : Z)
    (t : BlockType) (x y z : Z) :
  readVoxel BlockType.STONE cs x y z = BlockType.BEDROCK →
  readVoxel BlockType.STONE cs bx by_ bz ≠ BlockType.BEDROCK →
  readVoxel BlockType.STONE (writeVoxel cs bx by_ bz t) x y z = BlockType.BEDROCK.
Proof.
  intros Hb Hne. rewrite readVoxel_writeVoxel_other; [done |].
  intros Heq. injection Heq as -> -> ->. done.
Qed.

(** *** TNT *)

Lemma explodeTNT_cell_keeps_bedrock (tx ty tz r : Z) (st : Game * list (Z * Z))
    (d : Z * Z * Z) (x y z : Z) :
  getBlockAt (fst st) x y z = BlockType.BEDROCK →
  getBlockAt (fst (explodeTNT_cell tx ty tz r st d)) x y z = BlockType.BEDROCK.
Proof.
  destruct st as [g rb], d as [[dx dy] dz]. simpl. intros Hb.
  unfold explodeTNT_cell.
  destruct (_ >? _); [done |].
  destruct (getBlockAtLoaded g (tx + dx) (ty + dy) (tz + dz) =? BlockType.AIR) eqn:Ha;
    [done |].
  destruct (getBlockAtLoaded g (tx + dx) (ty + dy) (tz + dz) =? BlockType.BEDROCK) eqn:Hk;
    [done |]. simpl.
  destruct (chunks g !! chunkKey (chunkCoord (tx + dx)) (chunkCoord (tz + dz)))
    as [c |] eqn:Hc; [| done]. simpl.
  rewrite getBlockAt_read, chunks_queueWaterAround.
  change (chunks (storeChunk g _ _)) with
    (<[ chunkKey (chunkCoord (tx + dx)) (chunkCoord (tz + dz))
        := setBlock c (wrapLocal (tx + dx)) (ty + dy) (wrapLocal (tz + dz)) BlockType.AIR ]>
       (chunks g)).
  replace (<[ _ := _ ]> (chunks g))
    with (writeVoxel (chunks g) (tx + dx) (ty + dy) (tz + dz) BlockType.AIR)
    by (unfold writeVoxel; by rewrite Hc).
  apply bedrock_kept_by_write; [done |].
  intros Hs. apply bedrock_loaded in Hs. rewrite <- getBlockAtLoaded_read in Hs.
  rewrite Hs in Hk. done.
Qed.

Lemma explodeTNT_keeps_bedrock (g : Game) (tx ty tz x y z : Z) :
  getBlockAt g x y z = BlockType.BEDROCK →
  getBlockAt (explodeTNT g tx ty tz) x y z = BlockType.BEDROCK.
Proof.
  intros Hb. unfold explodeTNT.
  assert (H : ∀ cells st, getBlockAt (fst st) x y z = BlockType.BEDROCK →
            getBlockAt (fst (fold_left (explodeTNT_cell tx ty tz 4) cells st)) x y z
            = BlockType.BEDROCK).
  { induction cells as [| d cells IH]; intros st Hst; [done |].
    cbn [fold_left]. apply IH. by apply explodeTNT_cell_keeps_bedrock. }
  specialize (H (cube 4) (g, []) Hb).
  destruct (fold_left _ _ _) as [g1 rb1].
  rewrite getBlockAt_read, chunks_rebuildChunkSet. exact H.
Qed.

(** *** The physics engine's explosion *)

Lemma setBlockAt_keeps_bedrock (g : Game) (bx by_ bz : Z) (t : BlockType) (x y z : Z) :
  getBlockAt g x y z = BlockType.BEDROCK →
  getBlockAt g bx by_ bz ≠ BlockType.BEDROCK →
  getBlockAt (setBlockAt g bx by_ bz t) x y z = BlockType.BEDROCK.
Proof.
  intros Hb Hne. rewrite getBlockAt_read, setBlockAt_other; [done |].
  intros Heq. injection Heq as -> -> ->. done.
Qed.

Lemma createExplosion_cell_keeps_bedrock (rnd : Oracle) (ex ey ez power : Z)
    (st : Game * nat) (d : Z * Z * Z) (x y z : Z) :
  getBlockAt (fst st) x y z = BlockType.BEDROCK →
  getBlockAt (fst (createExplosion_cell rnd ex ey ez power st d)) x y z = BlockType.BEDROCK.
Proof.
  destruct st as [g cur], d as [[dx dy] dz]. simpl. intros Hb.
  unfold createExplosion_cell.
  destruct (_ <=? _); [| done].
  destruct (getBlockAt g (ex + dx) (ey + dy) (ez + dz) =? BlockType.AIR) eqn:Ha; [done |].
  destruct (Z.eqb_spec (getBlockAt g (ex + dx) (ey + dy) (ez + dz)) BlockType.BEDROCK)
    as [| Hk]; [done |].
  simpl. destruct (PrimFloat.ltb _ _); simpl; by apply setBlockAt_keeps_bedrock.
Qed.

Lemma createExplosion_keeps_bedrock (rnd : Oracle) (g : Game) (cur : nat)
    (ex ey ez power x y z : Z) :
  getBlockAt g x y z = BlockType.BEDROCK →
  getBlockAt (fst (createExplosion rnd g cur ex ey ez power)) x y z = BlockType.BEDROCK.
Proof.
  intros Hb. unfold createExplosion.
  generalize (cube power) as cells.
  assert (H : ∀ cells st, getBlockAt (fst st) x y z = BlockType.BEDROCK →
            getBlockAt (fst (fold_left (createExplosion_cell rnd ex ey ez power) cells st))
              x y z = BlockType.BEDROCK).
  { induction cells as [| d cells IH]; intros st Hst; [done |].
    cbn [fold_left]. apply IH. by apply createExplosion_cell_keeps_bedrock. }
  intros cells. by apply H.
Qed.

(** *** Breaking a block *)

Lemma collapseBody_measure (g : Game) (st : Collapse) :
  collapseGuard st = true →
  collapseMeasure (collapseBody g st) < collapseMeasure st.
Proof.
  unfold collapseGuard, collapseBody, collapseMeasure.
  destruct (cl_queue st) as [| [[x y] z] rest]; [done |].
  intros Hv%Z.ltb_lt.
  destruct (decide _) as [Hin | Hnin]; simpl; [lia |].
  destruct (isTreeBlock _); simpl; rewrite ?length_app; simpl; lia.
Qed.

Lemma collapseLoop_exits_gen (n : nat) (g : Game) (st : Collapse) :
  0 <= COLLAPSE_CAP - Z.of_nat (length (cl_visited st)) →
  collapseMeasure st <= Z.of_nat n →
  collapseGuard (collapseLoop n g st) = false.
Proof.
  revert st. induction n as [| n IH]; intros st Hv Hm; simpl.
  - unfold collapseGuard, collapseMeasure in *.
    destruct (cl_queue st); [done |]. simpl in Hm. lia.
  - destruct (collapseGuard st) eqn:Hg; [| done].
    pose proof (collapseBody_measure g st Hg) as Hlt.
    apply IH; [| lia].
    unfold collapseGuard, collapseBody in *.
    destruct (cl_queue st) as [| [[x y] z] rest]; [done |].
    apply Z.ltb_lt in Hg.
    destruct (decide _); simpl; [lia |].
    destruct (isTreeBlock _); simpl; rewrite length_app; simpl; lia.
Qed.

(** The flood of [collapseTree] has left its loop when the fuel of the model
    is used up: the fuel cuts no run short. *)
Lemma collapseLoop_exits (g : Game) (wx wy wz : Z) :
  collapseGuard (collapseLoop COLLAPSE_FUEL g (mkCollapse [(wx, wy, wz)] [] [])) = false.
Proof.
  apply collapseLoop_exits_gen; unfold collapseMeasure, COLLAPSE_FUEL, COLLAPSE_CAP; simpl; lia.
Qed.

(** Only tree blocks enter the removal list. *)
Lemma collapseLoop_toRemove (n : nat) (g : Game) (st : Collapse) :
  Forall (fun p : Z * Z * Z => let '(x, y, z) := p in
            isTreeBlock (getBlockAtLoaded g x y z) = true) (cl_toRemove st) →
  Forall (fun p : Z * Z * Z => let '(x, y, z) := p in
            isTreeBlock (getBlockAtLoaded g x y z) = true)
    (cl_toRemove (collapseLoop n g st)).
Proof.
  revert st. induction n as [| n IH]; intros st H; simpl; [done |].
  destruct (collapseGuard st); [| done]. apply IH.
  unfold collapseBody. destruct (cl_queue st) as [| [[x y] z] rest]; [done |].
  destruct (decide _); [done |].
  destruct (isTreeBlock (getBlockAtLoaded g x y z)) eqn:Ht; [| done].
  simpl. apply Forall_app. split; [done |]. by constructor.
Qed.

Lemma removeCell_chunks (st : Game * list (Z * Z)) (p : Z * Z * Z) :
  chunks (fst (removeCell st p))
  = let '(x, y, z) := p in writeVoxel (chunks (fst st)) x y z BlockType.AIR.
Proof.
  destruct st as [g rb], p as [[x y] z]. unfold removeCell, writeVoxel. simpl.
  by destruct (chunks g !! chunkKey (chunkCoord x) (chunkCoord z)).
Qed.

Lemma collapseTree_keeps_bedrock (g : Game) (wx wy wz x y z : Z) :
  getBlockAt g x y z = BlockType.BEDROCK →
  getBlockAt (collapseTree g wx wy wz) x y z = BlockType.BEDROCK.
Proof.
  intros Hb. unfold collapseTree.
  pose proof (collapseLoop_toRemove COLLAPSE_FUEL g (mkCollapse [(wx, wy, wz)] [] [])
                (List.Forall_nil _)) as Hrm.
  set (cells := cl_toRemove _) in *. clearbody cells.
  assert (H : ∀ st, getBlockAt (fst st) x y z = BlockType.BEDROCK →
            getBlockAt (fst (fold_left removeCell cells st)) x y z = BlockType.BEDROCK).
  { induction cells as [| p cells IH]; intros st Hst; [done |].
    cbn [fold_left]. apply Forall_cons in Hrm as [Hp Hrm]. apply IH; [done |].
    rewrite getBlockAt_read, removeCell_chunks. destruct p as [[px py] pz].
    rewrite readVoxel_writeVoxel_other; [done |].
    intros Heq. injection Heq as -> -> ->.
    rewrite getBlockAt_read in Hb. apply bedrock_loaded in Hb.
    rewrite <- getBlockAtLoaded_read in Hb. by rewrite Hb in Hp. }
  specialize (H (g, []) Hb). destruct (fold_left removeCell cells (g, [])) as [g1 rb1].
  rewrite getBlockAt_read, chunks_rebuildChunkSet. exact H.
Qed.

Lemma finishBreakingBlock_keeps_bedrock (g : Game) (px py pz : Z) (existing : BlockType)
    (x y z : Z) :
  getBlockAt g x y z = BlockType.BEDROCK →
  getBlockAt g px py pz ≠ BlockType.BEDROCK →
  getBlockAt
    (finishBreakingBlock g px py pz (chunkKey (chunkCoord px) (chunkCoord pz))
       (wrapLocal px) (wrapLocal pz) existing) x y z = BlockType.BEDROCK.
Proof.
  intros Hb Hne. unfold finishBreakingBlock.
  set (g1 := if negb (existing =? BlockType.AIR) then _ else g).
  assert (H1 : chunks g1 = chunks g) by (unfold g1; by destruct (negb _)).
  set (g2 := match chunks g1 !! _ with Some _ => _ | None => g1 end).
  assert (H2 : chunks g2 = writeVoxel (chunks g) px py pz BlockType.AIR).
  { unfold g2, writeVoxel. rewrite H1.
    destruct (chunks g !! chunkKey (chunkCoord px) (chunkCoord pz)); simpl; by rewrite ?H1. }
  set (g3 := onBlockChanged _ _ _ _ _).
  assert (H3 : getBlockAt g3 x y z = BlockType.BEDROCK).
  { rewrite getBlockAt_read. unfold g3.
    rewrite chunks_onBlockChanged, chunks_checkRS, chunks_rebuildEdge,
      chunks_buildChunkMesh, H2.
    by apply bedrock_kept_by_write. }
  rewrite getBlockAt_read. unfold clearBreakState.
  change (chunks (set_activeBreak None ?h)) with (chunks h).
  rewrite <- getBlockAt_read.
  destruct (_ && _ && _); [by apply collapseTree_keeps_bedrock | done].
Qed.

Lemma breakBlock_keeps_bedrock (hardness : BlockType → float) (g : Game) (x y z : Z) :
  getBlockAt g x y z = BlockType.BEDROCK →
  getBlockAt (breakBlock hardness g) x y z = BlockType.BEDROCK.
Proof.
  intros Hb. unfold breakBlock.
  destruct (crosshairTarget g) as [[[px py] pz] |]; [| done].
  destruct (chunks g !! chunkKey (chunkCoord px) (chunkCoord pz)) as [c |] eqn:Hc; [| done].
  destruct (Z.eqb_spec (getBlock c (wrapLocal px) py (wrapLocal pz)) BlockType.AIR)
    as [| Ha]; [done |].
  destruct (Z.eqb_spec (getBlock c (wrapLocal px) py (wrapLocal pz)) BlockType.BEDROCK)
    as [| Hk]; [done |].
  assert (Hne : getBlockAt g px py pz ≠ BlockType.BEDROCK).
  { unfold getBlockAt. destruct (vertOut py); [done |]. by rewrite Hc. }
  destruct (gameMode g).
  - by apply finishBreakingBlock_keeps_bedrock.
  - set (g1 := if negb _ then _ else g).
    assert (H1 : chunks g1 = chunks g) by (unfold g1; by destruct (negb _)).
    destruct (activeBreak g1) as [ab |];
      [| by rewrite (getBlockAt_chunks g g1)].
    destruct (PrimFloat.ltb _ _).
    + rewrite getBlockAt_read. simpl. by rewrite H1, <- getBlockAt_read.
    + apply finishBreakingBlock_keeps_bedrock.
      * rewrite getBlockAt_read. simpl. by rewrite H1, <- getBlockAt_read.
      * rewrite getBlockAt_read. simpl. by rewrite H1, <- getBlockAt_read.
Qed.

(** [breakBlock] aimed at BEDROCK returns without touching anything. *)
Lemma breakBlock_bedrock_target (hardness : BlockType → float) (g : Game) (x y z : Z) :
  crosshairTarget g = Some (x, y, z) →
  getBlockAt g x y z = BlockType.BEDROCK →
  breakBlock hardness g = g.
Proof.
  intros Ht Hb. unfold breakBlock. rewrite Ht.
  unfold getBlockAt in Hb. destruct (vertOut y); [done |].
  destruct (chunks g !! chunkKey (chunkCoord x) (chunkCoord z)) as [c |]; [| done].
  by rewrite Hb.
Qed.

(** C10. No destruction operation removes BEDROCK: a cell that holds BEDROCK
    still holds it after [breakBlock] (which returns with the state untouched
    when BEDROCK is its target), after [explodeTNT] anywhere, and after the
    physics engine's [createExplosion] anywhere with any power. *)
Theorem bedrock_is_never_destroyed (hardness : BlockType → float) (rnd : Oracle)
    (g : Game) (x y z : Z) :
  getBlockAt g x y z = BlockType.BEDROCK →
  getBlockAt (breakBlock hardness g) x y z = BlockType.BEDROCK ∧
  (crosshairTarget g = Some (x, y, z) → breakBlock hardness g = g) ∧
  (∀ tx ty tz, getBlockAt (explodeTNT g tx ty tz) x y z = BlockType.BEDROCK) ∧
  (∀ cur ex ey ez power,
     getBlockAt (fst (createExplosion rnd g cur ex ey ez power)) x y z = BlockType.BEDROCK).
Proof.
  intros Hb. split; [| split; [| split]].
  - by apply breakBlock_keeps_bedrock.
  - intros Ht. by apply (breakBlock_bedrock_target hardness g x y z).
  - intros tx ty tz. by apply explodeTNT_keeps_bedrock.
  - intros cur ex ey ez power. by apply createExplosion_keeps_bedrock.
Qed.

(** ** Water *)

Lemma writeVoxel_loaded (cs : gmap (Z * Z) ChunkData) (x y z : Z) (t : BlockType)
    (k : Z * Z) :
  is_Some (writeVoxel cs x y z t !! k) ↔ is_Some (cs !! k).
Proof.
  unfold writeVoxel.
  destruct (cs !! chunkKey (chunkCoord x) (chunkCoord z)) as [c |] eqn:Hc; [| done].
  destruct (decide (chunkKey (chunkCoord x) (chunkCoord z) = k)) as [<- | Hne].
  - rewrite lookup_insert_eq, Hc. split; eauto.
  - by rewrite lookup_insert_ne.
Qed.

Lemma waterCells_loaded (cs : gmap (Z * Z) ChunkData) (cells : list (Z * Z * Z))
    (k : Z * Z) :
  is_Some (waterCells cs cells !! k) ↔ is_Some (cs !! k).
Proof.
  revert cs. induction cells as [| [[x y] z] cells IH]; intros cs; [done |].
  unfold waterCells in *. cbn [fold_left]. rewrite IH. apply writeVoxel_loaded.
Qed.

Lemma waterCells_app (cs : gmap (Z * Z) ChunkData) (l1 l2 : list (Z * Z * Z)) :
  waterCells cs (l1 ++ l2) = waterCells (waterCells cs l1) l2.
Proof. unfold waterCells. apply fold_left_app. Qed.

Lemma queued_app (q : list (Z * Z * Z)) (l1 l2 : list (Z * Z * Z)) :
  queued q (l1 ++ l2) = queued (queued q l1) l2.
Proof. unfold queued. apply fold_left_app. Qed.

Lemma set_add_elem {A : Type} `{EqDecision A} (x y : A) (s : list A) :
  y ∈ set_add x s ↔ y = x ∨ y ∈ s.
Proof.
  unfold set_add. destruct (decide (x ∈ s)) as [Hin | Hnin].
  - split; [auto |]. intros [-> | H]; done.
  - rewrite elem_of_app, list_elem_of_singleton. tauto.
Qed.

Lemma queued_elem (q cells : list (Z * Z * Z)) (c : Z * Z * Z) :
  c ∈ queued q cells ↔ c ∈ cells ∨ c ∈ q.
Proof.
  revert q. induction cells as [| a cells IH]; intros q.
  - simpl. rewrite elem_of_nil. tauto.
  - unfold queued in *. cbn [fold_left]. rewrite IH, set_add_elem, elem_of_cons. tauto.
Qed.

(** Every cell of the list being loaded and vertically valid, the map with
    WATER written into them reads WATER there and is unchanged elsewhere. *)
Lemma readVoxel_waterCells (d : BlockType) (cs : gmap (Z * Z) ChunkData)
    (cells : list (Z * Z * Z)) (x y z : Z) :
  Forall (fun c : Z * Z * Z => let '(cx, cy, cz) := c in
            vertOut cy = false ∧ is_Some (cs !! chunkKey (chunkCoord cx) (chunkCoord cz)))
    cells →
  readVoxel d (waterCells cs cells) x y z =
  if decide ((x, y, z) ∈ cells) then BlockType.WATER else readVoxel d cs x y z.
Proof.
  revert cs. induction cells as [| [[ax ay] az] cells IH]; intros cs Hall.
  - unfold waterCells. cbn [fold_left].
    destruct (decide ((x, y, z) ∈ [])) as [Hin | _]; [| done].
    by apply elem_of_nil in Hin.
  - apply Forall_cons in Hall as [[Hy Hc] Hall].
    unfold waterCells in *. cbn [fold_left]. rewrite IH.
    + rewrite readVoxel_writeVoxel by done.
      destruct (decide ((x, y, z) ∈ cells)) as [Hin | Hnin].
      * rewrite decide_True; [done |]. by right.
      * destruct (decide ((x, y, z) = (ax, ay, az))) as [-> | Hne].
        -- rewrite decide_True; [done |]. by left.
        -- rewrite decide_False; [done |]. rewrite elem_of_cons. tauto.
    + eapply Forall_impl; [exact Hall |]. intros [[bx by_] bz] [? ?].
      split; [done |]. by apply writeVoxel_loaded.
Qed.

(** A neighbour water may spread into lies in a loaded chunk. *)
Lemma canSpreadInto_loaded (g : Game) (x y z : Z) :
  canSpreadInto g (x, y, z) = true →
  is_Some (chunks g !! chunkKey (chunkCoord x) (chunkCoord z)).
Proof.
  unfold canSpreadInto. intros [_ H]%andb_true_iff.
  destruct (y >? 0) eqn:Hy.
  - apply negb_true_iff, Z.eqb_neq in H. unfold getBlockAtLoaded in H.
    destruct (vertOut (y - 1)); [done |].
    destruct (chunks g !! chunkKey (chunkCoord x) (chunkCoord z)); [eauto | done].
  - unfold isLoaded in H. by apply bool_decide_eq_true in H.
Qed.

Lemma filter_sub {A : Type} (f : A → bool) (l : list A) (a : A) :
  a ∈ List.filter f l → a ∈ l ∧ f a = true.
Proof. rewrite !list_elem_of_In. apply filter_In. Qed.

Lemma lateral_same_height (x y z : Z) (ds : list (Z * Z)) (c : Z * Z * Z) :
  c ∈ map (lateralCell x y z) ds → snd (fst c) = y.
Proof.
  rewrite list_elem_of_In, in_map_iff. intros (d & <- & _). reflexivity.
Qed.

Lemma spreadStep_spec (g : Game) (x y z : Z) (done_ : list (Z * Z)) (d : Z * Z)
    (st : Spread) :
  vertOut y = false →
  lateralCell x y z d ∉ map (lateralCell x y z) done_ →
  spreadState g (spreadTargets g (map (lateralCell x y z) done_)) st →
  spreadState g (spreadTargets g (map (lateralCell x y z) (done_ ++ [d])))
    (spreadStep x y z st d).
Proof.
  intros Hy Hfresh (Hg & Hn & Hch).
  unfold spreadTargets in *. rewrite map_app, List.filter_app. cbn [map].
  set (L := List.filter (canSpreadInto g) (map (lateralCell x y z) done_)) in *.
  set (c := lateralCell x y z d) in *.
  unfold spreadStep.
  destruct (Z.geb_spec (sp_spreads st) 2) as [Hge | Hlt].
  { (* two spreads made: the loop breaks *)
    rewrite Hn, length_take in Hge.
    rewrite take_app_le by lia. by repeat split. }
  rewrite Hn, length_take in Hlt.
  assert (HL : take 2 L = L) by (apply take_ge; lia).
  rewrite HL in *.
  assert (HLsub : ∀ a, a ∈ L → a ∈ map (lateralCell x y z) done_ ∧ canSpreadInto g a = true)
    by (intros a; apply filter_sub).
  assert (HcL : c ∉ L) by (intros H; by apply HLsub in H as [H _]).
  assert (Hall : Forall (fun c : Z * Z * Z => let '(cx, cy, cz) := c in
                   vertOut cy = false
                   ∧ is_Some (chunks g !! chunkKey (chunkCoord cx) (chunkCoord cz))) L).
  { apply Forall_forall. intros [[ax ay] az] Ha. apply HLsub in Ha as [Ha1 Ha2].
    apply lateral_same_height in Ha1. simpl in Ha1. subst ay.
    split; [done |]. by apply canSpreadInto_loaded in Ha2. }
  assert (Hcs : chunks (sp_game st) = waterCells (chunks g) L) by (by rewrite Hg).
  assert (Hq : waterFlowActive (sp_game st) = queued (waterFlowActive g) L)
    by (by rewrite Hg).
  (* the reads of the step see the state before the cell was processed *)
  assert (R1 : getBlockAtLoaded (sp_game st) (x + fst d) y (z + snd d)
               = getBlockAtLoaded g (x + fst d) y (z + snd d)).
  { rewrite !getBlockAtLoaded_read, Hcs, readVoxel_waterCells by done.
    by rewrite decide_False. }
  assert (R2 : getBlockAtLoaded (sp_game st) (x + fst d) (y - 1) (z + snd d)
               = getBlockAtLoaded g (x + fst d) (y - 1) (z + snd d)).
  { rewrite !getBlockAtLoaded_read, Hcs, readVoxel_waterCells by done.
    rewrite decide_False; [done |]. intros Hin. apply HLsub in Hin as [Hin _].
    apply lateral_same_height in Hin. simpl in Hin. lia. }
  rewrite R1, R2.
  unfold canSpreadInto. cbn [c lateralCell List.filter].
  destruct (Z.eqb_spec (getBlockAtLoaded g (x + fst d) y (z + snd d)) BlockType.AIR)
    as [Hair | Hnair]; simpl.
  2: { rewrite app_nil_r, HL. by repeat split. }
  set (below := if y >? 0 then _ else BlockType.BEDROCK).
  pose proof (setLoadedBlockFast_spec (sp_game st) (x + fst d) y (z + snd d)
                BlockType.WATER (sp_rebuild st)) as S.
  destruct (Z.eqb_spec below BlockType.AIR) as [Hb | Hb].
  { (* no support *)
    unfold below in Hb. destruct (y >? 0) eqn:Hy0; [| done].
    rewrite Hb. simpl. rewrite app_nil_r, HL. by repeat split. }
  destruct (setLoadedBlockFast _ _ _ _ _ _) as [[g' rb'] prev].
  destruct S as [(-> & -> & _ & [H | Hun]) | (_ & Hc & -> & S)].
  - congruence.
  - (* the neighbour's chunk is not loaded: only possible at the bottom layer *)
    assert (Hun' : chunks g !! chunkKey (chunkCoord (x + fst d)) (chunkCoord (z + snd d)) = None).
    { rewrite Hcs in Hun. destruct (chunks g !! _) eqn:E; [| done].
      assert (is_Some (waterCells (chunks g) L
                       !! chunkKey (chunkCoord (x + fst d)) (chunkCoord (z + snd d))))
        as [? Hs] by (apply waterCells_loaded; rewrite E; eauto).
      congruence. }
    unfold below in Hb. destruct (y >? 0) eqn:Hy0.
    + exfalso. apply Hb. unfold getBlockAtLoaded.
      destruct (vertOut (y - 1)); [done |]. by rewrite Hun'.
    + unfold isLoaded. rewrite Hun'.
      rewrite bool_decide_eq_false_2 by (intros [? ?]; done).
      rewrite app_nil_r, HL. by repeat split.
  - (* the neighbour takes water *)
    rewrite R1, Hair in S. rewrite R1, Hair. simpl.
    destruct S as [(He & _) | (_ & ->)]; [done |].
    assert (Helig : (if y >? 0
                     then negb (getBlockAtLoaded g (x + fst d) (y - 1) (z + snd d)
                                =? BlockType.AIR)
                     else isLoaded g (x + fst d) (z + snd d)) = true).
    { unfold below in Hb. destruct (y >? 0).
      - by apply negb_true_iff, Z.eqb_neq.
      - unfold isLoaded. apply bool_decide_eq_true.
        rewrite Hcs in Hc. by apply waterCells_loaded in Hc. }
    rewrite Helig.
    assert (Hlen : (length L < 2)%nat) by lia.
    rewrite take_ge by (rewrite length_app; simpl; lia).
    repeat split.
    + cbn [sp_game]. rewrite waterCells_app, queued_app, Hg. reflexivity.
    + cbn [sp_spreads]. rewrite Hn, length_app. simpl. lia.
    + cbn [sp_changed]. rewrite bool_decide_eq_false_2; [done |].
      by destruct L.
Qed.

Lemma spread_fold (g : Game) (x y z : Z) (ds done_ : list (Z * Z)) (st : Spread) :
  vertOut y = false →
  NoDup (map (lateralCell x y z) (done_ ++ ds)) →
  spreadState g (spreadTargets g (map (lateralCell x y z) done_)) st →
  spreadState g (spreadTargets g (map (lateralCell x y z) (done_ ++ ds)))
    (fold_left (spreadStep x y z) ds st).
Proof.
  intros Hy. revert done_ st.
  induction ds as [| d ds IH]; intros done_ st Hnd Hst.
  - by rewrite app_nil_r.
  - cbn [fold_left].
    replace (done_ ++ d :: ds) with ((done_ ++ [d]) ++ ds) in * by (by rewrite <- app_assoc).
    apply IH; [done |].
    apply spreadStep_spec; [done | | done].
    rewrite !map_app in Hnd. apply NoDup_app in Hnd as [Hnd _].
    apply NoDup_app in Hnd as (_ & Hnd & _).
    intros Hin. apply (Hnd _ Hin). simpl. by left.
Qed.

Lemma lateralCells_NoDup (x y z : Z) : NoDup (lateralCells x y z).
Proof.
  unfold lateralCells, dirs4, lateralCell. simpl.
  repeat (apply NoDup_cons; split;
          [rewrite ?elem_of_cons, elem_of_nil;
           intros H; repeat destruct H as [H | H]; try done;
           injection H; lia |]).
  apply NoDup_nil. done.
Qed.

(** A cell that reads something other than AIR through [getBlockAtLoaded] is
    vertically valid and its chunk is loaded. *)
Lemma non_air_loaded (g : Game) (x y z : Z) :
  getBlockAtLoaded g x y z ≠ BlockType.AIR →
  vertOut y = false ∧ is_Some (chunks g !! chunkKey (chunkCoord x) (chunkCoord z)).
Proof.
  unfold getBlockAtLoaded. destruct (vertOut y); [done |].
  destruct (chunks g !! chunkKey (chunkCoord x) (chunkCoord z)); [eauto | done].
Qed.

(** The state the side flow leaves behind. *)
Lemma flowCell_lateral (g : Game) (rb : list (Z * Z)) (x y z : Z) :
  getBlockAtLoaded g x y z = BlockType.WATER →
  ¬ (0 < y ∧ getBlockAtLoaded g x (y - 1) z = BlockType.AIR) →
  let cells := spreadTargets g (lateralCells x y z) in
  chunks (fst (fst (flowCell g rb (x, y, z)))) = waterCells (chunks g) cells ∧
  waterFlowActive (fst (fst (flowCell g rb (x, y, z))))
  = if bool_decide (cells = []) then waterFlowActive g
    else set_add (x, y, z) (queued (waterFlowActive g) cells).
Proof.
  intros Hw Hnot cells. unfold flowCell. rewrite Hw. cbn [negb Z.eqb BlockType.WATER Pos.eqb].
  assert (Hy : vertOut y = false) by (by apply (non_air_loaded g x y z); rewrite Hw).
  replace ((y >? 0) && (getBlockAtLoaded g x (y - 1) z =? BlockType.AIR)) with false.
  2: { symmetry. apply andb_false_iff.
       destruct (Z.gtb_spec y 0); [| auto]. right. apply Z.eqb_neq.
       intros Hair. apply Hnot. lia. }
  pose proof (spread_fold g x y z dirs4 [] (mkSpread g rb 0 false) Hy) as F.
  cbn [app] in F. fold (lateralCells x y z) in F. fold cells in F.
  destruct F as (Hg & Hn & Hch).
  - apply lateralCells_NoDup.
  - destruct g. by repeat split.
  - set (st := fold_left _ _ _) in *. clearbody st. rewrite Hch.
    destruct (bool_decide (cells = [])) eqn:He; simpl.
    + apply bool_decide_eq_true in He. rewrite Hg, He. by destruct g.
    + by rewrite Hg.
Qed.

(** The state the downward flow leaves behind. *)
Lemma flowCell_gravity (g : Game) (rb : list (Z * Z)) (x y z : Z) :
  getBlockAtLoaded g x y z = BlockType.WATER →
  0 < y → getBlockAtLoaded g x (y - 1) z = BlockType.AIR →
  chunks (fst (fst (flowCell g rb (x, y, z))))
  = writeVoxel (chunks g) x (y - 1) z BlockType.WATER ∧
  waterFlowActive (fst (fst (flowCell g rb (x, y, z))))
  = set_add (x, y, z) (set_add (x, y - 1, z) (waterFlowActive g)).
Proof.
  intros Hw Hy0 Hb. unfold flowCell. rewrite Hw. cbn [negb Z.eqb BlockType.WATER Pos.eqb].
  destruct (non_air_loaded g x y z) as [Hy Hc]; [by rewrite Hw |].
  replace (y >? 0) with true by (symmetry; by apply Z.gtb_lt).
  rewrite Hb. cbn [andb Z.eqb BlockType.AIR].
  pose proof (setLoadedBlockFast_spec g x (y - 1) z BlockType.WATER rb) as S.
  destruct (setLoadedBlockFast g x (y - 1) z BlockType.WATER rb) as [[g' rb'] prev].
  assert (Hy' : vertOut (y - 1) = false).
  { apply vertOut_false. apply vertOut_false in Hy. lia. }
  destruct S as [(_ & _ & _ & [H | H]) | (_ & _ & -> & S)].
  - congruence.
  - rewrite H in Hc. by destruct Hc.
  - rewrite Hb in *. destruct S as [(He & _) | (_ & ->)]; [done |].
    by cbn.
Qed.


(** ** The code at concrete inputs *)

(** C1. Two successive calls [generateChunk(0, 0)] under the default
    configuration (seed 12345, normal world), with [Math.random()] returning 0
    and then 0.9: the first call grows the sugar cane at local (3, _, 1) one
    block high, the second three blocks high, so the block arrays differ at
    local (3, 31, 1): AIR after the first call, SUGAR_CANE after the second. *)
Theorem generateChunk_two_calls_differ :
  let first := generateChunk defaultWorldGen lowThenHigh 0 0 0%nat in
  let second := generateChunk defaultWorldGen lowThenHigh 0 0 (snd first) in
  getBlock (fst first) 3 31 1 = BlockType.AIR ∧
  getBlock (fst second) 3 31 1 = BlockType.SUGAR_CANE ∧
  u8_get (blocks (fst first)) (getIndex 3 31 1)
  ≠ u8_get (blocks (fst second)) (getIndex 3 31 1).
Proof. vm_compute. repeat split; discriminate. Qed.

(** C2. [setBlockAt(0, 1, 0, SAND)] on top of a STONE block: the voxel
    changes, the sand is supported, and still one falling-block entity is
    spawned and the cell is set back to AIR. *)
Theorem supported_sand_still_falls :
  let g' := setBlockAt stoneFloor 0 1 0 BlockType.SAND in
  getBlockAt stoneFloor 0 1 0 = BlockType.AIR ∧
  getBlockAt stoneFloor 0 0 0 = BlockType.STONE ∧
  isBlockSolid stoneFloor 0 0 0 = true ∧
  shouldBlockFall BlockType.SAND = true ∧
  fallingBlocks stoneFloor = [] ∧
  fallingBlocks g' = [fallingEntity 0 1 0 BlockType.SAND] ∧
  getBlockAt g' 0 1 0 = BlockType.AIR.
Proof. vm_compute. repeat split; reflexivity. Qed.

(** C6. A body dropped at rest from height 46 onto the flat world, whose
    surface layer is at height 30 (solid up to 30, empty from 31 on), at 20
    frames a second ([dt] = 0.05): on frame 25 the downward hit is found one
    layer below the surface, and from then on the body lies with its bottom
    at 30, inside the surface block, with zero vertical velocity and the
    ground latch set, instead of at surface + 1 = 31. *)
Theorem fast_fall_ends_inside_the_ground :
  forallb (fun x => forallb (fun z =>
      isBlockSolid flatWorld x 29 z && isBlockSolid flatWorld x 30 z
      && negb (isBlockSolid flatWorld x 31 z)) (seqZ 0 16)) (seqZ 0 16) = true ∧
  vy (playerPos (fall 24 flatWorld (playerAt 46) 0.05%float)) = 31.000000000000004%float ∧
  onGround (fall 24 flatWorld (playerAt 46) 0.05%float) = false ∧
  map (fun n => let p := fall n flatWorld (playerAt 46) 0.05%float in
                (vy (playerPos p), vy (playerVelocity p), onGround p))
      (seq 25 6)
  = repeat (30%float, 0%float, true) 6.
Proof. vm_compute. repeat split; reflexivity. Qed.

(** ** Further properties of the edit protocol and the generator *)

(** An edit that changes the voxel spawns a falling-block entity exactly
    when the block type is one of SAND, GRAVEL, ANVIL, whatever lies below
    the cell; the entity spawned, the cell reads AIR again at once. *)
Theorem setBlockAt_spawns_by_type_alone (g : Game) (x y z : Z) (t : BlockType) :
  vertOut y = false →
  is_Some (chunks g !! chunkKey (chunkCoord x) (chunkCoord z)) →
  getBlockAtLoaded g x y z ≠ t →
  fallingBlocks (setBlockAt g x y z t)
  = fallingBlocks g ++ (if shouldBlockFall t then [fallingEntity x y z t] else []) ∧
  getBlockAt (setBlockAt g x y z t) x y z
  = (if shouldBlockFall t then BlockType.AIR else t mod 256).
Proof.
  intros Hy Hc Hne.
  pose proof (setBlockAt_effect g x y z t Hy Hc Hne) as E.
  rewrite getBlockAt_read.
  destruct (shouldBlockFall t); destruct E as [-> ->].
  - split; [done |]. rewrite readVoxel_writeVoxel, decide_True; try done.
    unfold writeVoxel. destruct Hc as [c Hc]. rewrite Hc, lookup_insert_eq. eauto.
  - split; [by rewrite app_nil_r |]. by rewrite readVoxel_writeVoxel, decide_True.
Qed.

Lemma setBlockAt_spawns_by_type_alone_witness :
  fallingBlocks (setBlockAt stoneFloor 0 5 0 BlockType.SAND)
  = fallingBlocks stoneFloor ++ [fallingEntity 0 5 0 BlockType.SAND] ∧
  getBlockAt (setBlockAt stoneFloor 0 5 0 BlockType.SAND) 0 5 0 = BlockType.AIR.
Proof.
  apply (setBlockAt_spawns_by_type_alone stoneFloor 0 5 0 BlockType.SAND).
  - reflexivity.
  - vm_compute. eauto.
  - vm_compute. discriminate.
Defined.

(** In a flat world [generateChunk] never consults [Math.random()]: the
    chunk is the same whatever the random numbers are, and the cursor of the
    oracle does not move. *)
Theorem generateChunk_flat_deterministic (w : WorldGen) (rnd rnd' : Oracle)
    (cx cz : Z) (cur cur' : nat) :
  isFlat w = true →
  fst (generateChunk w rnd cx cz cur) = fst (generateChunk w rnd' cx cz cur') ∧
  snd (generateChunk w rnd cx cz cur) = cur.
Proof. intros H. unfold generateChunk. rewrite H. split; reflexivity. Qed.

Lemma generateChunk_flat_deterministic_witness :
  fst (generateChunk (configureWorldGeneration (mkConfig 7 flat)) lowThenHigh 2 (-3) 0%nat)
  = fst (generateChunk (configureWorldGeneration (mkConfig 7 flat)) (fun _ => 0.5%float)
           2 (-3) 4%nat) ∧
  snd (generateChunk (configureWorldGeneration (mkConfig 7 flat)) lowThenHigh 2 (-3) 0%nat)
  = 0%nat.
Proof.
  apply (generateChunk_flat_deterministic
           (configureWorldGeneration (mkConfig 7 flat)) lowThenHigh (fun _ => 0.5%float)
           2 (-3) 0%nat 4%nat).
  reflexivity.
Defined.

(** ** Chunk arrays hold bytes *)

Lemma u8_valid_empty : u8_valid ∅.
Proof. intros i v H. by rewrite lookup_empty in H. Qed.

Lemma u8_valid_set (a : gmap Z Z) (i v : Z) : u8_valid a → u8_valid (u8_set a i v).
Proof.
  intros Ha j w. unfold u8_set.
  destruct (decide (i = j)) as [-> | Hne].
  - rewrite lookup_insert_eq. intros [= <-]. lia.
  - rewrite lookup_insert_ne by done. apply Ha.
Qed.

(** Every write of the chunk store keeps the array an array of bytes. *)
Lemma setBlock_valid (chunk : ChunkData) (x y z : Z) (t : BlockType) :
  u8_valid (blocks chunk) → u8_valid (blocks (setBlock chunk x y z t)).
Proof.
  intros H. unfold setBlock. destruct (outOfChunk x y z); [done |].
  simpl. by apply u8_valid_set.
Qed.

Lemma bedrockWorld_valid (k : Z * Z) (chunk : ChunkData) :
  chunks bedrockWorld !! k = Some chunk → u8_valid (blocks chunk).
Proof.
  unfold bedrockWorld, loadChunk. simpl.
  destruct (decide (k = chunkKey 0 0)) as [-> | Hne].
  - rewrite lookup_insert_eq. intros [= <-].
    repeat apply setBlock_valid. apply u8_valid_empty.
  - rewrite lookup_insert_ne by done. by rewrite lookup_empty.
Qed.

(** ** The theorems at concrete inputs *)

Lemma getBlockAt_never_fails_witness :
  getBlockAt bedrockWorld 5 (-1) 5 = BlockType.AIR ∧
  getBlockAt bedrockWorld 5 80 5 = BlockType.AIR ∧
  getBlockAt bedrockWorld 100 3 (-40) = BlockType.STONE ∧
  getBlockAt bedrockWorld (-1) 0 0 = BlockType.STONE ∧
  0 <= getBlockAt bedrockWorld 0 0 0 < 256.
Proof.
  destruct (getBlockAt_never_fails bedrockWorld 5 (-1) 5) as (H1 & _).
  destruct (getBlockAt_never_fails bedrockWorld 5 80 5) as (H2 & _).
  destruct (getBlockAt_never_fails bedrockWorld 100 3 (-40)) as (_ & H3 & _).
  destruct (getBlockAt_never_fails bedrockWorld (-1) 0 0) as (_ & H4 & _).
  destruct (getBlockAt_never_fails bedrockWorld 0 0 0) as (_ & _ & _ & H5).
  split; [apply H1; lia |]. split; [apply H2; lia |].
  split; [apply H3; [lia | reflexivity] |].
  split; [apply H4; [lia | reflexivity] |].
  apply H5. exact bedrockWorld_valid.
Defined.

Lemma bedrock_is_never_destroyed_witness :
  getBlockAt bedrockWorld 0 0 0 = BlockType.BEDROCK ∧
  getBlockAt (breakBlock (fun _ => 50%float) bedrockWorld) 0 0 0 = BlockType.BEDROCK ∧
  getBlockAt (explodeTNT bedrockWorld 1 0 0) 0 0 0 = BlockType.BEDROCK ∧
  getBlockAt (fst (createExplosion lowThenHigh bedrockWorld 0 0 1 0 4)) 0 0 0
  = BlockType.BEDROCK.
Proof.
  assert (Hb : getBlockAt bedrockWorld 0 0 0 = BlockType.BEDROCK) by (vm_compute; reflexivity).
  destruct (bedrock_is_never_destroyed (fun _ => 50%float) lowThenHigh bedrockWorld 0 0 0 Hb)
    as (H1 & _ & H3 & H4).
  split; [exact Hb |]. split; [exact H1 |]. split; [apply H3 | apply H4].
Defined.

(** The operations of the bedrock example do destroy what is not bedrock. *)
Lemma bedrockWorld_stone_is_destroyed :
  getBlockAt bedrockWorld 0 1 0 = BlockType.STONE ∧
  getBlockAt (explodeTNT bedrockWorld 1 0 0) 0 1 0 = BlockType.AIR ∧
  getBlockAt (fst (createExplosion lowThenHigh bedrockWorld 0 0 1 0 4)) 0 1 0 = BlockType.AIR ∧
  getBlockAt (breakBlock (fun _ => 50%float) (set_gameMode creative bedrockWorld)) 0 1 0
  = BlockType.AIR.
Proof. vm_compute. repeat split; reflexivity. Qed.

(** ** Collision *)

Lemma find_first {A : Type} (f : A → bool) (l : list A) (x : A) :
  List.find f l = Some x →
  ∃ l1 l2, l = l1 ++ x :: l2 ∧ f x = true ∧ Forall (fun y => f y = false) l1.
Proof.
  induction l as [| a l IH]; [done |]. simpl.
  destruct (f a) eqn:Hfa.
  - intros [= ->]. exists [], l. by repeat split.
  - intros H. destruct (IH H) as (l1 & l2 & -> & Hx & Hl1).
    exists (a :: l1), l2. repeat split; [done |]. by constructor.
Qed.

Lemma find_nothing {A : Type} (f : A → bool) (l : list A) :
  List.find f l = None → Forall (fun y => f y = false) l.
Proof.
  induction l as [| a l IH]; [by constructor |]. simpl.
  destruct (f a) eqn:Hfa; [done |]. intros H. constructor; auto.
Qed.

(** The two outcomes of a sweep. *)
Lemma collideAxis_cases (g : Game) (pos vel : Vector3) (ground : bool)
    (axis : Axis) (dt : float) :
  let '(pos', vel', ground', hit) := collideAxis g pos vel ground axis dt in
  let tp := candidate pos vel axis dt in
  (hit = false →
     Forall (fun c => solidCell g c = false) (overlapped tp) ∧
     pos' = tp ∧ vel' = vel ∧ ground' = ground) ∧
  (hit = true →
     ∃ cell before after,
       overlapped tp = before ++ cell :: after ∧
       solidCell g cell = true ∧
       Forall (fun c => solidCell g c = false) before ∧
       pos' = setComponent pos axis (clampTo vel axis cell) ∧
       vel' = setComponent vel axis 0%float ∧
       ground' = match axis with
                 | AxisY => if PrimFloat.ltb (vy vel) 0%float then true else ground
                 | _ => ground
                 end).
Proof.
  unfold collideAxis. fold (candidate pos vel axis dt). fold (solidCell g).
  destruct (List.find (solidCell g) (overlapped (candidate pos vel axis dt)))
    as [[[bx by_] bz] |] eqn:Hf.
  - apply find_first in Hf as (l1 & l2 & Hl & Hs & Hb).
    destruct axis; [| destruct (PrimFloat.ltb (vy vel) 0) eqn:Hv |];
      (split; [done |]); intros _; exists (bx, by_, bz), l1, l2;
      repeat split; try done; simpl; by rewrite ?Hv.
  - apply find_nothing in Hf. split; [| done]. intros _. by repeat split.
Qed.




(** The ground latch after [update(dt)]: the three sweeps run in the order
    Y, X, Z from a cleared latch, and the latch ends set exactly when the Y
    sweep hit a solid cell while the body was moving down. *)
Theorem onGround_only_from_downward_Y_hit (g : Game) (p : Player) (mvx mvz : float)
    (jumping : bool) (dt : float) :
  let vel := sweepVelocity p mvx mvz jumping dt in
  let '(posY, velY, groundY, hitY) := collideAxis g (playerPos p) vel false AxisY dt in
  let '(posX, velX, groundX, hitX) := collideAxis g posY velY groundY AxisX dt in
  let '(posZ, velZ, groundZ, hitZ) := collideAxis g posX velX groundX AxisZ dt in
  playerVelocity (updatePlayer g p mvx mvz jumping dt) = velZ ∧
  vx (playerPos (updatePlayer g p mvx mvz jumping dt)) = vx posZ ∧
  vz (playerPos (updatePlayer g p mvx mvz jumping dt)) = vz posZ ∧
  vy (playerPos (updatePlayer g p mvx mvz jumping dt)) = Math_max 0%float (vy posZ) ∧
  onGround (updatePlayer g p mvx mvz jumping dt) = hitY && PrimFloat.ltb (vy vel) 0%float.
Proof.
  unfold updatePlayer. fold (sweepVelocity p mvx mvz jumping dt).
  set (vel := sweepVelocity p mvx mvz jumping dt).
  pose proof (collideAxis_cases g (playerPos p) vel false AxisY dt) as HY.
  destruct (collideAxis g (playerPos p) vel false AxisY dt) as [[[posY velY] groundY] hitY].
  pose proof (collideAxis_cases g posY velY groundY AxisX dt) as HX.
  destruct (collideAxis g posY velY groundY AxisX dt) as [[[posX velX] groundX] hitX].
  pose proof (collideAxis_cases g posX velX groundX AxisZ dt) as HZ.
  destruct (collideAxis g posX velX groundX AxisZ dt) as [[[posZ velZ] groundZ] hitZ].
  cbv zeta in HY, HX, HZ.
  assert (HgZ : groundZ = groundX).
  { destruct hitZ; [destruct HZ as [_ HZ] | destruct HZ as [HZ _]].
    - by destruct (HZ eq_refl) as (? & ? & ? & _ & _ & _ & _ & _ & ->).
    - by destruct (HZ eq_refl) as (_ & _ & _ & ->). }
  assert (HgX : groundX = groundY).
  { destruct hitX; [destruct HX as [_ HX] | destruct HX as [HX _]].
    - by destruct (HX eq_refl) as (? & ? & ? & _ & _ & _ & _ & _ & ->).
    - by destruct (HX eq_refl) as (_ & _ & _ & ->). }
  assert (HgY : groundY = hitY && PrimFloat.ltb (vy vel) 0%float).
  { destruct hitY; [destruct HY as [_ HY] | destruct HY as [HY _]].
    - destruct (HY eq_refl) as (? & ? & ? & _ & _ & _ & _ & _ & ->).
      by destruct (PrimFloat.ltb (vy vel) 0).
    - by destruct (HY eq_refl) as (_ & _ & _ & ->). }
  subst groundZ groundX.
  destruct groundY; simpl; repeat split; try done; by destruct posZ.
Qed.
(** ** The chunk store *)

(** The chunk store of worldgen.ts.  A block written by [setBlock] inside the
    chunk is read back by [getBlock] as the low eight bits of the value (the
    array is a [Uint8Array]), and no other cell changes; a write outside the
    chunk changes nothing and a read outside the chunk answers AIR. *)
Theorem setBlock_getBlock_round_trip (chunk : ChunkData) (x y z : Z) (t : BlockType)
    (x' y' z' : Z) :
  (outOfChunk x y z = true → setBlock chunk x y z t = chunk) ∧
  (outOfChunk x' y' z' = true → getBlock chunk x' y' z' = BlockType.AIR) ∧
  (outOfChunk x y z = false → getBlock (setBlock chunk x y z t) x y z = t mod 256) ∧
  (outOfChunk x y z = false → 0 <= t < 256 →
     getBlock (setBlock chunk x y z t) x y z = t) ∧
  ((x', y', z') ≠ (x, y, z) →
     getBlock (setBlock chunk x y z t) x' y' z' = getBlock chunk x' y' z') ∧
  cx (setBlock chunk x y z t) = cx chunk ∧ cz (setBlock chunk x y z t) = cz chunk.
Proof.
  repeat split.
  - intros H. unfold setBlock. by rewrite H.
  - intros H. unfold getBlock. by rewrite H.
  - apply getBlock_setBlock_same.
  - intros H Ht. rewrite getBlock_setBlock_same by done. by apply Z.mod_small.
  - apply getBlock_setBlock_other.
  - unfold setBlock. by destruct (outOfChunk x y z).
  - unfold setBlock. by destruct (outOfChunk x y z).
Qed.

(** ** TNT *)

Lemma cube_elem (r dx dy dz : Z) :
  (dx, dy, dz) ∈ cube r ↔ - r <= dx <= r ∧ - r <= dy <= r ∧ - r <= dz <= r.
Proof.
  unfold cube. rewrite list_elem_of_bind. split.
  - intros (a & Ha & Hx). apply list_elem_of_bind in Ha as (b & Hb & Hy).
    apply list_elem_of_bind in Hb as (c & Hc & Hz).
    apply list_elem_of_singleton in Hc. injection Hc as -> -> ->.
    apply elem_of_seqZ in Hx, Hy, Hz. lia.
  - intros (Hx & Hy & Hz). exists dx. split; [| apply elem_of_seqZ; lia].
    apply list_elem_of_bind. exists dy. split; [| apply elem_of_seqZ; lia].
    apply list_elem_of_bind. exists dz. split; [| apply elem_of_seqZ; lia].
    by apply list_elem_of_singleton.
Qed.

Lemma explodeTNT_cell_chunks (tx ty tz r : Z) (st : Game * list (Z * Z)) (d : Z * Z * Z) :
  chunks (fst (explodeTNT_cell tx ty tz r st d)) =
  let '(dx, dy, dz) := d in
  let b := readVoxel BlockType.AIR (chunks (fst st)) (tx + dx) (ty + dy) (tz + dz) in
  if (dx * dx + dy * dy + dz * dz <=? r * r)
     && negb (b =? BlockType.AIR) && negb (b =? BlockType.BEDROCK)
  then writeVoxel (chunks (fst st)) (tx + dx) (ty + dy) (tz + dz) BlockType.AIR
  else chunks (fst st).
Proof.
  destruct st as [g rb], d as [[dx dy] dz]. cbn [fst]. unfold explodeTNT_cell.
  rewrite <- getBlockAtLoaded_read.
  destruct (Z.gtb_spec (dx * dx + dy * dy + dz * dz) (r * r)) as [Hgt | Hle].
  - replace (_ <=? _) with false by (symmetry; apply Z.leb_gt; lia). done.
  - replace (_ <=? _) with true by (symmetry; apply Z.leb_le; lia). cbn [andb].
    destruct (negb _ && negb _) eqn:Hc; [| done].
    unfold writeVoxel.
    destruct (chunks g !! chunkKey (chunkCoord (tx + dx)) (chunkCoord (tz + dz)))
      as [c |] eqn:Hk; [| done].
    cbn [fst]. by rewrite chunks_queueWaterAround.
Qed.

Lemma explodeTNT_fold_read (tx ty tz r : Z) (cells : list (Z * Z * Z)) :
  ∀ (st : Game * list (Z * Z)) (x y z : Z),
  readVoxel BlockType.AIR
    (chunks (fst (fold_left (explodeTNT_cell tx ty tz r) cells st))) x y z =
  let b := readVoxel BlockType.AIR (chunks (fst st)) x y z in
  if bool_decide ((x - tx, y - ty, z - tz) ∈ cells)
     && ((x - tx) * (x - tx) + (y - ty) * (y - ty) + (z - tz) * (z - tz) <=? r * r)
     && negb (b =? BlockType.BEDROCK)
  then BlockType.AIR else b.
Proof.
  induction cells as [| d cells IH]; intros st x y z; [done |].
  cbn [fold_left]. rewrite IH. cbn zeta.
  rewrite explodeTNT_cell_chunks. destruct d as [[dx dy] dz]. cbn zeta.
  destruct (decide ((x - tx, y - ty, z - tz) = (dx, dy, dz))) as [Heq | Hne].
  - injection Heq as <- <- <-.
    replace (tx + (x - tx)) with x by lia. replace (ty + (y - ty)) with y by lia.
    replace (tz + (z - tz)) with z by lia.
    rewrite (bool_decide_eq_true_2 (_ ∈ _ :: cells)) by apply list_elem_of_here.
    set (b := readVoxel BlockType.AIR (chunks (fst st)) x y z).
    destruct (_ <=? r * r) eqn:Hball; cbn [andb];
      [| by rewrite !andb_false_r].
    destruct (Z.eqb_spec b BlockType.BEDROCK) as [Hb | Hb]; cbn [negb andb].
    + rewrite andb_false_r. fold b. rewrite Hb. by rewrite andb_false_r.
    + destruct (Z.eqb_spec b BlockType.AIR) as [Ha | Ha]; cbn [negb andb].
      * fold b. rewrite Ha. by destruct (bool_decide _).
      * destruct (non_air_loaded (fst st) x y z) as [Hy Hl];
          [by rewrite getBlockAtLoaded_read |].
        rewrite readVoxel_writeVoxel by done. rewrite decide_True by done.
        by destruct (bool_decide _).
  - assert (Hc : (x, y, z) ≠ (tx + dx, ty + dy, tz + dz)).
    { intros Hc. injection Hc as -> -> ->. apply Hne. f_equal; [f_equal |]; lia. }
    assert (Hr : readVoxel BlockType.AIR
              (if (dx * dx + dy * dy + dz * dz <=? r * r)
                  && negb (readVoxel BlockType.AIR (chunks (fst st)) (tx + dx) (ty + dy) (tz + dz)
                           =? BlockType.AIR)
                  && negb (readVoxel BlockType.AIR (chunks (fst st)) (tx + dx) (ty + dy) (tz + dz)
                           =? BlockType.BEDROCK)
               then writeVoxel (chunks (fst st)) (tx + dx) (ty + dy) (tz + dz) BlockType.AIR
               else chunks (fst st)) x y z
            = readVoxel BlockType.AIR (chunks (fst st)) x y z).
    { destruct (_ && _); [| done]. by apply readVoxel_writeVoxel_other. }
    rewrite Hr.
    replace (bool_decide ((x - tx, y - ty, z - tz) ∈ (dx, dy, dz) :: cells))
      with (bool_decide ((x - tx, y - ty, z - tz) ∈ cells)); [done |].
    apply bool_decide_ext. rewrite elem_of_cons.
    split; [by right | intros [He | He]; [by destruct Hne | done]].
Qed.

Lemma blockEvents_queueWaterAt (g : Game) (x y z : Z) :
  blockEvents (queueWaterAt g x y z) = blockEvents g.
Proof. unfold queueWaterAt. by repeat case_match. Qed.

Lemma blockEvents_queueWaterAround (g : Game) (x y z : Z) :
  blockEvents (queueWaterAround g x y z) = blockEvents g.
Proof. unfold queueWaterAround. by rewrite !blockEvents_queueWaterAt. Qed.

Lemma blockEvents_rebuildChunkSet (g : Game) (keys : list (Z * Z)) :
  blockEvents (rebuildChunkSet g keys) = blockEvents g.
Proof.
  unfold rebuildChunkSet. revert g.
  induction keys as [| k keys IH]; intros g; [done |].
  cbn [fold_left]. rewrite IH. by case_match.
Qed.

Lemma explodeTNT_cell_quiet (tx ty tz r : Z) (st : Game * list (Z * Z)) (d : Z * Z * Z) :
  blockEvents (fst (explodeTNT_cell tx ty tz r st d)) = blockEvents (fst st) ∧
  fallingBlocks (fst (explodeTNT_cell tx ty tz r st d)) = fallingBlocks (fst st).
Proof.
  destruct st as [g rb], d as [[dx dy] dz]. unfold explodeTNT_cell.
  repeat case_match; cbn [fst]; try done.
  by rewrite blockEvents_queueWaterAround, fallingBlocks_queueWaterAround.
Qed.

Lemma explodeTNT_fold_loaded (tx ty tz r : Z) (cells : list (Z * Z * Z)) (k : Z * Z) :
  ∀ st : Game * list (Z * Z),
  is_Some (chunks (fst (fold_left (explodeTNT_cell tx ty tz r) cells st)) !! k)
  ↔ is_Some (chunks (fst st) !! k).
Proof.
  induction cells as [| d cells IH]; intros st; [done |].
  cbn [fold_left]. rewrite IH, explodeTNT_cell_chunks. destruct d as [[dx dy] dz].
  cbn zeta. destruct (_ && _ && _); [| done]. apply writeVoxel_loaded.
Qed.

Lemma explodeTNT_fold_quiet (tx ty tz r : Z) (cells : list (Z * Z * Z)) :
  ∀ st : Game * list (Z * Z),
  blockEvents (fst (fold_left (explodeTNT_cell tx ty tz r) cells st)) = blockEvents (fst st) ∧
  fallingBlocks (fst (fold_left (explodeTNT_cell tx ty tz r) cells st))
  = fallingBlocks (fst st).
Proof.
  induction cells as [| d cells IH]; intros st; [done |].
  cbn [fold_left]. destruct (IH (explodeTNT_cell tx ty tz r st d)) as [-> ->].
  apply explodeTNT_cell_quiet.
Qed.

(** [explodeTNT(x, y, z)] empties the ball of radius 4 around the charge:
    every loaded cell whose offset satisfies dx*dx + dy*dy + dz*dz <= 16 reads
    AIR afterwards unless it held BEDROCK, which stays; every cell outside the
    ball is unchanged.  Blocks are removed in place: no falling block is
    spawned and no block event is handed to [onBlockChanged]. *)
Theorem explodeTNT_clears_the_ball (g : Game) (x y z x' y' z' : Z) :
  let g' := explodeTNT g x y z in
  let d2 := (x' - x) * (x' - x) + (y' - y) * (y' - y) + (z' - z) * (z' - z) in
  (d2 <= 16 → getBlockAtLoaded g x' y' z' ≠ BlockType.BEDROCK →
     getBlockAtLoaded g' x' y' z' = BlockType.AIR) ∧
  (d2 <= 16 → getBlockAtLoaded g x' y' z' = BlockType.BEDROCK →
     getBlockAtLoaded g' x' y' z' = BlockType.BEDROCK) ∧
  (16 < d2 → getBlockAtLoaded g' x' y' z' = getBlockAtLoaded g x' y' z') ∧
  (∀ k, is_Some (chunks g' !! k) ↔ is_Some (chunks g !! k)) ∧
  fallingBlocks g' = fallingBlocks g ∧
  blockEvents g' = blockEvents g.
Proof.
  intros g' d2.
  assert (Hread : getBlockAtLoaded g' x' y' z' =
            if bool_decide ((x' - x, y' - y, z' - z) ∈ cube 4) && (d2 <=? 4 * 4)
               && negb (getBlockAtLoaded g x' y' z' =? BlockType.BEDROCK)
            then BlockType.AIR else getBlockAtLoaded g x' y' z').
  { unfold g', explodeTNT.
    pose proof (explodeTNT_fold_read x y z 4 (cube 4) (g, []) x' y' z') as H.
    destruct (fold_left _ _ _) as [g1 rb1]. cbn [fst] in H.
    rewrite !getBlockAtLoaded_read, chunks_rebuildChunkSet. exact H. }
  assert (Hin : d2 <= 16 → (x' - x, y' - y, z' - z) ∈ cube 4).
  { intros Hd. apply cube_elem. unfold d2 in Hd.
    pose proof (Z.square_nonneg (x' - x)). pose proof (Z.square_nonneg (y' - y)).
    pose proof (Z.square_nonneg (z' - z)).
    repeat split; nia. }
  split; [| split; [| split; [| split; [| split]]]].
  - intros Hd Hb. rewrite Hread, bool_decide_eq_true_2 by auto.
    replace (d2 <=? 4 * 4) with true by (symmetry; apply Z.leb_le; lia).
    destruct (Z.eqb_spec (getBlockAtLoaded g x' y' z') BlockType.BEDROCK);
      [congruence | reflexivity].
  - intros Hd Hb. rewrite Hread, Hb, Z.eqb_refl. cbn [negb].
    rewrite andb_false_r. reflexivity.
  - intros Hd. rewrite Hread.
    replace (d2 <=? 4 * 4) with false by (symmetry; apply Z.leb_gt; lia).
    rewrite andb_false_r. reflexivity.
  - intros k. clear Hread Hin.
    pose proof (explodeTNT_fold_loaded x y z 4 (cube 4) k (g, [])) as Hl.
    unfold g', explodeTNT.
    destruct (fold_left _ _ _) as [g1 rb1]. rewrite chunks_rebuildChunkSet. exact Hl.
  - clear Hread Hin.
    pose proof (explodeTNT_fold_quiet x y z 4 (cube 4) (g, [])) as [_ Hq].
    unfold g', explodeTNT. destruct (fold_left _ _ _) as [g1 rb1].
    rewrite fallingBlocks_rebuildChunkSet. exact Hq.
  - clear Hread Hin.
    pose proof (explodeTNT_fold_quiet x y z 4 (cube 4) (g, [])) as [Hq _].
    unfold g', explodeTNT. destruct (fold_left _ _ _) as [g1 rb1].
    rewrite blockEvents_rebuildChunkSet. exact Hq.
Qed.
(** ** Felling a tree *)

Lemma readVoxel_clear (cs : gmap (Z * Z) ChunkData) (x y z x' y' z' : Z) :
  readVoxel BlockType.AIR (writeVoxel cs x y z BlockType.AIR) x' y' z' =
  if bool_decide ((x', y', z') = (x, y, z)) then BlockType.AIR
  else readVoxel BlockType.AIR cs x' y' z'.
Proof.
  destruct (decide ((x', y', z') = (x, y, z))) as [Heq | Hne].
  - rewrite bool_decide_eq_true_2 by done. injection Heq as -> -> ->.
    destruct (vertOut y) eqn:Hy; [unfold readVoxel; by rewrite Hy |].
    destruct (cs !! chunkKey (chunkCoord x) (chunkCoord z)) as [c |] eqn:Hc.
    + rewrite readVoxel_writeVoxel by (by rewrite ?Hc). by rewrite decide_True.
    + rewrite readVoxel_writeVoxel_unloaded by done. unfold readVoxel. by rewrite Hy, Hc.
  - rewrite bool_decide_eq_false_2 by done. by apply readVoxel_writeVoxel_other.
Qed.

Lemma removeCell_fold_read (cells : list (Z * Z * Z)) :
  ∀ (st : Game * list (Z * Z)) (x y z : Z),
  readVoxel BlockType.AIR (chunks (fst (fold_left removeCell cells st))) x y z =
  if bool_decide ((x, y, z) ∈ cells) then BlockType.AIR
  else readVoxel BlockType.AIR (chunks (fst st)) x y z.
Proof.
  induction cells as [| p cells IH]; intros st x y z; [done |].
  cbn [fold_left]. rewrite IH, removeCell_chunks. destruct p as [[px py] pz].
  rewrite readVoxel_clear.
  destruct (decide ((x, y, z) = (px, py, pz))) as [-> | Hne].
  - rewrite (bool_decide_eq_true_2 (_ ∈ _ :: _)) by apply list_elem_of_here.
    rewrite (bool_decide_eq_true_2 (_ = _)) by done. by destruct (bool_decide _).
  - rewrite (bool_decide_eq_false_2 (_ = _)) by done.
    replace (bool_decide ((x, y, z) ∈ (px, py, pz) :: cells))
      with (bool_decide ((x, y, z) ∈ cells)); [done |].
    apply bool_decide_ext. rewrite elem_of_cons.
    split; [by right | intros [He | He]; [by destruct Hne | done]].
Qed.

Lemma removeCell_fold_quiet (cells : list (Z * Z * Z)) :
  ∀ st : Game * list (Z * Z),
  blockEvents (fst (fold_left removeCell cells st)) = blockEvents (fst st) ∧
  droppedItems (fst (fold_left removeCell cells st)) = droppedItems (fst st) ∧
  fallingBlocks (fst (fold_left removeCell cells st)) = fallingBlocks (fst st).
Proof.
  induction cells as [| p cells IH]; intros st; [done |].
  cbn [fold_left]. destruct (IH (removeCell st p)) as (-> & -> & ->).
  destruct st as [g rb], p as [[x y] z]. unfold removeCell.
  by destruct (chunks g !! _).
Qed.

Lemma droppedItems_rebuildChunkSet (g : Game) (keys : list (Z * Z)) :
  droppedItems (rebuildChunkSet g keys) = droppedItems g.
Proof.
  unfold rebuildChunkSet. revert g.
  induction keys as [| k keys IH]; intros g; [done |].
  cbn [fold_left]. rewrite IH. by destruct (chunks g !! k).
Qed.

Lemma collapseBody_inv (g : Game) (s : Z * Z * Z) (st : Collapse) :
  collapseGuard st = true → collapseInv g s st → collapseInv g s (collapseBody g st).
Proof.
  unfold collapseGuard, collapseBody.
  destruct (cl_queue st) as [| cur rest] eqn:Hq; [done |].
  intros Hlt%Z.ltb_lt (Hv & Hr & Hsub & Hlen & Hcap & Hpath & Hqueue).
  rewrite Hq in Hqueue.
  destruct (decide (cur ∈ cl_visited st)) as [Hin | Hnin].
  { repeat split; cbn; try done. intros q Hq'. apply Hqueue. by right. }
  destruct cur as [[x y] z].
  assert (Hv' : NoDup (cl_visited st ++ [(x, y, z)])).
  { apply NoDup_app. split; [done |]. split; [| apply NoDup_singleton].
    intros c Hc Hc'. apply list_elem_of_singleton in Hc'. by subst. }
  destruct (isTreeBlock (getBlockAtLoaded g x y z)) eqn:Ht.
  - assert (Hcur : treePath g s (x, y, z)).
    { destruct (Hqueue (x, y, z)) as [<- | (c & Hc & Ha)]; [apply list_elem_of_here | |].
      - apply treePath_start. exact Ht.
      - apply (treePath_step g s c); [done | done | exact Ht]. }
    repeat split; cbn.
    + done.
    + apply NoDup_app. split; [done |]. split; [| apply NoDup_singleton].
      intros c Hc Hc'. apply list_elem_of_singleton in Hc'. subst. by apply Hnin, Hsub.
    + intros c [Hc | Hc]%elem_of_app; apply elem_of_app; [left; by apply Hsub | by right].
    + rewrite !length_app. cbn. lia.
    + rewrite length_app. cbn. lia.
    + intros c [Hc | Hc]%elem_of_app; [by apply Hpath |].
      apply list_elem_of_singleton in Hc. by subst.
    + intros q [Hq' | Hq']%elem_of_app; [apply Hqueue; by right |].
      right. exists (x, y, z). split; [done |].
      cbn in Hq'. unfold adjacent.
      repeat (apply elem_of_cons in Hq' as [-> | Hq']; [lia |]).
      by apply elem_of_nil in Hq'.
  - repeat split; cbn; try done.
    + intros c Hc. apply elem_of_app. left. by apply Hsub.
    + rewrite length_app. cbn. lia.
    + rewrite length_app. cbn. lia.
    + intros q Hq'. apply Hqueue. by right.
Qed.

Lemma collapseLoop_inv (n : nat) (g : Game) (s : Z * Z * Z) (st : Collapse) :
  collapseInv g s st → collapseInv g s (collapseLoop n g st).
Proof.
  revert st. induction n as [| n IH]; intros st Hi; [done |].
  cbn [collapseLoop]. destruct (collapseGuard st) eqn:Hg; [| done].
  by apply IH, collapseBody_inv.
Qed.

Lemma collapseLoop_grows (n : nat) (g : Game) (st : Collapse) (c : Z * Z * Z) :
  c ∈ cl_toRemove st → c ∈ cl_toRemove (collapseLoop n g st).
Proof.
  revert st. induction n as [| n IH]; intros st Hc; [done |].
  cbn [collapseLoop]. destruct (collapseGuard st); [| done]. apply IH.
  unfold collapseBody. destruct (cl_queue st) as [| [[x y] z] rest]; [done |].
  destruct (decide _); [done |]. destruct (isTreeBlock _); [| done].
  cbn. apply elem_of_app. by left.
Qed.

Lemma collapseTree_read (g : Game) (wx wy wz x y z : Z) :
  getBlockAtLoaded (collapseTree g wx wy wz) x y z =
  if bool_decide ((x, y, z) ∈ cl_toRemove (collapseLoop COLLAPSE_FUEL g
                                             (mkCollapse [(wx, wy, wz)] [] [])))
  then BlockType.AIR else getBlockAtLoaded g x y z.
Proof.
  unfold collapseTree.
  generalize (cl_toRemove (collapseLoop COLLAPSE_FUEL g (mkCollapse [(wx, wy, wz)] [] [])))
    as cells.
  intros cells. pose proof (removeCell_fold_read cells (g, [])) as Hread.
  destruct (fold_left removeCell cells (g, [])) as [g1 rb1]. cbn [fst] in *.
  rewrite !getBlockAtLoaded_read, chunks_rebuildChunkSet. apply Hread.
Qed.

Lemma collapseTree_quiet (g : Game) (wx wy wz : Z) :
  blockEvents (collapseTree g wx wy wz) = blockEvents g ∧
  droppedItems (collapseTree g wx wy wz) = droppedItems g ∧
  fallingBlocks (collapseTree g wx wy wz) = fallingBlocks g.
Proof.
  unfold collapseTree.
  generalize (cl_toRemove (collapseLoop COLLAPSE_FUEL g (mkCollapse [(wx, wy, wz)] [] [])))
    as cells.
  intros cells. pose proof (removeCell_fold_quiet cells (g, [])) as (He & Hd & Hf).
  destruct (fold_left removeCell cells (g, [])) as [g1 rb1]. cbn [fst] in *.
  by rewrite blockEvents_rebuildChunkSet, droppedItems_rebuildChunkSet,
    fallingBlocks_rebuildChunkSet.
Qed.

Lemma collapseTree_start (g : Game) (wx wy wz : Z) :
  isTreeBlock (getBlockAtLoaded g wx wy wz) = true →
  (wx, wy, wz) ∈ cl_toRemove (collapseLoop COLLAPSE_FUEL g (mkCollapse [(wx, wy, wz)] [] [])).
Proof.
  intros Ht. set (st0 := mkCollapse [(wx, wy, wz)] [] []).
  change COLLAPSE_FUEL with (S (Nat.pred COLLAPSE_FUEL)). cbn [collapseLoop].
  change (collapseGuard st0) with true. cbv iota.
  apply collapseLoop_grows. unfold collapseBody, st0. cbn [cl_queue cl_visited cl_toRemove].
  rewrite decide_False by apply not_elem_of_nil. rewrite Ht. cbn. apply list_elem_of_here.
Qed.

Lemma adjacent_offsets (x y z : Z) (c' : Z * Z * Z) :
  adjacent (x, y, z) c' →
  c' ∈ map (fun d : Z * Z * Z => let '(dx, dy, dz) := d in (x + dx, y + dy, z + dz))
         [(0, 1, 0); (0, -1, 0); (1, 0, 0); (-1, 0, 0); (0, 0, 1); (0, 0, -1)].
Proof.
  destruct c' as [[x' y'] z']. unfold adjacent. intros H. cbn [map].
  rewrite !elem_of_cons.
  assert (Hc : (x' = x ∧ y' = y + 1 ∧ z' = z) ∨ (x' = x ∧ y' = y + -1 ∧ z' = z)
               ∨ (x' = x + 1 ∧ y' = y ∧ z' = z) ∨ (x' = x + -1 ∧ y' = y ∧ z' = z)
               ∨ (x' = x ∧ y' = y ∧ z' = z + 1) ∨ (x' = x ∧ y' = y ∧ z' = z + -1))
    by lia.
  destruct Hc as [(-> & -> & ->) | [(-> & -> & ->) | [(-> & -> & ->)
    | [(-> & -> & ->) | [(-> & -> & ->) | (-> & -> & ->)]]]]];
    rewrite ?Z.add_0_r; tauto.
Qed.

Lemma collapseBody_front (g : Game) (s : Z * Z * Z) (st : Collapse) :
  collapseGuard st = true → collapseInv g s st → collapseFront g s st →
  collapseFront g s (collapseBody g st).
Proof.
  unfold collapseGuard, collapseBody.
  destruct (cl_queue st) as [| cur rest] eqn:Hq; [done |].
  intros _ (_ & _ & _ & _ & _ & _ & Hqueue) (Hs & Hnb & Htree & Hvis).
  rewrite Hq in Hqueue, Hs, Hnb.
  destruct (decide (cur ∈ cl_visited st)) as [Hin | Hnin].
  { split; [| split; [| split]]; cbn; try done.
    - destruct Hs as [Hs | Hs]; [by left |].
      apply elem_of_cons in Hs as [-> | Hs]; [by left | by right].
    - intros c c' Hc Ha. destruct (Hnb c c' Hc Ha) as [H | H]; [by left |].
      apply elem_of_cons in H as [-> | H]; [by left | by right]. }
  assert (Hcur : cur = s ∨ ∃ c, treePath g s c ∧ adjacent c cur)
    by (apply Hqueue; by left).
  destruct cur as [[x y] z].
  destruct (isTreeBlock (getBlockAtLoaded g x y z)) eqn:Ht.
  - split; [| split; [| split]]; cbn.
    + destruct Hs as [Hs | Hs]; [left; apply elem_of_app; by left |].
      apply elem_of_cons in Hs as [-> | Hs].
      * left. apply elem_of_app. right. by apply list_elem_of_singleton.
      * right. apply elem_of_app. by left.
    + intros c c' [Hc | Hc]%elem_of_app Ha.
      * destruct (Hnb c c' Hc Ha) as [H | H]; [left; apply elem_of_app; by left |].
        apply elem_of_cons in H as [-> | H].
        -- left. apply elem_of_app. right. by apply list_elem_of_singleton.
        -- right. apply elem_of_app. by left.
      * apply list_elem_of_singleton in Hc. subst c.
        right. apply elem_of_app. right. by apply adjacent_offsets.
    + intros c [Hc | Hc]%elem_of_app Hb; apply elem_of_app.
      * left. by apply Htree.
      * by right.
    + intros v [Hv | Hv]%elem_of_app; [by apply Hvis |].
      apply list_elem_of_singleton in Hv. by subst v.
  - split; [| split; [| split]]; cbn.
    + destruct Hs as [Hs | Hs]; [left; apply elem_of_app; by left |].
      apply elem_of_cons in Hs as [-> | Hs].
      * left. apply elem_of_app. right. by apply list_elem_of_singleton.
      * by right.
    + intros c c' Hc Ha.
      destruct (Hnb c c' Hc Ha) as [H | H]; [left; apply elem_of_app; by left |].
      apply elem_of_cons in H as [-> | H].
      * left. apply elem_of_app. right. by apply list_elem_of_singleton.
      * by right.
    + intros c [Hc | Hc]%elem_of_app Hb; [by apply Htree |].
      apply list_elem_of_singleton in Hc. subst c. congruence.
    + intros v [Hv | Hv]%elem_of_app; [by apply Hvis |].
      apply list_elem_of_singleton in Hv. by subst v.
Qed.

Lemma collapseLoop_front (n : nat) (g : Game) (s : Z * Z * Z) (st : Collapse) :
  collapseInv g s st → collapseFront g s st → collapseFront g s (collapseLoop n g st).
Proof.
  revert st. induction n as [| n IH]; intros st Hi Hf; [done |].
  cbn [collapseLoop]. destruct (collapseGuard st) eqn:Hg; [| done].
  apply IH; [by apply collapseBody_inv | by apply collapseBody_front].
Qed.

(** When the flood has run out of cells to look at, every cell of the tree is
    among the cells to remove. *)
Lemma collapseFront_complete (g : Game) (s : Z * Z * Z) (st : Collapse) :
  collapseFront g s st → cl_queue st = [] →
  ∀ c, treePath g s c → c ∈ cl_toRemove st.
Proof.
  intros (Hs & Hnb & Htree & _) Hq c Hc. rewrite Hq in Hs, Hnb.
  induction Hc as [Hb | c c' _ IH Ha Hb].
  - apply Htree; [| done]. destruct Hs as [Hs | Hs]; [done | by apply elem_of_nil in Hs].
  - apply Htree; [| done].
    destruct (Hnb c c' IH Ha) as [H | H]; [done | by apply elem_of_nil in H].
Qed.

Lemma collapseTree_whole (g : Game) (wx wy wz : Z) (region : list (Z * Z * Z)) :
  (wx, wy, wz) ∈ region →
  (∀ c c', treePath g (wx, wy, wz) c → adjacent c c' → c' ∈ region) →
  (length region < 200)%nat →
  ∀ c, treePath g (wx, wy, wz) c →
  c ∈ cl_toRemove (collapseLoop COLLAPSE_FUEL g (mkCollapse [(wx, wy, wz)] [] [])).
Proof.
  intros Hs Hreg Hlen.
  set (st0 := mkCollapse [(wx, wy, wz)] [] []).
  assert (Hi0 : collapseInv g (wx, wy, wz) st0).
  { unfold collapseInv, st0. cbn.
    split; [apply NoDup_nil_2 |]. split; [apply NoDup_nil_2 |].
    split; [intros c Hc; by apply elem_of_nil in Hc |].
    split; [lia |]. split; [unfold COLLAPSE_CAP; lia |].
    split; [intros c Hc; by apply elem_of_nil in Hc |].
    intros q Hq. apply list_elem_of_singleton in Hq. by left. }
  assert (Hf0 : collapseFront g (wx, wy, wz) st0).
  { unfold collapseFront, st0. cbn.
    split; [right; by apply list_elem_of_singleton |].
    split; [intros c c' Hc; by apply elem_of_nil in Hc |].
    split; intros c Hc; by apply elem_of_nil in Hc. }
  pose proof (collapseLoop_inv COLLAPSE_FUEL g _ st0 Hi0) as (Hv & _).
  pose proof (collapseLoop_front COLLAPSE_FUEL g _ st0 Hi0 Hf0) as Hf.
  pose proof (collapseLoop_exits g wx wy wz) as Hexit. fold st0 in Hexit.
  apply (collapseFront_complete g _ _ Hf).
  destruct Hf as (_ & _ & _ & Hvis).
  assert (Hsub : cl_visited (collapseLoop COLLAPSE_FUEL g st0) ⊆+ region).
  { apply NoDup_submseteq; [done |]. intros v Hin.
    destruct (Hvis v Hin) as [-> | (c & Hc & Ha)]; [done | by apply (Hreg c)]. }
  apply submseteq_length in Hsub.
  unfold collapseGuard in Hexit.
  destruct (cl_queue (collapseLoop COLLAPSE_FUEL g st0)); [done |].
  apply Z.ltb_ge in Hexit. unfold COLLAPSE_CAP in Hexit. lia.
Qed.

(** [collapseTree(wx, wy, wz)] fells one tree and nothing else.  The cells it
    clears are at most 200, all hold a log or leaves, and each is joined to
    the start cell by a chain of face-sharing log or leaf cells; the start
    cell itself is cleared when it holds one.  When the start cell, the tree
    and the cells that touch the tree fit in a region of fewer than 200
    cells, the whole tree comes down: every cell joined to the start cell by
    such a chain is cleared.  A cleared cell reads AIR, every other cell is
    unchanged.  The felled blocks drop no item and no block event is handed
    to [onBlockChanged]. *)
Theorem collapseTree_fells_one_tree (g : Game) (wx wy wz : Z) :
  let g' := collapseTree g wx wy wz in
  ∃ removed : list (Z * Z * Z),
    NoDup removed ∧ (length removed <= 200)%nat ∧
    (∀ c, c ∈ removed → treePath g (wx, wy, wz) c) ∧
    (isTreeBlock (getBlockAtLoaded g wx wy wz) = true → (wx, wy, wz) ∈ removed) ∧
    (∀ region : list (Z * Z * Z),
       (wx, wy, wz) ∈ region →
       (∀ c c', treePath g (wx, wy, wz) c → adjacent c c' → c' ∈ region) →
       (length region < 200)%nat →
       ∀ c, treePath g (wx, wy, wz) c → c ∈ removed) ∧
    (∀ x y z, getBlockAtLoaded g' x y z =
       if bool_decide ((x, y, z) ∈ removed) then BlockType.AIR
       else getBlockAtLoaded g x y z) ∧
    blockEvents g' = blockEvents g ∧ droppedItems g' = droppedItems g ∧
    fallingBlocks g' = fallingBlocks g.
Proof.
  intros g'.
  set (st0 := mkCollapse [(wx, wy, wz)] [] []).
  assert (Hi0 : collapseInv g (wx, wy, wz) st0).
  { unfold collapseInv, st0. cbn.
    split; [apply NoDup_nil_2 |]. split; [apply NoDup_nil_2 |].
    split; [intros c Hc; by apply elem_of_nil in Hc |].
    split; [lia |]. split; [unfold COLLAPSE_CAP; lia |].
    split; [intros c Hc; by apply elem_of_nil in Hc |].
    intros q Hq. apply list_elem_of_singleton in Hq. by left. }
  pose proof (collapseLoop_inv COLLAPSE_FUEL g _ st0 Hi0)
    as (Hv & Hr & Hsub & Hlen & Hcap & Hpath & _).
  exists (cl_toRemove (collapseLoop COLLAPSE_FUEL g st0)).
  split; [done |]. split; [unfold COLLAPSE_CAP in Hcap; lia |]. split; [done |].
  split; [by apply collapseTree_start |].
  split; [intros region; apply collapseTree_whole |].
  split; [intros x y z; apply collapseTree_read |].
  apply collapseTree_quiet.
Qed.
(** ** The fluid tick *)

Lemma fills_refl (b : BlockType) : fills b b.
Proof. by left. Qed.

Lemma fills_trans (a b c : BlockType) : fills a b → fills b c → fills a c.
Proof.
  unfold fills. intros [-> | [-> ->]] [-> | [Hb ->]]; auto.
Qed.

Lemma fills_water (b : BlockType) : fills BlockType.WATER b → b = BlockType.WATER.
Proof. intros [-> | [H _]]; [done | discriminate H]. Qed.

Lemma setLoadedBlockFast_quiet (g : Game) (x y z : Z) (t : BlockType) (rb : list (Z * Z)) :
  blockEvents (fst (fst (setLoadedBlockFast g x y z t rb))) = blockEvents g ∧
  fallingBlocks (fst (fst (setLoadedBlockFast g x y z t rb))) = fallingBlocks g ∧
  waterFlowActive (fst (fst (setLoadedBlockFast g x y z t rb))) = waterFlowActive g.
Proof. unfold setLoadedBlockFast. by repeat case_match. Qed.

Lemma spreadStep_quiet (x y z : Z) (st : Spread) (d : Z * Z) :
  blockEvents (sp_game (spreadStep x y z st d)) = blockEvents (sp_game st) ∧
  fallingBlocks (sp_game (spreadStep x y z st d)) = fallingBlocks (sp_game st).
Proof.
  unfold spreadStep.
  destruct (sp_spreads st >=? 2); [done |].
  destruct (negb _); [done |].
  destruct (_ =? BlockType.AIR); [done |].
  pose proof (setLoadedBlockFast_quiet (sp_game st) (x + fst d) y (z + snd d)
                BlockType.WATER (sp_rebuild st)) as (He & Hf & _).
  destruct (setLoadedBlockFast _ _ _ _ _ _) as [[g1 rb1] prev]. cbn [fst] in He, Hf.
  destruct prev as [p |]; [| done]. by destruct (p =? BlockType.AIR).
Qed.

Lemma flowCell_quiet (g : Game) (rb : list (Z * Z)) (c : Z * Z * Z) :
  blockEvents (fst (fst (flowCell g rb c))) = blockEvents g ∧
  fallingBlocks (fst (fst (flowCell g rb c))) = fallingBlocks g.
Proof.
  destruct c as [[x y] z]. unfold flowCell.
  destruct (negb _); [done |].
  destruct ((y >? 0) && _).
  - pose proof (setLoadedBlockFast_quiet g x (y - 1) z BlockType.WATER rb) as (He & Hf & _).
    destruct (setLoadedBlockFast _ _ _ _ _ _) as [[g1 rb1] prev]. cbn [fst] in He, Hf.
    destruct prev as [p |]; [| done]. by destruct (p =? BlockType.AIR).
  - assert (H : ∀ ds st,
              blockEvents (sp_game (fold_left (spreadStep x y z) ds st))
              = blockEvents (sp_game st) ∧
              fallingBlocks (sp_game (fold_left (spreadStep x y z) ds st))
              = fallingBlocks (sp_game st)).
    { induction ds as [| d ds IH]; intros st; [done |].
      cbn [fold_left]. destruct (IH (spreadStep x y z st d)) as [-> ->].
      apply spreadStep_quiet. }
    destruct (H dirs4 (mkSpread g rb 0 false)) as [He Hf]. cbn [sp_game] in He, Hf.
    by destruct (sp_changed _).
Qed.

(** One dequeued entry keeps the invariant of the tick. *)
Lemma flowCell_fills (g : Game) (rb : list (Z * Z)) (c : Z * Z * Z) :
  let g' := fst (fst (flowCell g rb c)) in
  (∀ x y z, fills (getBlockAtLoaded g x y z) (getBlockAtLoaded g' x y z)) ∧
  (∀ q, q ∈ waterFlowActive g' →
     q ∈ waterFlowActive g ∨ (let '(x, y, z) := q in getBlockAtLoaded g' x y z) = BlockType.WATER).
Proof.
  destruct c as [[x y] z]. intros g'.
  destruct (Z.eq_dec (getBlockAtLoaded g x y z) BlockType.WATER) as [Hw | Hnw].
  2: { assert (Hg : g' = g).
       { unfold g', flowCell.
         by destruct (Z.eqb_spec (getBlockAtLoaded g x y z) BlockType.WATER). }
       rewrite Hg. split; [intros; apply fills_refl | auto]. }
  destruct (non_air_loaded g x y z) as [Hy Hc]; [by rewrite Hw |].
  destruct (decide (0 < y ∧ getBlockAtLoaded g x (y - 1) z = BlockType.AIR))
    as [[Hy0 Hb] | Hnot].
  - destruct (flowCell_gravity g rb x y z Hw Hy0 Hb) as [Hcs Hq]. fold g' in Hcs, Hq.
    assert (Hy' : vertOut (y - 1) = false).
    { apply vertOut_false. apply vertOut_false in Hy. lia. }
    assert (Hread : ∀ x' y' z', getBlockAtLoaded g' x' y' z' =
              if decide ((x', y', z') = (x, y - 1, z)) then BlockType.WATER
              else getBlockAtLoaded g x' y' z').
    { intros x' y' z'. by rewrite !getBlockAtLoaded_read, Hcs, readVoxel_writeVoxel. }
    split.
    + intros x' y' z'. rewrite Hread. destruct (decide _) as [Heq | _]; [| apply fills_refl].
      injection Heq as -> -> ->. right. by rewrite Hb.
    + intros [[qx qy] qz]. rewrite Hq, !set_add_elem. intros [Heq | [Heq | Hin]]; [| | by left].
      * injection Heq as -> -> ->. right. rewrite Hread.
        destruct (decide _); [done | exact Hw].
      * injection Heq as -> -> ->. right. rewrite Hread. by rewrite decide_True.
  - destruct (flowCell_lateral g rb x y z Hw Hnot) as [Hcs Hq]. fold g' in Hcs, Hq.
    set (cells := spreadTargets g (lateralCells x y z)) in *.
    assert (Hsub : ∀ c, c ∈ cells → c ∈ lateralCells x y z ∧ canSpreadInto g c = true).
    { intros c Hin. apply filter_sub. unfold cells, spreadTargets in Hin.
      by apply (subseteq_take 2) in Hin. }
    assert (Hall : Forall (fun c : Z * Z * Z => let '(cx, cy, cz) := c in
                     vertOut cy = false
                     ∧ is_Some (chunks g !! chunkKey (chunkCoord cx) (chunkCoord cz)))
                     cells).
    { apply Forall_forall. intros [[ax ay] az] Ha. apply Hsub in Ha as [Ha1 Ha2].
      apply lateral_same_height in Ha1. simpl in Ha1. subst ay.
      split; [done |]. by apply canSpreadInto_loaded in Ha2. }
    assert (Hread : ∀ x' y' z', getBlockAtLoaded g' x' y' z' =
              if decide ((x', y', z') ∈ cells) then BlockType.WATER
              else getBlockAtLoaded g x' y' z').
    { intros x' y' z'. by rewrite !getBlockAtLoaded_read, Hcs, readVoxel_waterCells. }
    split.
    + intros x' y' z'. rewrite Hread. destruct (decide _) as [Hin | _]; [| apply fills_refl].
      right. split; [| done]. apply Hsub in Hin as [_ Hcan].
      unfold canSpreadInto in Hcan. apply andb_true_iff in Hcan as [Ha _].
      by apply Z.eqb_eq in Ha.
    + intros [[qx qy] qz]. rewrite Hq. destruct (bool_decide (cells = [])); [by left |].
      rewrite set_add_elem, queued_elem. intros [Heq | [Hin | Hin]]; [| | by left].
      * injection Heq as -> -> ->. right. rewrite Hread.
        destruct (decide _); [done | exact Hw].
      * right. rewrite Hread. by rewrite decide_True.
Qed.

Lemma flowCell_inv (g0 g : Game) (rb : list (Z * Z)) (c : Z * Z * Z) :
  flowInv g0 g → flowInv g0 (fst (fst (flowCell g rb c))).
Proof.
  intros (Hf & Hq & He & Hfb).
  destruct (flowCell_fills g rb c) as [Hf' Hq'].
  destruct (flowCell_quiet g rb c) as [He' Hfb'].
  split; [| split; [| split]].
  - intros x y z. eapply fills_trans; [apply Hf | apply Hf'].
  - intros x y z Hin. destruct (Hq' _ Hin) as [Hold | Hnew]; [| exact Hnew].
    apply fills_water. rewrite <- (Hq x y z Hold). apply Hf'.
  - by rewrite He'.
  - by rewrite Hfb'.
Qed.

Lemma waterFlowActive_rebuildChunkSet (g : Game) (keys : list (Z * Z)) :
  waterFlowActive (rebuildChunkSet g keys) = waterFlowActive g.
Proof.
  unfold rebuildChunkSet. revert g.
  induction keys as [| k keys IH]; intros g; [done |].
  cbn [fold_left]. rewrite IH. by destruct (chunks g !! k).
Qed.

(** A fluid tick only ever turns AIR into WATER: after [updateWaterFlow]
    every cell holds the block it held before, or held AIR and now holds
    WATER.  Every entry left in the work queue is a cell that holds WATER.
    A tick with an empty queue changes nothing.  The tick hands no block
    event to [onBlockChanged] and spawns no falling block. *)
Theorem updateWaterFlow_only_adds_water (g : Game) :
  let g' := updateWaterFlow g in
  (∀ x y z, getBlockAtLoaded g' x y z = getBlockAtLoaded g x y z
            ∨ (getBlockAtLoaded g x y z = BlockType.AIR
               ∧ getBlockAtLoaded g' x y z = BlockType.WATER)) ∧
  (∀ x y z, (x, y, z) ∈ waterFlowActive g' → getBlockAtLoaded g' x y z = BlockType.WATER) ∧
  (waterFlowActive g = [] → g' = g) ∧
  blockEvents g' = blockEvents g ∧ fallingBlocks g' = fallingBlocks g.
Proof.
  intros g'.
  assert (Hinv : flowInv g g' ∧ (waterFlowActive g = [] → g' = g)).
  { unfold g', updateWaterFlow.
    destruct (waterFlowActive g) as [| c0 pending0] eqn:Hp.
    { split; [| done]. split; [intros; apply fills_refl |]. split; [| done].
      intros x y z Hin. rewrite Hp in Hin. by apply elem_of_nil in Hin. }
    split; [| done].
    set (g0 := set_waterFlowActive [] g).
    assert (H0 : flowInv g g0).
    { split; [intros; apply fills_refl |]. split; [| done].
      intros x y z Hin. by apply elem_of_nil in Hin. }
    generalize (c0 :: pending0) as pending. intros pending.
    set (maxUpdates := if lowEndDevice g0 then 64 else 140).
    assert (H : ∀ pending (st : Game * list (Z * Z) * Z),
              flowInv g (fst (fst st)) →
              flowInv g (fst (fst (fold_left
                (fun (st : Game * list (Z * Z) * Z) c =>
                   let '(g, rebuild, processed) := st in
                   if processed <? maxUpdates then
                     let '(g, rebuild, counted) := flowCell g rebuild c in
                     (g, rebuild, if counted then processed + 1 else processed)
                   else st) pending st)))).
    { clear. induction pending as [| c pending IH]; intros st Hst; [done |].
      cbn [fold_left]. apply IH. destruct st as [[g1 rb1] n1]. cbn [fst] in Hst.
      destruct (n1 <? maxUpdates); [| done].
      pose proof (flowCell_inv g g1 rb1 c Hst) as Hc.
      by destruct (flowCell g1 rb1 c) as [[g2 rb2] counted]. }
    specialize (H pending (g0, [], 0) H0).
    destruct (fold_left _ pending (g0, [], 0)) as [[g1 rb1] n1]. cbn [fst] in H.
    destruct rb1 as [| k rb1]; [done |].
    destruct H as (Hf & Hq & He & Hfb).
    split; [| split; [| split]].
    - intros x y z.
      rewrite (getBlockAtLoaded_chunks g1 (rebuildChunkSet g1 (k :: rb1)));
        [apply Hf | apply chunks_rebuildChunkSet].
    - intros x y z. rewrite waterFlowActive_rebuildChunkSet.
      rewrite (getBlockAtLoaded_chunks g1 (rebuildChunkSet g1 (k :: rb1)));
        [apply Hq | apply chunks_rebuildChunkSet].
    - by rewrite blockEvents_rebuildChunkSet.
    - by rewrite fallingBlocks_rebuildChunkSet. }
  destruct Hinv as [(Hf & Hq & He & Hfb) Hnil].
  split; [exact Hf |]. split; [exact Hq |]. split; [exact Hnil |]. split; [exact He | exact Hfb].
Qed.
(** ** The range of the signal *)

Lemma powerLevels_read (pw : gmap (Z * Z * Z) Z) (x y z : Z) :
  powerLevels pw → 0 <= getRedstonePower pw x y z <= 15.
Proof.
  intros H. unfold getRedstonePower.
  destruct (pw !! (x, y, z)) as [v |] eqn:E; cbn; [apply H in E; lia | lia].
Qed.

Lemma powerLevels_set (pw : gmap (Z * Z * Z) Z) (x y z p : Z) :
  powerLevels pw → p <= 15 → powerLevels (setRSPower pw x y z p).
Proof.
  intros H Hp k v. unfold setRSPower. destruct (Z.gtb_spec p 0).
  - destruct (decide (k = (x, y, z))) as [-> | Hne].
    + rewrite lookup_insert_eq. intros [= <-]. lia.
    + rewrite lookup_insert_ne by done. apply H.
  - intros Hl. apply lookup_delete_Some in Hl as [_ Hl]. by apply H in Hl.
Qed.

Lemma relax_levels (g : Game) (cur : Z * Z * Z) (cp : Z) (q : list QItem)
    (pw : gmap (Z * Z * Z) Z) (d : Z * Z * Z) :
  powerLevels pw → cp <= 15 → powerLevels (snd (relax g cur cp (q, pw) d)).
Proof.
  intros H Hcp. destruct cur as [[x y] z], d as [[dx dy] dz]. unfold relax.
  set (nb := getBlockAtLoaded g (x + dx) (y + dy) (z + dz)).
  assert (H1 : powerLevels (snd (
            if nb =? BlockType.REDSTONE_DUST then
              if cp - 1 >? getRedstonePower pw (x + dx) (y + dy) (z + dz)
              then (q ++ [(x + dx, y + dy, z + dz, cp - 1)],
                    setRSPower pw (x + dx) (y + dy) (z + dz) (cp - 1))
              else (q, pw)
            else (q, pw)))).
  { destruct (nb =? _); [| done]. destruct (_ >? _); [| done].
    cbn [snd]. apply powerLevels_set; [done | lia]. }
  destruct (if nb =? BlockType.REDSTONE_DUST then _ else _) as [q1 pw1]. cbn [snd] in H1.
  destruct (_ && _); [| done]. cbn [snd]. by apply powerLevels_set.
Qed.

Lemma bfsBody_levels (g : Game) (st : Bfs) :
  powerLevels (power st) → powerLevels (power (bfsBody g st)).
Proof.
  intros H. unfold bfsBody. destruct (queue st) as [| [[[x y] z] p] rest]; [done |].
  pose proof (powerLevels_read (power st) x y z H) as Hcp.
  destruct (_ <=? 1); [done |].
  assert (F : ∀ ds (s : list QItem * gmap (Z * Z * Z) Z),
            powerLevels (snd s) →
            powerLevels (snd (fold_left
              (relax g (x, y, z) (getRedstonePower (power st) x y z)) ds s))).
  { induction ds as [| d ds IH]; intros [q pw] Hs; [done |].
    cbn [fold_left]. apply IH. apply relax_levels; [done | lia]. }
  specialize (F dirs6 (rest, power st) H).
  by destruct (fold_left _ dirs6 _) as [q pw].
Qed.

Lemma bfsLoop_levels (n : nat) (g : Game) (st : Bfs) :
  powerLevels (power st) → powerLevels (power (bfsLoop n g st)).
Proof.
  revert st. induction n as [| n IH]; intros st H; [done |].
  cbn [bfsLoop]. destruct (bfsGuard st); [| done]. by apply IH, bfsBody_levels.
Qed.

(** A property every step of a scan keeps is kept by the scan. *)
Lemma fold_left_keeps {S A : Type} (P : S → Prop) (f : S → A → S) (l : list A) (s : S) :
  (∀ s a, P s → P (f s a)) → P s → P (fold_left f l s).
Proof.
  intros Hf. revert s. induction l as [| a l IH]; intros s Hs; [done |].
  apply IH, Hf, Hs.
Qed.

Lemma scanChunks_keeps {S : Type} (P : S → Prop) (order : list (Z * Z))
    (body : S → Z * Z → Z * Z * Z → S) (s : S) :
  (∀ s key c, P s → P (body s key c)) → P s → P (scanChunks order body s).
Proof.
  intros Hb. unfold scanChunks. apply fold_left_keeps.
  intros s' key. apply fold_left_keeps. intros s'' c. apply Hb.
Qed.

(** Every source the scan collects is queued at level 15. *)
Lemma scanSource_levels (g : Game) (oldActive : gmap (Z * Z * Z) bool) (order : list (Z * Z))
    (st : list QItem * gmap (Z * Z * Z) bool) :
  Forall (fun s : QItem => snd s = 15) (fst st) →
  Forall (fun s : QItem => snd s = 15)
    (fst (scanChunks order (scanSource g oldActive) st)).
Proof.
  apply (scanChunks_keeps (fun st => Forall (fun s : QItem => snd s = 15) (fst st))).
  clear. intros [sources active] key c H. cbn [fst] in H. unfold scanSource.
  destruct (chunks g !! key) as [chunk |]; [| done]. destruct c as [[x y] z].
  destruct (_ || _); [cbn [fst]; apply Forall_app; split; [done | by constructor] |].
  destruct (_ || _); [| done].
  destruct (default false _); [| done].
  cbn [fst]. apply Forall_app. split; [done | by constructor].
Qed.

Lemma sources_levels (sources : list QItem) (pw : gmap (Z * Z * Z) Z) :
  Forall (fun s : QItem => snd s = 15) sources → powerLevels pw →
  powerLevels (fold_left (fun pw (s : QItem) =>
                 let '(x, y, z, p) := s in setRSPower pw x y z p) sources pw).
Proof.
  revert pw. induction sources as [| [[[x y] z] p] sources IH]; intros pw Hs Hpw; [done |].
  cbn [fold_left]. apply Forall_cons in Hs as [Hp Hs]. cbn in Hp. subst p.
  apply IH; [done |]. by apply powerLevels_set.
Qed.

Lemma redstonePower_rebuildChunkSet (g : Game) (keys : list (Z * Z)) :
  redstonePower (rebuildChunkSet g keys) = redstonePower g.
Proof.
  unfold rebuildChunkSet. revert g.
  induction keys as [| k keys IH]; intros g; [done |].
  cbn [fold_left]. rewrite IH. by destruct (chunks g !! k).
Qed.

Lemma redstonePower_queueWaterAround (g : Game) (x y z : Z) :
  redstonePower (queueWaterAround g x y z) = redstonePower g.
Proof.
  assert (H : ∀ g x y z, redstonePower (queueWaterAt g x y z) = redstonePower g).
  { intros. unfold queueWaterAt. by repeat case_match. }
  unfold queueWaterAround. by rewrite !H.
Qed.

Lemma redstonePower_explodeTNT (g : Game) (x y z : Z) :
  redstonePower (explodeTNT g x y z) = redstonePower g.
Proof.
  unfold explodeTNT.
  assert (H : ∀ cells st,
            redstonePower (fst (fold_left (explodeTNT_cell x y z 4) cells st))
            = redstonePower (fst st)).
  { induction cells as [| d cells IH]; intros st; [done |].
    cbn [fold_left]. rewrite IH. destruct st as [g1 rb], d as [[dx dy] dz].
    unfold explodeTNT_cell. repeat case_match; cbn [fst]; try done.
    by rewrite redstonePower_queueWaterAround. }
  specialize (H (cube 4) (g, [])). destruct (fold_left _ _ _) as [g1 rb1].
  by rewrite redstonePower_rebuildChunkSet.
Qed.

Lemma redstonePower_scanTrigger (order : list (Z * Z))
    (st : Game * gmap (Z * Z * Z) bool) :
  redstonePower (fst (scanChunks order scanTrigger st)) = redstonePower (fst st).
Proof.
  apply (scanChunks_keeps
           (fun s : Game * gmap (Z * Z * Z) bool =>
              redstonePower (fst s) = redstonePower (fst st))); [| done].
  clear. intros [g nps] key c H. cbn [fst] in H. unfold scanTrigger.
  destruct (chunks g !! key) as [chunk |]; [| done]. destruct c as [[x y] z].
  destruct (negb _); [done |]. cbn [fst].
  destruct (_ && _); [| done].
  destruct (_ =? BlockType.COMMAND_BLOCK); [by destruct (default false _) |].
  destruct (_ =? BlockType.TNT); [by rewrite redstonePower_explodeTNT |].
  by destruct (_ =? BlockType.NOTE_BLOCK).
Qed.

Lemma redstonePower_rebuildAllMeshed (g : Game) :
  redstonePower (rebuildAllMeshed g) = redstonePower g.
Proof.
  unfold rebuildAllMeshed. generalize (chunkOrder g) as keys. revert g.
  assert (H : ∀ keys g,
            redstonePower (fold_left (fun g key =>
               match chunks g !! key with
               | Some _ => if decide (key ∈ chunkMeshes g) then buildChunkMesh g key else g
               | None => g
               end) keys g) = redstonePower g).
  { induction keys as [| k keys IH]; intros g; [done |].
    cbn [fold_left]. rewrite IH. destruct (chunks g !! k); [| done]. by destruct (decide _). }
  intros g keys. apply H.
Qed.

(** The levels [updateRedstone] leaves behind are the ones its relaxation
    computed. *)
Lemma redstonePower_updateRedstone (g : Game) :
  redstonePower (updateRedstone g) =
  let sources := fst (scanChunks (chunkOrder g) (scanSource g (redstoneActive g)) ([], ∅)) in
  power (bfsLoop (Z.to_nat BFS_CAP) g
           (mkBfs sources 0
              (fold_left (fun pw (s : QItem) =>
                 let '(x, y, z, p) := s in setRSPower pw x y z p) sources ∅))).
Proof.
  unfold updateRedstone.
  destruct (scanChunks (chunkOrder g) (scanSource g (redstoneActive g)) ([], ∅))
    as [sources active]. cbn [fst].
  set (bfs := bfsLoop _ _ _).
  destruct (scanChunks _ (scanLamp _ _) _) as [needsRebuild active'].
  pose proof (redstonePower_scanTrigger
                (chunkOrder (set_redstoneActive active' (set_redstonePower (power bfs) g)))
                (set_redstoneActive active' (set_redstonePower (power bfs) g), ∅)) as H.
  destruct (scanChunks _ scanTrigger _) as [g1 nps]. cbn [fst] in H.
  destruct needsRebuild; [rewrite redstonePower_rebuildAllMeshed |]; exact H.
Qed.

(** After a signal refresh every level read by [getRedstonePower] is between
    0 and 15, and a level that is stored is at least 1: a cell without signal
    has no entry.  The levels left from the previous refresh play no part. *)
Theorem updateRedstone_levels_in_range (g : Game) (x y z : Z) :
  0 <= getRedstonePower (redstonePower (updateRedstone g)) x y z <= 15 ∧
  (∀ v, redstonePower (updateRedstone g) !! (x, y, z) = Some v → 1 <= v <= 15).
Proof.
  assert (H : powerLevels (redstonePower (updateRedstone g))).
  { rewrite redstonePower_updateRedstone. cbn zeta.
    apply bfsLoop_levels. cbn [power].
    apply sources_levels; [| intros k v Hk; by rewrite lookup_empty in Hk].
    by apply scanSource_levels. }
  split; [by apply powerLevels_read | intros v; apply H].
Qed.
(** ** Remote edits: the last event for a cell decides *)

Lemma readVoxel_appliedEvent (d : BlockType) (cs : gmap (Z * Z) ChunkData) (ev : BlockEvent)
    (x y z : Z) :
  vertOut y = false → is_Some (cs !! chunkKey (chunkCoord x) (chunkCoord z)) →
  readVoxel d (appliedEvent cs ev) x y z =
  if addresses x y z ev then ev_type ev mod 256 else readVoxel d cs x y z.
Proof.
  intros Hy Hc. unfold appliedEvent, addresses.
  destruct (Z.eqb_spec (ev_x ev) x) as [Hx | Hx]; cbn [andb].
  2: { destruct (vertOut (ev_y ev)); [done |].
       apply readVoxel_writeVoxel_other. intros [= E _ _]. by destruct Hx. }
  destruct (Z.eqb_spec (ev_y ev) y) as [Hy' | Hy']; cbn [andb].
  2: { destruct (vertOut (ev_y ev)); [done |].
       apply readVoxel_writeVoxel_other. intros [= _ E _]. by destruct Hy'. }
  destruct (Z.eqb_spec (ev_z ev) z) as [Hz | Hz].
  2: { destruct (vertOut (ev_y ev)); [done |].
       apply readVoxel_writeVoxel_other. intros [= _ _ E]. by destruct Hz. }
  rewrite Hx, Hy', Hz, Hy. rewrite readVoxel_writeVoxel by done. by rewrite decide_True.
Qed.

Lemma appliedEvent_loaded (cs : gmap (Z * Z) ChunkData) (ev : BlockEvent) (k : Z * Z) :
  is_Some (appliedEvent cs ev !! k) ↔ is_Some (cs !! k).
Proof.
  unfold appliedEvent. destruct (vertOut _); [done |]. apply writeVoxel_loaded.
Qed.

Lemma appliedEvents_loaded (events : list BlockEvent) (cs : gmap (Z * Z) ChunkData)
    (k : Z * Z) :
  is_Some (fold_left appliedEvent events cs !! k) ↔ is_Some (cs !! k).
Proof.
  revert cs. induction events as [| ev events IH]; intros cs; [done |].
  cbn [fold_left]. rewrite IH. apply appliedEvent_loaded.
Qed.

Lemma readVoxel_appliedEvents (d : BlockType) (events : list BlockEvent)
    (cs : gmap (Z * Z) ChunkData) (x y z : Z) :
  vertOut y = false → is_Some (cs !! chunkKey (chunkCoord x) (chunkCoord z)) →
  readVoxel d (fold_left appliedEvent events cs) x y z =
  match last (List.filter (addresses x y z) events) with
  | Some ev => ev_type ev mod 256
  | None => readVoxel d cs x y z
  end.
Proof.
  intros Hy Hc. induction events as [| ev events IH] using rev_ind; [done |].
  rewrite fold_left_app. cbn [fold_left].
  rewrite readVoxel_appliedEvent by (by rewrite ?appliedEvents_loaded).
  rewrite List.filter_app. cbn [List.filter].
  destruct (addresses x y z ev).
  - by rewrite last_snoc.
  - by rewrite app_nil_r.
Qed.

Lemma applyMultiplayerBlockEvent_quiet (st : Game * list (Z * Z)) (ev : BlockEvent) :
  blockEvents (fst (applyMultiplayerBlockEvent st ev)) = blockEvents (fst st) ∧
  fallingBlocks (fst (applyMultiplayerBlockEvent st ev)) = fallingBlocks (fst st).
Proof.
  destruct st as [g rb]. unfold applyMultiplayerBlockEvent.
  destruct (chunks g !! _) as [chunk |]; [| done].
  destruct (vertOut _); [done |]. cbn [fst].
  assert (Hq : ∀ g x y z, blockEvents (queueWaterAt g x y z) = blockEvents g
                          ∧ fallingBlocks (queueWaterAt g x y z) = fallingBlocks g).
  { intros. by rewrite blockEvents_queueWaterAt, fallingBlocks_queueWaterAt. }
  assert (Hc : ∀ g b, blockEvents (checkRS g b) = blockEvents g).
  { intros. unfold checkRS. by destruct (includes _ _). }
  destruct (_ =? BlockType.WATER).
  - destruct (Hq (queueWaterAround
                   (checkRS (checkRS (storeChunk g
                      (chunkKey (chunkCoord (ev_x ev)) (chunkCoord (ev_z ev)))
                      (setBlock chunk (wrapLocal (ev_x ev)) (ev_y ev) (wrapLocal (ev_z ev))
                         (ev_type ev)))
                      (getBlock chunk (wrapLocal (ev_x ev)) (ev_y ev) (wrapLocal (ev_z ev))))
                      (ev_type ev)) (ev_x ev) (ev_y ev) (ev_z ev))
                (ev_x ev) (ev_y ev) (ev_z ev)) as [-> ->].
    by rewrite blockEvents_queueWaterAround, fallingBlocks_queueWaterAround, !Hc,
      !fallingBlocks_checkRS.
  - by rewrite blockEvents_queueWaterAround, fallingBlocks_queueWaterAround, !Hc,
      !fallingBlocks_checkRS.
Qed.

(** [applyMultiplayerBlockEvents] replays a batch of remote edits in order.
    For a cell of a loaded chunk inside the vertical range the last event of
    the batch that addresses the cell decides what it holds (its type, cut to
    a byte); a cell no event addresses is unchanged.  Events for a chunk that
    is not loaded or for a height outside 0..79 are skipped.  A replayed edit
    is not handed to [onBlockChanged] again and spawns no falling block, even
    for SAND or GRAVEL. *)
Theorem applyMultiplayerBlockEvents_last_event_decides (g : Game) (events : list BlockEvent)
    (x y z : Z) :
  let g' := applyMultiplayerBlockEvents g events in
  (0 <= y < 80 → is_Some (chunks g !! chunkKey (chunkCoord x) (chunkCoord z)) →
     getBlockAt g' x y z =
     match last (List.filter (addresses x y z) events) with
     | Some ev => ev_type ev mod 256
     | None => getBlockAt g x y z
     end) ∧
  (y < 0 ∨ 80 <= y ∨ chunks g !! chunkKey (chunkCoord x) (chunkCoord z) = None →
     getBlockAt g' x y z = getBlockAt g x y z) ∧
  (∀ k, is_Some (chunks g' !! k) ↔ is_Some (chunks g !! k)) ∧
  blockEvents g' = blockEvents g ∧ fallingBlocks g' = fallingBlocks g.
Proof.
  intros g'.
  assert (Hcs : chunks g' = fold_left appliedEvent events (chunks g))
    by apply chunks_applyMultiplayerBlockEvents.
  split; [| split; [| split]].
  - intros Hy Hc. rewrite !getBlockAt_read, Hcs.
    apply readVoxel_appliedEvents; [by apply vertOut_false | done].
  - intros H. rewrite !getBlockAt_read, Hcs. unfold readVoxel.
    destruct (vertOut y) eqn:Hy; [done |].
    apply vertOut_false in Hy. destruct H as [H | [H | H]]; [unfold CHUNK_HEIGHT in Hy; lia.. |].
    rewrite H.
    destruct (fold_left appliedEvent events (chunks g) !! _) eqn:E; [| done].
    assert (Hs : is_Some (chunks g !! chunkKey (chunkCoord x) (chunkCoord z))).
    { apply (appliedEvents_loaded events). by rewrite E. }
    rewrite H in Hs. by destruct Hs.
  - intros k. rewrite Hcs. apply appliedEvents_loaded.
  - clear Hcs. unfold g', applyMultiplayerBlockEvents.
    assert (H : ∀ evs st,
              blockEvents (fst (fold_left applyMultiplayerBlockEvent evs st))
              = blockEvents (fst st) ∧
              fallingBlocks (fst (fold_left applyMultiplayerBlockEvent evs st))
              = fallingBlocks (fst st)).
    { induction evs as [| ev evs IH]; intros st; [done |].
      cbn [fold_left]. destruct (IH (applyMultiplayerBlockEvent st ev)) as [-> ->].
      apply applyMultiplayerBlockEvent_quiet. }
    destruct (H events (g, [])) as [He Hf].
    destruct (fold_left applyMultiplayerBlockEvent events (g, [])) as [g1 rb1].
    cbn [fst] in He, Hf.
    by rewrite blockEvents_rebuildChunkSet, fallingBlocks_rebuildChunkSet.
Qed.
(** ** Edits and their replication *)

Lemma blockEvents_checkRS (g : Game) (b : BlockType) :
  blockEvents (checkRS g b) = blockEvents g.
Proof. unfold checkRS. by destruct (includes _ _). Qed.

Lemma blockEvents_afterStore (g : Game) (x y z : Z) (t : BlockType) :
  blockEvents (afterStore g x y z t) = blockEvents g.
Proof.
  unfold afterStore.
  pose proof (setLoadedBlockFast_quiet g x y z t []) as (He & _).
  destruct (setLoadedBlockFast g x y z t []) as [[g1 rb1] prev]. cbn [fst] in He.
  by rewrite !blockEvents_checkRS, blockEvents_rebuildChunkSet.
Qed.

Lemma blockEvents_afterWrite (g : Game) (x y z : Z) (t : BlockType) :
  blockEvents (afterWrite g x y z t) = blockEvents g ++ [mkBlockEvent x y z t].
Proof.
  unfold afterWrite, onBlockChanged. cbn [blockEvents set_blockEvents].
  destruct (t =? BlockType.WATER);
    by rewrite ?blockEvents_queueWaterAt, blockEvents_queueWaterAround.
Qed.

Lemma setBlock_overwrite (chunk : ChunkData) (x y z : Z) (a b : BlockType) :
  setBlock (setBlock chunk x y z a) x y z b = setBlock chunk x y z b.
Proof.
  unfold setBlock. destruct (outOfChunk x y z) eqn:Ho; [done |].
  cbn. unfold u8_set. by rewrite insert_insert_eq.
Qed.

Lemma writeVoxel_overwrite (cs : gmap (Z * Z) ChunkData) (x y z : Z) (a b : BlockType) :
  writeVoxel (writeVoxel cs x y z a) x y z b = writeVoxel cs x y z b.
Proof.
  unfold writeVoxel.
  destruct (cs !! chunkKey (chunkCoord x) (chunkCoord z)) as [c |] eqn:Hc; [| by rewrite Hc].
  by rewrite lookup_insert_eq, insert_insert_eq, setBlock_overwrite.
Qed.

(** An edit that changes a voxel is handed to [onBlockChanged], and a peer
    that starts from the same chunks and replays what was handed over ends
    with the written type in the cell.  For a type that does not fall this is
    the local result.  For SAND, GRAVEL and ANVIL two events are handed over,
    AIR first and the type second, so the peer ends with the block in the
    cell while the local cell reads AIR. *)
Theorem setBlockAt_is_replicated (g peer : Game) (x y z : Z) (t : BlockType) :
  vertOut y = false →
  is_Some (chunks g !! chunkKey (chunkCoord x) (chunkCoord z)) →
  getBlockAtLoaded g x y z ≠ t →
  chunks peer = chunks g →
  let g' := setBlockAt g x y z t in
  let sent := (if shouldBlockFall t then [mkBlockEvent x y z BlockType.AIR] else [])
              ++ [mkBlockEvent x y z t] in
  blockEvents g' = blockEvents g ++ sent ∧
  chunks (applyMultiplayerBlockEvents peer sent) = writeVoxel (chunks g) x y z t ∧
  (shouldBlockFall t = false → chunks (applyMultiplayerBlockEvents peer sent) = chunks g') ∧
  (shouldBlockFall t = true →
     getBlockAt (applyMultiplayerBlockEvents peer sent) x y z = t mod 256 ∧
     getBlockAt g' x y z = BlockType.AIR).
Proof.
  intros Hy Hc Hne Hpeer g' sent.
  assert (Hev : blockEvents g' = blockEvents g ++ sent).
  { unfold g', sent, setBlockAt. destruct (shouldBlockFall t) eqn:Hfall.
    - rewrite setBlockAt_rec_falling by done.
      rewrite !blockEvents_afterWrite, blockEvents_afterStore.
      unfold withEntity. cbn [blockEvents set_fallingBlocks].
      by rewrite blockEvents_afterStore, <- app_assoc.
    - rewrite setBlockAt_rec_plain by done.
      by rewrite blockEvents_afterWrite, blockEvents_afterStore. }
  assert (Hrep : chunks (applyMultiplayerBlockEvents peer sent)
                 = writeVoxel (chunks g) x y z t).
  { rewrite chunks_applyMultiplayerBlockEvents, Hpeer. unfold sent.
    destruct (shouldBlockFall t); cbn [app fold_left]; unfold appliedEvent;
      cbn [ev_x ev_y ev_z ev_type]; rewrite Hy; [apply writeVoxel_overwrite | done]. }
  pose proof (setBlockAt_effect g x y z t Hy Hc Hne) as E. fold g' in E.
  split; [exact Hev |]. split; [exact Hrep |]. split.
  - intros Hfall. rewrite Hfall in E. destruct E as [-> _]. exact Hrep.
  - intros Hfall. rewrite Hfall in E. destruct E as [E _]. split.
    + rewrite getBlockAt_read, Hrep, readVoxel_writeVoxel by done. by rewrite decide_True.
    + rewrite getBlockAt_read, E, readVoxel_writeVoxel; [by rewrite decide_True | done |].
      by apply writeVoxel_loaded.
Qed.

Lemma setBlockAt_is_replicated_witness :
  blockEvents (setBlockAt stoneFloor 0 1 0 BlockType.PLANKS)
  = blockEvents stoneFloor ++ [mkBlockEvent 0 1 0 BlockType.PLANKS] ∧
  chunks (applyMultiplayerBlockEvents stoneFloor [mkBlockEvent 0 1 0 BlockType.PLANKS])
  = chunks (setBlockAt stoneFloor 0 1 0 BlockType.PLANKS).
Proof.
  assert (Hy : vertOut 1 = false) by reflexivity.
  assert (Hc : is_Some (chunks stoneFloor !! chunkKey (chunkCoord 0) (chunkCoord 0)))
    by (vm_compute; eauto).
  assert (Hne : getBlockAtLoaded stoneFloor 0 1 0 ≠ BlockType.PLANKS)
    by (vm_compute; discriminate).
  destruct (setBlockAt_is_replicated stoneFloor stoneFloor 0 1 0 BlockType.PLANKS
              Hy Hc Hne eq_refl) as (H1 & _ & H3 & _).
  split; [exact H1 | exact (H3 eq_refl)].
Defined.

(** An edit touches one cell: whatever [setBlockAt(x, y, z, type)] does,
    every other cell reads as before and no chunk is loaded or unloaded.  The
    call does nothing at all when the height is outside 0..79, when the chunk
    is not loaded, or when the cell already holds the type: no voxel changes
    and nothing is handed to [onBlockChanged]. *)
Theorem setBlockAt_touches_one_cell (g : Game) (x y z : Z) (t : BlockType) (x' y' z' : Z) :
  ((x', y', z') ≠ (x, y, z) →
     getBlockAt (setBlockAt g x y z t) x' y' z' = getBlockAt g x' y' z') ∧
  (∀ k, is_Some (chunks (setBlockAt g x y z t) !! k) ↔ is_Some (chunks g !! k)) ∧
  (y < 0 ∨ 80 <= y ∨ chunks g !! chunkKey (chunkCoord x) (chunkCoord z) = None
   ∨ getBlockAtLoaded g x y z = t → setBlockAt g x y z t = g).
Proof.
  split; [| split].
  - intros Hne. rewrite !getBlockAt_read. by apply setBlockAt_other.
  - intros k.
    destruct (vertOut y) eqn:Hy;
      [by unfold setBlockAt; rewrite setBlockAt_rec_unchanged by auto |].
    destruct (chunks g !! chunkKey (chunkCoord x) (chunkCoord z)) as [c |] eqn:Hc;
      [| by unfold setBlockAt; rewrite setBlockAt_rec_unchanged by auto].
    destruct (decide (getBlockAtLoaded g x y z = t)) as [He | Hne'];
      [by unfold setBlockAt; rewrite setBlockAt_rec_unchanged by auto |].
    assert (Hc' : is_Some (chunks g !! chunkKey (chunkCoord x) (chunkCoord z)))
      by (rewrite Hc; eauto).
    pose proof (setBlockAt_effect g x y z t Hy Hc' Hne') as E.
    destruct (shouldBlockFall t); destruct E as [-> _]; by rewrite !writeVoxel_loaded.
  - intros H. unfold setBlockAt. apply setBlockAt_rec_unchanged.
    destruct H as [H | [H | [H | H]]]; [left | left | by right; left | by right; right];
      apply vertOut_true; unfold CHUNK_HEIGHT; lia.
Qed.
(** ** Breaking a block in creative mode *)

(** The state [finishBreakingBlock] has reached before it looks at the tree
    above. *)
Lemma finishBreakingBlock_unfold (g : Game) (px py pz : Z) (chunk : ChunkData)
    (existing : BlockType) :
  chunks g !! chunkKey (chunkCoord px) (chunkCoord pz) = Some chunk →
  existing ≠ BlockType.AIR →
  ∃ g3,
    finishBreakingBlock g px py pz (chunkKey (chunkCoord px) (chunkCoord pz))
      (wrapLocal px) (wrapLocal pz) existing
    = clearBreakState (if isTreeBase g px py pz existing
                       then collapseTree g3 px (py + 1) pz else g3) ∧
    chunks g3 = writeVoxel (chunks g) px py pz BlockType.AIR ∧
    droppedItems g3 = droppedItems g ++ [mkDroppedItem (px, py, pz) existing] ∧
    blockEvents g3 = blockEvents g ++ [mkBlockEvent px py pz BlockType.AIR] ∧
    fallingBlocks g3 = fallingBlocks g.
Proof.
  intros Hc Hne. unfold finishBreakingBlock.
  replace (negb (existing =? BlockType.AIR)) with true
    by (symmetry; by apply negb_true_iff, Z.eqb_neq).
  change (chunks (spawnDroppedItem g existing (px, py, pz))) with (chunks g).
  rewrite Hc.
  eexists. split; [reflexivity |].
  assert (Hb : ∀ g k, droppedItems (buildChunkMesh g k) = droppedItems g
                      ∧ blockEvents (buildChunkMesh g k) = blockEvents g
                      ∧ fallingBlocks (buildChunkMesh g k) = fallingBlocks g) by done.
  assert (He : ∀ g lx lz cx cz,
             droppedItems (rebuildEdge g lx lz cx cz) = droppedItems g
             ∧ blockEvents (rebuildEdge g lx lz cx cz) = blockEvents g
             ∧ fallingBlocks (rebuildEdge g lx lz cx cz) = fallingBlocks g).
  { intros. unfold rebuildEdge. by repeat case_match. }
  assert (Hr : ∀ g b, droppedItems (checkRS g b) = droppedItems g
                      ∧ fallingBlocks (checkRS g b) = fallingBlocks g).
  { intros. unfold checkRS. by destruct (includes _ _). }
  split; [| split; [| split]].
  - rewrite chunks_onBlockChanged, chunks_checkRS, chunks_rebuildEdge, chunks_buildChunkMesh.
    unfold writeVoxel. by rewrite Hc.
  - unfold onBlockChanged. cbn [droppedItems set_blockEvents].
    rewrite (proj1 (Hr _ _)), (proj1 (He _ _ _ _ _)), (proj1 (Hb _ _)). done.
  - unfold onBlockChanged. cbn [blockEvents set_blockEvents].
    rewrite blockEvents_checkRS, (proj1 (proj2 (He _ _ _ _ _))), (proj1 (proj2 (Hb _ _))). done.
  - unfold onBlockChanged. cbn [fallingBlocks set_blockEvents].
    rewrite (proj2 (Hr _ _)), (proj2 (proj2 (He _ _ _ _ _))), (proj2 (proj2 (Hb _ _))). done.
Qed.

(** In creative mode [breakBlock] breaks the targeted block at once, whatever
    tool is held: the cell reads AIR, one item of the block is dropped, one
    AIR event is handed to [onBlockChanged], and the break state is cleared.
    Unless the block was the base of a tree, no other cell changes and a peer
    that replays the event has the same chunks.  When it was the base of a
    tree the log above is felled too, and still only the one event is handed
    over. *)
Theorem breakBlock_creative_breaks_at_once (hardness : BlockType → float) (g peer : Game)
    (px py pz : Z) :
  gameMode g = creative →
  crosshairTarget g = Some (px, py, pz) →
  getBlockAtLoaded g px py pz ≠ BlockType.AIR →
  getBlockAtLoaded g px py pz ≠ BlockType.BEDROCK →
  chunks peer = chunks g →
  let b := getBlockAtLoaded g px py pz in
  let g' := breakBlock hardness g in
  getBlockAtLoaded g' px py pz = BlockType.AIR ∧
  droppedItems g' = droppedItems g ++ [mkDroppedItem (px, py, pz) b] ∧
  blockEvents g' = blockEvents g ++ [mkBlockEvent px py pz BlockType.AIR] ∧
  activeBreak g' = None ∧
  (isTreeBase g px py pz b = false →
     (∀ x y z, (x, y, z) ≠ (px, py, pz) →
        getBlockAtLoaded g' x y z = getBlockAtLoaded g x y z) ∧
     chunks (applyMultiplayerBlockEvents peer [mkBlockEvent px py pz BlockType.AIR])
     = chunks g') ∧
  (isTreeBase g px py pz b = true →
     getBlockAtLoaded g' px (py + 1) pz = BlockType.AIR ∧
     getBlockAtLoaded
       (applyMultiplayerBlockEvents peer [mkBlockEvent px py pz BlockType.AIR]) px (py + 1) pz
     = getBlockAtLoaded g px (py + 1) pz).
Proof.
  intros Hmode Htarget Hair Hbed Hpeer b g'.
  destruct (non_air_loaded g px py pz Hair) as [Hy [chunk Hc]].
  assert (Hex : getBlock chunk (wrapLocal px) py (wrapLocal pz) = b).
  { unfold b, getBlockAtLoaded. by rewrite Hy, Hc. }
  destruct (finishBreakingBlock_unfold g px py pz chunk b Hc Hair)
    as (g3 & Hfin & Hcs & Hdrop & Hev & Hfb).
  assert (Hg' : g' = clearBreakState (if isTreeBase g px py pz b
                                      then collapseTree g3 px (py + 1) pz else g3)).
  { unfold g', breakBlock. rewrite Htarget, Hc, Hex.
    replace (b =? BlockType.AIR) with false by (symmetry; by apply Z.eqb_neq).
    replace (b =? BlockType.BEDROCK) with false by (symmetry; by apply Z.eqb_neq).
    by rewrite Hmode. }
  assert (Hread3 : ∀ x y z, getBlockAtLoaded g3 x y z =
            if decide ((x, y, z) = (px, py, pz)) then BlockType.AIR
            else getBlockAtLoaded g x y z).
  { intros x y z. rewrite !getBlockAtLoaded_read, Hcs.
    rewrite readVoxel_writeVoxel by (by rewrite ?Hc). done. }
  assert (Hpeer' : chunks (applyMultiplayerBlockEvents peer [mkBlockEvent px py pz BlockType.AIR])
                   = writeVoxel (chunks g) px py pz BlockType.AIR).
  { rewrite chunks_applyMultiplayerBlockEvents, Hpeer. cbn [fold_left].
    unfold appliedEvent. cbn [ev_x ev_y ev_z ev_type]. by rewrite Hy. }
  destruct (collapseTree_quiet g3 px (py + 1) pz) as (Hq1 & Hq2 & _).
  pose proof (collapseTree_read g3 px (py + 1) pz) as Hct.
  rewrite Hg'. unfold clearBreakState.
  change (getBlockAtLoaded (set_activeBreak None ?h)) with (getBlockAtLoaded h).
  change (droppedItems (set_activeBreak None ?h)) with (droppedItems h).
  change (blockEvents (set_activeBreak None ?h)) with (blockEvents h).
  change (chunks (set_activeBreak None ?h)) with (chunks h).
  change (activeBreak (set_activeBreak None ?h)) with (@None ActiveBreak).
  destruct (isTreeBase g px py pz b) eqn:Hbase.
  - split; [| split; [| split; [| split; [| split]]]]; try done.
    + rewrite Hct, Hread3, decide_True by done. by destruct (bool_decide _).
    + by rewrite Hq2.
    + by rewrite Hq1.
    + intros _. split.
      * rewrite Hct. rewrite bool_decide_eq_true_2; [done |].
        apply collapseTree_start. rewrite Hread3.
        rewrite decide_False by (intros [= E]; lia).
        unfold isTreeBase in Hbase. apply andb_true_iff in Hbase as [_ Hab].
        unfold isTreeBlock. apply orb_true_iff in Hab as [-> | ->]; [done |].
        by rewrite orb_true_r.
      * rewrite getBlockAtLoaded_read, Hpeer', readVoxel_writeVoxel_other,
          <- getBlockAtLoaded_read; [done |]. intros [= E]. lia.
  - split; [| split; [| split; [| split; [| split]]]]; try done.
    + by rewrite Hread3, decide_True.
    + intros _. split.
      * intros x y z Hne. by rewrite Hread3, decide_False.
      * by rewrite Hpeer'.
Qed.

Lemma breakBlock_creative_breaks_at_once_witness :
  getBlockAtLoaded (breakBlock (fun _ => 50%float) (set_gameMode creative bedrockWorld)) 0 1 0
  = BlockType.AIR ∧
  blockEvents (breakBlock (fun _ => 50%float) (set_gameMode creative bedrockWorld))
  = [mkBlockEvent 0 1 0 BlockType.AIR].
Proof.
  assert (Ha : getBlockAtLoaded (set_gameMode creative bedrockWorld) 0 1 0 ≠ BlockType.AIR)
    by (vm_compute; discriminate).
  assert (Hb : getBlockAtLoaded (set_gameMode creative bedrockWorld) 0 1 0 ≠ BlockType.BEDROCK)
    by (vm_compute; discriminate).
  destruct (breakBlock_creative_breaks_at_once (fun _ => 50%float)
              (set_gameMode creative bedrockWorld) (set_gameMode creative bedrockWorld)
              0 1 0 eq_refl eq_refl Ha Hb eq_refl) as (H1 & _ & H3 & _).
  split; [exact H1 | exact H3].
Defined.
(** ** noise.ts: the permutation table *)

Lemma swap_lookup (p : list Z) (i j k : nat) (vi vj : Z) :
  p !! i = Some vi → p !! j = Some vj →
  swap p i j !! k =
  if decide (k = j) then Some vi else if decide (k = i) then Some vj else p !! k.
Proof.
  intros Hi Hj. unfold swap.
  rewrite (nth_lookup_Some _ _ _ _ Hi), (nth_lookup_Some _ _ _ _ Hj).
  apply lookup_lt_Some in Hi as Hli. apply lookup_lt_Some in Hj as Hlj.
  rewrite !list_lookup_insert, !length_insert.
  repeat (destruct (decide _)); try done; lia.
Qed.

Lemma swap_tableInv (p : list Z) (i j : nat) :
  (i < 256)%nat → (j < 256)%nat → tableInv p → tableInv (swap p i j).
Proof.
  intros Hi Hj (Hlen & Hnd & Hr).
  destruct (lookup_lt_is_Some_2 p i) as [vi Hvi]; [lia |].
  destruct (lookup_lt_is_Some_2 p j) as [vj Hvj]; [lia |].
  split; [| split].
  - unfold swap. by rewrite !length_insert.
  - apply NoDup_alt. intros a b x Ha Hb.
    rewrite (swap_lookup p i j a vi vj Hvi Hvj) in Ha.
    rewrite (swap_lookup p i j b vi vj Hvi Hvj) in Hb.
    pose proof (proj1 (NoDup_alt p) Hnd) as Hinj.
    repeat (destruct (decide _)); simplify_eq; try done;
      try (by (exfalso; eauto using eq_sym));
      try (by eapply Hinj).
  - intros v Hv. apply list_elem_of_lookup in Hv as [k Hk].
    rewrite (swap_lookup p i j _ vi vj Hvi Hvj) in Hk.
    repeat (destruct (decide _)); simplify_eq; apply Hr; eapply list_elem_of_lookup_2; eauto.
Qed.

Lemma shuffle_tableInv (n : nat) (s : Z) (p : list Z) :
  0 <= s → (n < 256)%nat → tableInv p → tableInv (shuffle n s p).
Proof.
  revert s p. induction n as [| n IH]; intros s p Hs Hn Hp; [done |].
  cbn [shuffle]. unfold js_mod.
  apply IH; [lia | lia |].
  apply swap_tableInv; [lia | | done].
  assert (0 <= Z.rem (Z.rem (s * 16807 + 0) 2147483647) (Z.of_nat (S n) + 1)
          < Z.of_nat (S n) + 1) by lia.
  lia.
Qed.

Lemma seqZ_tableInv : tableInv (seqZ 0 256).
Proof.
  split; [by rewrite length_seqZ |]. split; [apply NoDup_seqZ |].
  intros v Hv. apply elem_of_seqZ in Hv. lia.
Qed.

Lemma fmap_fst_tagged {A : Type} (f : Z → A) (l : list Z) :
  (map (fun i => (i, f i)) l).*1 = l.
Proof. induction l as [| a l IH]; [done |]. cbn. by rewrite IH. Qed.

Lemma perm_lookup (seed i : Z) :
  0 <= i < 512 →
  perm (newSimplexNoise seed) !! i
  = Some (nth (Z.to_nat (i mod 256)) (shuffle 255 seed (seqZ 0 256)) 0).
Proof.
  intros Hi. unfold newSimplexNoise. cbn [perm].
  replace (i mod 256) with (Z.land i 255)
    by (change 255 with (Z.ones 8); by rewrite Z.land_ones).
  apply elem_of_list_to_map_1; [rewrite fmap_fst_tagged; apply NoDup_seqZ |].
  apply list_elem_of_In, in_map_iff. exists i. split; [reflexivity |].
  apply list_elem_of_In, elem_of_seqZ. lia.
Qed.

Lemma permAt_table (seed i : Z) :
  0 <= i < 512 →
  permAt (newSimplexNoise seed) i
  = nth (Z.to_nat (i mod 256)) (shuffle 255 seed (seqZ 0 256)) 0.
Proof. intros Hi. unfold permAt. by rewrite perm_lookup. Qed.

(** The table the constructor of [SimplexNoise] builds from a seed that is
    not negative and small enough for the first product [seed * 16807] to be
    exact: its 512 entries are between 0 and 255, the second half repeats the
    first, and the first 256 entries are pairwise distinct, so the table is a
    permutation of 0..255 written twice.  Hence the six reads [noise2D] makes
    for lattice coordinates X, Y in 0..255 (at X, X + 1, perm[X] + Y,
    perm[X + 1] + Y and their successors) all fall inside the table. *)
Theorem noise_table_is_a_permutation (seed : Z) :
  0 <= seed → seed * 16807 < 2 ^ 53 →
  let n := newSimplexNoise seed in
  (∀ i, 0 <= i < 512 → is_Some (perm n !! i) ∧ 0 <= permAt n i < 256) ∧
  (∀ i, 0 <= i < 256 → permAt n (i + 256) = permAt n i) ∧
  (∀ i j, 0 <= i < 256 → 0 <= j < 256 → permAt n i = permAt n j → i = j) ∧
  (∀ X Y, 0 <= X < 256 → 0 <= Y < 256 →
     0 <= X + 1 < 512 ∧
     0 <= permAt n X + Y ∧ permAt n X + Y + 1 < 512 ∧
     0 <= permAt n (X + 1) + Y ∧ permAt n (X + 1) + Y + 1 < 512).
Proof.
  intros Hs _ n.
  pose proof (shuffle_tableInv 255 seed (seqZ 0 256) Hs ltac:(lia) seqZ_tableInv)
    as (Hlen & Hnd & Hr).
  set (p := shuffle 255 seed (seqZ 0 256)) in *.
  assert (Hat : ∀ i, 0 <= i < 512 → ∃ v, p !! Z.to_nat (i mod 256) = Some v
                                         ∧ permAt n i = v ∧ 0 <= v < 256).
  { intros i Hi. pose proof (Z.mod_pos_bound i 256 eq_refl) as Hm.
    destruct (lookup_lt_is_Some_2 p (Z.to_nat (i mod 256))) as [v Hv];
      [rewrite Hlen; clear - Hm; generalize dependent (i mod 256); intros; lia |].
    exists v. split; [done |]. split.
    - unfold n. rewrite permAt_table by done. by apply nth_lookup_Some.
    - apply Hr. eapply list_elem_of_lookup_2; eauto. }
  split; [| split; [| split]].
  - intros i Hi. destruct (Hat i Hi) as (v & _ & <- & Hv). split; [| done].
    unfold n. rewrite perm_lookup by done. eauto.
  - intros i Hi. unfold n. rewrite !permAt_table by lia.
    replace (i + 256) with (i + 1 * 256) by lia. by rewrite Z.mod_add.
  - intros i j Hi Hj Heq.
    destruct (Hat i) as (vi & Hvi & Hpi & _); [clear - Hi; lia |].
    destruct (Hat j) as (vj & Hvj & Hpj & _); [clear - Hj; lia |].
    rewrite Z.mod_small in Hvi, Hvj by done.
    assert (E : Z.to_nat i = Z.to_nat j).
    { apply (proj1 (NoDup_alt p) Hnd _ _ vi); [done |]. congruence. }
    clear - E Hi Hj. lia.
  - intros X Y HX HY.
    destruct (Hat X) as (v & _ & -> & Hv); [clear - HX; lia |].
    destruct (Hat (X + 1)) as (v' & _ & -> & Hv'); [clear - HX; lia |].
    clear - HX HY Hv Hv'. lia.
Qed.

Lemma noise_table_is_a_permutation_witness :
  permAt (newSimplexNoise 12356) (7 + 256) = permAt (newSimplexNoise 12356) 7 ∧
  0 <= permAt (newSimplexNoise 12356) 300 < 256.
Proof.
  destruct (noise_table_is_a_permutation 12356 ltac:(lia) ltac:(lia)) as (H1 & H2 & _).
  split; [apply H2; lia | apply H1; lia].
Defined.
(** ** Terrain height *)

Lemma digits2_pos_bounds (m : positive) :
  2 ^ (Z.pos (digits2_pos m) - 1) <= Z.pos m < 2 ^ Z.pos (digits2_pos m).
Proof.
  induction m as [m IH | m IH |]; cbn [digits2_pos]; [| | by cbn]; rewrite Pos2Z.inj_succ.
  - replace (Z.succ (Z.pos (digits2_pos m)) - 1) with (Z.succ (Z.pos (digits2_pos m) - 1)) by lia.
    rewrite !Z.pow_succ_r by lia. lia.
  - replace (Z.succ (Z.pos (digits2_pos m)) - 1) with (Z.succ (Z.pos (digits2_pos m) - 1)) by lia.
    rewrite !Z.pow_succ_r by lia. lia.
Qed.

Lemma SFltb_finite (s1 s2 : bool) (m1 m2 : positive) (e1 e2 : Z) :
  SFltb (S754_finite s1 m1 e1) (S754_finite s2 m2 e2) = true →
  s1 = false → s2 = false → e1 < e2 ∨ (e1 = e2 ∧ Z.pos m1 < Z.pos m2).
Proof.
  intros H -> ->. unfold SFltb, SFcompare in H.
  destruct (Z.compare_spec e1 e2) as [E | E | E]; [| by left | done].
  right. split; [done |]. rewrite Pos.compare_cont_spec in H.
  destruct (Pos.compare_spec m1 m2); [done | | done]. by apply Pos2Z.pos_lt_pos.
Qed.

(** A number strictly between 3 and 78 has its floor between 3 and 77. *)
Lemma floorZ_between (h : float) :
  PrimFloat.ltb 3 h = true → PrimFloat.ltb h 78 = true → 3 <= floorZ h <= 77.
Proof.
  rewrite !FloatAxioms.ltb_spec. intros H3 H78. pose proof (Prim2SF_valid h) as Hv.
  unfold floorZ.
  replace (Prim2SF 3) with (S754_finite false 6755399441055744 (-51)) in H3
    by (vm_compute; reflexivity).
  replace (Prim2SF 78) with (S754_finite false 5488762045857792 (-46)) in H78
    by (vm_compute; reflexivity).
  destruct (Prim2SF h) as [s | s | | s m e].
  - by destruct s.
  - by destruct s.
  - discriminate H3.
  - destruct s; [discriminate H3 |].
    apply SFltb_finite in H3; [| reflexivity..].
    apply SFltb_finite in H78; [| reflexivity..].
    unfold SpecFloat.valid_binary, bounded, canonical_mantissa, fexp, SpecFloat.emin in Hv.
    apply andb_true_iff in Hv as [Hc _]. apply Z.eqb_eq in Hc.
    change prec with 53 in Hc. change emax with 1024 in Hc.
    pose proof (digits2_pos_bounds m) as Hd.
    assert (He : -51 <= e <= -46) by (clear - H3 H78; lia).
    assert (Hdig : Z.pos (digits2_pos m) = 53) by (clear - Hc He; lia).
    rewrite Hdig in Hd. change (2 ^ (53 - 1)) with 4503599627370496 in Hd.
    change (2 ^ 53) with 9007199254740992 in Hd.
    replace (0 <=? e) with false by (symmetry; apply Z.leb_gt; clear - He; lia).
    rewrite Z.shiftr_div_pow2 by (clear - He; lia).
    clear Hc Hdig.
    assert (Hcases : e = -51 ∨ e = -50 ∨ e = -49 ∨ e = -48 ∨ e = -47 ∨ e = -46)
      by (clear - He; lia).
    destruct Hcases as [-> | [-> | [-> | [-> | [-> | ->]]]]]; cbn [Z.opp].
    + change (2 ^ 51) with 2251799813685248. clear - H3 Hd. lia.
    + change (2 ^ 50) with 1125899906842624. clear - Hd. lia.
    + change (2 ^ 49) with 562949953421312. clear - Hd. lia.
    + change (2 ^ 48) with 281474976710656. clear - Hd. lia.
    + change (2 ^ 47) with 140737488355328. clear - Hd. lia.
    + change (2 ^ 46) with 70368744177664. clear - H78 Hd. lia.
Qed.

(** The column height is clamped to [3, 78] before it is floored. *)
Lemma clamped_floor (h : float) :
  3 <= floorZ (Math_max (Z2F (BEDROCK_LEVEL + 3)) (Math_min (Z2F (CHUNK_HEIGHT - 2)) h)) <= 78.
Proof.
  change (Z2F (BEDROCK_LEVEL + 3)) with 3%float.
  change (Z2F (CHUNK_HEIGHT - 2)) with 78%float.
  unfold Math_max, Math_min.
  destruct (PrimFloat.ltb h 78) eqn:H78.
  - destruct (PrimFloat.ltb 3 h) eqn:H3.
    + pose proof (floorZ_between h H3 H78). lia.
    + replace (floorZ 3) with 3 by (vm_compute; reflexivity). lia.
  - replace (PrimFloat.ltb 3 78) with true by (vm_compute; reflexivity).
    replace (floorZ 78) with 78 by (vm_compute; reflexivity). lia.
Qed.

Lemma getTerrainHeight_range (w : WorldGen) (worldX worldZ : Z) :
  3 <= getTerrainHeight w worldX worldZ <= 78.
Proof.
  unfold getTerrainHeight. destruct (isFlat w); [by cbn |]. apply clamped_floor.
Qed.

(** [getTerrainHeight] answers a height between 3 and 78 for every column of
    every world, 30 in a flat world: the surface never reaches layer 0 and
    leaves at least one layer free below the top of the chunk. *)
Theorem getTerrainHeight_bounds (w : WorldGen) (worldX worldZ : Z) :
  BEDROCK_LEVEL + 3 <= getTerrainHeight w worldX worldZ <= CHUNK_HEIGHT - 2 ∧
  (isFlat w = true → getTerrainHeight w worldX worldZ = 30).
Proof.
  split; [apply getTerrainHeight_range |].
  intros Hf. unfold getTerrainHeight. by rewrite Hf.
Qed.
(** ** worldgen.ts: every chunk has a floor *)

Lemma fold_left_keeps_in {S A : Type} (P : S → Prop) (f : S → A → S) (l : list A) (s : S) :
  (∀ s a, a ∈ l → P s → P (f s a)) → P s → P (fold_left f l s).
Proof.
  revert s. induction l as [| a l IH]; intros s Hf Hs; [done |].
  cbn [fold_left]. apply IH.
  - intros s' a' Ha'. apply Hf. by right.
  - apply Hf; [by left | done].
Qed.

Lemma forZ_keeps {S : Type} (P : S → Prop) (lo hi : Z) (body : S → Z → S) (s : S) :
  (∀ s i, lo <= i < hi → P s → P (body s i)) → P s → P (forZ lo hi body s).
Proof.
  intros Hb. unfold forZ. apply fold_left_keeps_in.
  intros s' i Hi. apply Hb. apply elem_of_seqZ in Hi. lia.
Qed.

(** A loop establishes what one of its iterations establishes and the
    others keep. *)
Lemma forZ_establishes {S : Type} (P : S → Prop) (lo hi i0 : Z) (body : S → Z → S) (s : S) :
  lo <= i0 < hi →
  (∀ s, P (body s i0)) →
  (∀ s i, lo <= i < hi → P s → P (body s i)) →
  P (forZ lo hi body s).
Proof.
  intros Hi He Hk. unfold forZ.
  replace (hi - lo) with ((i0 - lo) + (hi - i0)) by lia.
  rewrite seqZ_app by lia. rewrite fold_left_app.
  replace (lo + (i0 - lo)) with i0 by lia.
  rewrite (seqZ_cons i0) by lia. cbn [fold_left].
  apply fold_left_keeps_in; [| apply He].
  intros s' i Hin. apply Hk. apply elem_of_seqZ in Hin. lia.
Qed.

Lemma setBlock_floor_high (x0 z0 : Z) (c : ChunkData) (x y z : Z) (t : BlockType) :
  y ≠ 0 → hasFloor x0 z0 c → hasFloor x0 z0 (setBlock c x y z t).
Proof.
  intros Hy H. unfold hasFloor. rewrite getBlock_setBlock_other; [done |].
  intros [= _ E _]. by destruct Hy.
Qed.

Lemma setBlock_floor_air (x0 z0 : Z) (c : ChunkData) (x y z : Z) (t : BlockType) :
  getBlock c x y z = BlockType.AIR → hasFloor x0 z0 c → hasFloor x0 z0 (setBlock c x y z t).
Proof.
  intros Ha H. unfold hasFloor in *. rewrite getBlock_setBlock_other; [done |].
  intros [= -> <- ->]. rewrite H in Ha. discriminate Ha.
Qed.

Lemma setBlock_floor_bedrock (x0 z0 : Z) (c : ChunkData) (x z : Z) :
  hasFloor x0 z0 c → hasFloor x0 z0 (setBlock c x 0 z BlockType.BEDROCK).
Proof.
  intros H. unfold hasFloor in *.
  destruct (decide ((x0, 0, z0) = (x, 0, z))) as [[= -> ->] | Hne].
  - destruct (outOfChunk x 0 z) eqn:Ho.
    + unfold setBlock. by rewrite Ho.
    + by rewrite getBlock_setBlock_same.
  - by rewrite getBlock_setBlock_other.
Qed.

Lemma setBlock_if_floor (x0 z0 : Z) (c : ChunkData) (b : bool) (x y z : Z) (t : BlockType) :
  (b = true → y ≠ 0) → hasFloor x0 z0 c →
  hasFloor x0 z0 (if b then setBlock c x y z t else c).
Proof. intros Hy H. destruct b; [| done]. by apply setBlock_floor_high; auto. Qed.

(** *** The terrain pass *)

Lemma fillColumn_body_floor (w : WorldGen) (x0 z0 : Z) (x z worldX worldZ height : Z)
    (chunk : ChunkData) (y : Z) :
  0 <= height → 0 <= y → hasFloor x0 z0 chunk →
  hasFloor x0 z0
    (if (y >? height) && (y <=? WATER_LEVEL) then
       setBlock chunk x y z BlockType.WATER
     else if y <=? height then
       if y =? BEDROCK_LEVEL then setBlock chunk x y z BlockType.BEDROCK
       else if y <? height - 4 then setBlock chunk x y z BlockType.STONE
       else if y <? height then setBlock chunk x y z BlockType.DIRT
       else
         let biome := fbm (biomeNoise w) (PrimFloat.mul (Z2F worldX) 0.003%float)
                        (PrimFloat.mul (Z2F worldZ) 0.003%float) 3 2%float 0.5%float in
         if height <=? WATER_LEVEL + 1 then
           let chunk := setBlock chunk x y z BlockType.SAND in
           if gt (noise2D (plantNoise w) (PrimFloat.mul (Z2F worldX) 0.1%float)
                    (PrimFloat.mul (Z2F worldZ) 0.1%float)) 0.5%float
           then setBlock chunk x y z BlockType.GRAVEL else chunk
         else if PrimFloat.ltb biome (-0.3)%float then setBlock chunk x y z BlockType.SAND
         else setBlock chunk x y z BlockType.GRASS
     else chunk).
Proof.
  intros Hh Hy H.
  destruct (Z.eqb_spec y 0) as [-> | Hy0].
  - replace (0 >? height) with false by (symmetry; rewrite Z.gtb_ltb; apply Z.ltb_ge; lia).
    cbn [andb]. replace (0 <=? height) with true by (symmetry; apply Z.leb_le; lia).
    change (0 =? BEDROCK_LEVEL) with true. cbv iota. by apply setBlock_floor_bedrock.
  - replace (y =? BEDROCK_LEVEL) with false by (symmetry; by apply Z.eqb_neq).
    repeat (match goal with
            | |- hasFloor _ _ (if ?b then _ else _) => destruct b
            | |- hasFloor _ _ (let _ := _ in _) => cbv zeta
            | |- hasFloor _ _ (setBlock _ _ _ _ _) => apply setBlock_floor_high; [done |]
            end); done.
Qed.

Lemma fillColumn_keeps_floor (w : WorldGen) (x0 z0 : Z) (chunk : ChunkData)
    (x z worldX worldZ height : Z) :
  3 <= height → hasFloor x0 z0 chunk →
  hasFloor x0 z0 (fillColumn w chunk x z worldX worldZ height).
Proof.
  intros Hh H. unfold fillColumn.
  set (filled := forZ 0 _ _ chunk).
  assert (H1 : hasFloor x0 z0 filled).
  { unfold filled. apply forZ_keeps; [| done]. intros s y Hy Hs.
    apply fillColumn_body_floor; [lia | lia | done]. }
  clearbody filled. cbv zeta.
  destruct (height <? WATER_LEVEL - 2); [| exact H1].
  destruct (gt _ _); [| exact H1]. apply setBlock_floor_high; [lia | exact H1].
Qed.

Lemma fillColumn_lays_floor (w : WorldGen) (chunk : ChunkData) (x z worldX worldZ height : Z) :
  3 <= height → 0 <= x < CHUNK_SIZE → 0 <= z < CHUNK_SIZE →
  hasFloor x z (fillColumn w chunk x z worldX worldZ height).
Proof.
  intros Hh Hx Hz. unfold fillColumn.
  set (filled := forZ 0 _ _ chunk).
  assert (H1 : hasFloor x z filled).
  { unfold filled. apply (forZ_establishes _ _ _ 0); [unfold WATER_LEVEL; lia | |].
    - intros s.
      replace (0 >? height) with false by (symmetry; rewrite Z.gtb_ltb; apply Z.ltb_ge; lia).
      cbn [andb]. replace (0 <=? height) with true by (symmetry; apply Z.leb_le; lia).
      change (0 =? BEDROCK_LEVEL) with true. cbv iota. unfold hasFloor.
      rewrite getBlock_setBlock_same; [done |].
      apply outOfChunk_false. unfold CHUNK_HEIGHT. lia.
    - intros s y Hy Hs. apply fillColumn_body_floor; [lia | lia | done]. }
  clearbody filled. cbv zeta.
  destruct (height <? WATER_LEVEL - 2); [| exact H1].
  destruct (gt _ _); [| exact H1]. apply setBlock_floor_high; [lia | exact H1].
Qed.

(** *** The cave pass *)

Lemma floor_let (x0 z0 : Z) (e : ChunkData) (f : ChunkData → ChunkData) :
  hasFloor x0 z0 e → (∀ c, hasFloor x0 z0 c → hasFloor x0 z0 (f c)) →
  hasFloor x0 z0 (let c := e in f c).
Proof. intros He Hf. by apply Hf. Qed.

Lemma carveCaves_keeps_floor (w : WorldGen) (x0 z0 : Z) (chunk : ChunkData)
    (worldOffsetX worldOffsetZ : Z) :
  hasFloor x0 z0 chunk → hasFloor x0 z0 (carveCaves w chunk worldOffsetX worldOffsetZ).
Proof.
  intros H. unfold carveCaves. destruct (isFlat w); [done |].
  apply floor_let.
  - apply forZ_keeps; [| done]. intros c1 x Hx H1.
    apply forZ_keeps; [| done]. intros c2 z Hz H2. cbv zeta.
    apply forZ_keeps; [| done]. intros c3 y Hy H3.
    unfold BEDROCK_LEVEL in Hy.
    destruct (negb _ && negb _ && negb _ && negb _); [done |].
    destruct (gt _ _ && (y <? WATER_LEVEL - 1)); [| done].
    repeat (apply setBlock_if_floor;
            [intros Hb; try (apply andb_true_iff in Hb as [_ Hb]);
             unfold BEDROCK_LEVEL in *; lia |]).
    apply setBlock_floor_high; [lia | done].
  - intros c Hc.
    apply forZ_keeps; [| done]. intros c1 x Hx H1.
    apply forZ_keeps; [| done]. intros c2 z Hz H2. cbv zeta.
    apply forZ_keeps; [| done]. intros c3 y Hy H3.
    unfold BEDROCK_LEVEL in Hy.
    destruct (_ || _ || _); [done |].
    destruct (_ >=? 3); [| done].
    apply setBlock_floor_high; [lia | done].
Qed.

(** *** The decoration passes *)

Lemma leaves_keep_floor (rnd : Oracle) (x0 z0 : Z) (tx tz : Z) (leaf : BlockType)
    (threshold : float) (y dx dz radius leafEnd : Z) (st : GenState) :
  hasFloor x0 z0 (fst st) →
  hasFloor x0 z0 (fst (
    let '(chunk, cur) := st in
    if (dx =? 0) && (dz =? 0) && (y <? leafEnd) then st
    else
      let corner := (Z.abs dx =? radius) && (Z.abs dz =? radius) in
      let '(skip, cur) :=
        if corner then
          let '(r, cur) := Math_random rnd cur in (gt r threshold, cur)
        else (false, cur) in
      if skip then (chunk, cur)
      else
        let lx := tx + dx in
        let lz := tz + dz in
        if (lx >=? 0) && (lx <? CHUNK_SIZE) && (lz >=? 0)
           && (lz <? CHUNK_SIZE) && (y <? CHUNK_HEIGHT)
        then
          if getBlock chunk lx y lz =? BlockType.AIR
          then (setBlock chunk lx y lz leaf, cur)
          else (chunk, cur)
        else (chunk, cur))).
Proof.
  destruct st as [chunk cur]. cbn [fst]. intros H.
  destruct (_ && _ && _); [done |]. cbv zeta.
  destruct (_ && _); cbn [Math_random].
  - destruct (gt _ _); [done |].
    destruct (_ && _ && _ && _ && _); [| done].
    destruct (Z.eqb_spec (getBlock chunk (tx + dx) y (tz + dz)) BlockType.AIR); [| done].
    by apply setBlock_floor_air.
  - destruct (_ && _ && _ && _ && _); [| done].
    destruct (Z.eqb_spec (getBlock chunk (tx + dx) y (tz + dz)) BlockType.AIR); [| done].
    by apply setBlock_floor_air.
Qed.

Lemma placeTree_keeps_floor (rnd : Oracle) (x0 z0 : Z) (st : GenState) (tx ty tz : Z) :
  1 <= ty → hasFloor x0 z0 (fst st) → hasFloor x0 z0 (fst (placeTree rnd st tx ty tz)).
Proof.
  intros Hty H. destruct st as [chunk cur]. cbn [fst] in H. unfold placeTree.
  cbn [Math_random]. cbv zeta.
  set (trunkHeight := 4 + floorZ _).
  set (trunk := forZ 0 trunkHeight _ chunk).
  assert (Ht : hasFloor x0 z0 trunk).
  { unfold trunk. apply forZ_keeps; [| done]. intros c y Hy Hc.
    apply setBlock_floor_high; [lia | done]. }
  clearbody trunk.
  apply (forZ_keeps (fun st => hasFloor x0 z0 (fst st))); [| done]. intros st1 y Hy H1.
  apply (forZ_keeps (fun st => hasFloor x0 z0 (fst st))); [| done]. intros st2 dx Hdx H2.
  apply (forZ_keeps (fun st => hasFloor x0 z0 (fst st))); [| done]. intros st3 dz Hdz H3.
  by apply leaves_keep_floor.
Qed.

Lemma placeBirchTree_keeps_floor (rnd : Oracle) (x0 z0 : Z) (st : GenState) (tx ty tz : Z) :
  1 <= ty → hasFloor x0 z0 (fst st) → hasFloor x0 z0 (fst (placeBirchTree rnd st tx ty tz)).
Proof.
  intros Hty H. destruct st as [chunk cur]. cbn [fst] in H. unfold placeBirchTree.
  cbn [Math_random]. cbv zeta.
  set (trunkHeight := 5 + floorZ _).
  set (trunk := forZ 0 trunkHeight _ chunk).
  assert (Ht : hasFloor x0 z0 trunk).
  { unfold trunk. apply forZ_keeps; [| done]. intros c y Hy Hc.
    apply setBlock_floor_high; [lia | done]. }
  clearbody trunk.
  apply (forZ_keeps (fun st => hasFloor x0 z0 (fst st))); [| done]. intros st1 y Hy H1.
  apply (forZ_keeps (fun st => hasFloor x0 z0 (fst st))); [| done]. intros st2 dx Hdx H2.
  apply (forZ_keeps (fun st => hasFloor x0 z0 (fst st))); [| done]. intros st3 dz Hdz H3.
  by apply leaves_keep_floor.
Qed.

Lemma treeColumn_keeps_floor (w : WorldGen) (rnd : Oracle) (x0 z0 : Z) (st : GenState)
    (x z worldX worldZ : Z) :
  hasFloor x0 z0 (fst st) → hasFloor x0 z0 (fst (treeColumn w rnd st x z worldX worldZ)).
Proof.
  intros H. unfold treeColumn. cbv zeta.
  pose proof (getTerrainHeight_range w worldX worldZ) as Hh.
  destruct (_ <=? WATER_LEVEL + 1); [done |].
  destruct (_ =? BlockType.GRASS); [| done].
  destruct (gt _ _); [| done].
  destruct (gt _ _);
    [apply placeBirchTree_keeps_floor | apply placeTree_keeps_floor]; (lia || done).
Qed.

Lemma placeStalk_keeps_floor (rnd : Oracle) (x0 z0 : Z) (st : GenState) (x z height : Z)
    (type : BlockType) :
  0 <= height → hasFloor x0 z0 (fst st) →
  hasFloor x0 z0 (fst (placeStalk rnd st x z height type)).
Proof.
  intros Hh H. destruct st as [chunk cur]. cbn [fst] in H. unfold placeStalk.
  cbn [Math_random fst]. cbv zeta. cbn [fst].
  apply forZ_keeps; [| done]. intros c cy Hcy Hc.
  apply setBlock_floor_high; [lia | done].
Qed.

Lemma flowerColumn_keeps_floor (w : WorldGen) (x0 z0 : Z) (chunk : ChunkData)
    (x z worldX worldZ height : Z) :
  0 <= height → hasFloor x0 z0 chunk →
  hasFloor x0 z0 (flowerColumn w chunk x z worldX worldZ height).
Proof.
  intros Hh H. unfold flowerColumn. cbv zeta.
  repeat (match goal with
          | |- hasFloor _ _ (if ?b then _ else _) => destruct b
          | |- hasFloor _ _ (setBlock _ _ _ _ _) => apply setBlock_floor_high; [lia |]
          end); done.
Qed.

Lemma vegetationColumn_keeps_floor (w : WorldGen) (rnd : Oracle) (x0 z0 : Z) (st : GenState)
    (x z worldX worldZ : Z) :
  hasFloor x0 z0 (fst st) →
  hasFloor x0 z0 (fst (vegetationColumn w rnd st x z worldX worldZ)).
Proof.
  intros H. destruct st as [chunk cur]. cbn [fst] in H. unfold vegetationColumn.
  pose proof (getTerrainHeight_range w worldX worldZ) as Hh.
  set (height := getTerrainHeight w worldX worldZ) in *.
  cbv zeta.
  set (lily := if _ && _ && gt _ _ then _ else chunk).
  assert (Hl : hasFloor x0 z0 lily).
  { unfold lily. destruct (_ && _ && gt _ _); [| done].
    apply setBlock_floor_high; [unfold WATER_LEVEL; lia | done]. }
  clearbody lily.
  destruct (_ && _ && gt _ _ && _); [apply placeStalk_keeps_floor; [lia | done] |].
  destruct (_ && _ && _ && gt _ _); [apply placeStalk_keeps_floor; [lia | done] |].
  destruct (_ && _); [| done].
  cbn [fst]. apply flowerColumn_keeps_floor; [lia | done].
Qed.

Lemma placeHouse_keeps_floor (x0 z0 : Z) (chunk : ChunkData) (hx hy hz : Z) :
  1 <= hy → hasFloor x0 z0 chunk → hasFloor x0 z0 (placeHouse chunk hx hy hz).
Proof.
  intros Hhy H. unfold placeHouse. cbv zeta.
  destruct (_ || _ || _ || _); [done |].
  repeat (apply setBlock_floor_high; [lia |]).
  apply forZ_keeps.
  { intros c1 z Hz H1. apply forZ_keeps; [| done]. intros c2 x Hx H2.
    destruct (_ || _ || _ || _); [done |]. apply setBlock_floor_high; [lia | done]. }
  apply forZ_keeps.
  { intros c1 z Hz H1. apply forZ_keeps; [| done]. intros c2 x Hx H2.
    destruct (_ || _ || _ || _); [done |]. apply setBlock_floor_high; [lia | done]. }
  apply forZ_keeps.
  { intros c1 y Hy H1. apply forZ_keeps; [| done]. intros c2 x Hx H2.
    apply forZ_keeps; [| done]. intros c3 z Hz H3.
    destruct (_ || _ || _ || _); [| done].
    destruct (_ && _ && _); [done |].
    destruct (_ && _); apply setBlock_floor_high; (lia || done). }
  apply forZ_keeps; [| done].
  intros c1 x Hx H1. apply forZ_keeps; [| done]. intros c2 z Hz H2.
  apply setBlock_floor_high; [lia | done].
Qed.

Lemma housePass_keeps_floor (w : WorldGen) (x0 z0 : Z) (chunk : ChunkData)
    (cx cz worldOffsetX worldOffsetZ : Z) :
  hasFloor x0 z0 chunk →
  hasFloor x0 z0 (housePass w chunk cx cz worldOffsetX worldOffsetZ).
Proof.
  intros H. unfold housePass. cbv zeta.
  destruct (gt _ _); [| done].
  pose proof (getTerrainHeight_range w
    (worldOffsetX + (3 + floorZ (PrimFloat.mul (Math_abs (noise2D (houseNoise w)
        (PrimFloat.mul (Z2F cx) 1.7%float) (PrimFloat.mul (Z2F cz) 1.7%float))) 5%float)))
    (worldOffsetZ + (3 + floorZ (PrimFloat.mul (Math_abs (noise2D (houseNoise w)
        (PrimFloat.mul (Z2F cx) 2.3%float) (PrimFloat.mul (Z2F cz) 2.3%float))) 5%float))))
    as Hh.
  destruct (_ && _); [| done]. apply placeHouse_keeps_floor; [lia | done].
Qed.

(** Every chunk [generateChunk] returns stands on BEDROCK: whatever the world
    type, the seed, the chunk coordinates and the numbers [Math.random()]
    hands out, all 256 cells of layer 0 hold BEDROCK. *)
Theorem generateChunk_lays_a_bedrock_floor (w : WorldGen) (rnd : Oracle) (cx cz : Z)
    (cur : nat) (x z : Z) :
  0 <= x < 16 → 0 <= z < 16 →
  getBlock (fst (generateChunk w rnd cx cz cur)) x 0 z = BlockType.BEDROCK.
Proof.
  intros Hx Hz. change (hasFloor x z (fst (generateChunk w rnd cx cz cur))).
  unfold generateChunk. cbv zeta.
  set (filled := forZ 0 CHUNK_SIZE _ (mkChunk ∅ cx cz)).
  assert (Hf : hasFloor x z filled).
  { unfold filled.
    apply (forZ_establishes _ _ _ x); [done | |].
    - intros c. apply (forZ_establishes _ _ _ z); [done | |].
      + intros c'. apply fillColumn_lays_floor; [apply getTerrainHeight_range | done..].
      + intros c' z' Hz' Hc'.
        apply fillColumn_keeps_floor; [apply getTerrainHeight_range | done].
    - intros c x' Hx' Hc. apply forZ_keeps; [| done]. intros c' z' Hz' Hc'.
      apply fillColumn_keeps_floor; [apply getTerrainHeight_range | done]. }
  clearbody filled.
  pose proof (carveCaves_keeps_floor w x z filled (cx * CHUNK_SIZE) (cz * CHUNK_SIZE) Hf)
    as Hc.
  destruct (isFlat w); [exact Hc |]. cbn [fst].
  apply housePass_keeps_floor.
  apply (forZ_keeps (fun st => hasFloor x z (fst st))).
  { intros st x' Hx' Hs.
    apply (forZ_keeps (fun st => hasFloor x z (fst st))); [| done]. intros st' z' Hz' Hs'.
    by apply vegetationColumn_keeps_floor. }
  apply (forZ_keeps (fun st => hasFloor x z (fst st))); [| exact Hc].
  intros st x' Hx' Hs.
  apply (forZ_keeps (fun st => hasFloor x z (fst st))); [| done]. intros st' z' Hz' Hs'.
  by apply treeColumn_keeps_floor.
Qed.

Lemma generateChunk_lays_a_bedrock_floor_witness :
  getBlock (fst (generateChunk defaultWorldGen lowThenHigh 2 (-3) 0%nat)) 15 0 0
  = BlockType.BEDROCK.
Proof.
  apply (generateChunk_lays_a_bedrock_floor defaultWorldGen lowThenHigh 2 (-3) 0%nat 15 0);
    lia.
Defined.
(** ** worldgen.ts: the flat world *)

(** One iteration of the terrain loop of a flat column writes the layer of
    its height into its own cell and nothing else. *)
Lemma flat_body_read (w : WorldGen) (chunk : ChunkData) (x z worldX worldZ y : Z)
    (x' y' z' : Z) :
  0 <= x < 16 → 0 <= z < 16 → 0 <= y < 31 →
  getBlock
    (if (y >? 30) && (y <=? WATER_LEVEL) then
       setBlock chunk x y z BlockType.WATER
     else if y <=? 30 then
       if y =? BEDROCK_LEVEL then setBlock chunk x y z BlockType.BEDROCK
       else if y <? 30 - 4 then setBlock chunk x y z BlockType.STONE
       else if y <? 30 then setBlock chunk x y z BlockType.DIRT
       else
         let biome := fbm (biomeNoise w) (PrimFloat.mul (Z2F worldX) 0.003%float)
                        (PrimFloat.mul (Z2F worldZ) 0.003%float) 3 2%float 0.5%float in
         if 30 <=? WATER_LEVEL + 1 then
           let chunk := setBlock chunk x y z BlockType.SAND in
           if gt (noise2D (plantNoise w) (PrimFloat.mul (Z2F worldX) 0.1%float)
                    (PrimFloat.mul (Z2F worldZ) 0.1%float)) 0.5%float
           then setBlock chunk x y z BlockType.GRAVEL else chunk
         else if PrimFloat.ltb biome (-0.3)%float then setBlock chunk x y z BlockType.SAND
         else setBlock chunk x y z BlockType.GRASS
     else chunk) x' y' z'
  = if decide ((x', y', z') = (x, y, z)) then flatLayer (flatTop w worldX worldZ) y
    else getBlock chunk x' y' z'.
Proof.
  intros Hx Hz Hy.
  assert (Ho : outOfChunk x y z = false)
    by (apply outOfChunk_false; unfold CHUNK_SIZE, CHUNK_HEIGHT; lia).
  assert (Hset : ∀ t, 0 <= t < 256 →
            getBlock (setBlock chunk x y z t) x' y' z'
            = if decide ((x', y', z') = (x, y, z)) then t else getBlock chunk x' y' z').
  { intros t Ht. destruct (decide _) as [[= -> -> ->] | Hne].
    - rewrite getBlock_setBlock_same by done. by apply Z.mod_small.
    - by apply getBlock_setBlock_other. }
  replace (y >? 30) with false by (symmetry; rewrite Z.gtb_ltb; apply Z.ltb_ge; lia).
  cbn [andb]. replace (y <=? 30) with true by (symmetry; apply Z.leb_le; lia).
  unfold flatLayer, flatTop.
  replace ((y <? 0) || (30 <? y)) with false
    by (symmetry; apply orb_false_iff; split; apply Z.ltb_ge; lia).
  change BEDROCK_LEVEL with 0. change (30 - 4) with 26.
  change (30 <=? WATER_LEVEL + 1) with false. cbv zeta iota.
  destruct (y =? 0); [by apply Hset |].
  destruct (y <? 26); [by apply Hset |].
  destruct (y <? 30); [by apply Hset |].
  destruct (PrimFloat.ltb _ _); by apply Hset.
Qed.

Lemma fillColumn_flat_read (w : WorldGen) (chunk : ChunkData) (x z worldX worldZ : Z)
    (x' y' z' : Z) :
  0 <= x < 16 → 0 <= z < 16 →
  getBlock (fillColumn w chunk x z worldX worldZ 30) x' y' z'
  = if decide (x' = x ∧ z' = z ∧ 0 <= y' <= 30)
    then flatLayer (flatTop w worldX worldZ) y'
    else getBlock chunk x' y' z'.
Proof.
  intros Hx Hz. unfold fillColumn.
  change (30 <? WATER_LEVEL - 2) with false. cbv iota zeta.
  change (Z.max 30 WATER_LEVEL + 1) with 31.
  destruct (decide (x' = x ∧ z' = z ∧ 0 <= y' <= 30)) as [(-> & -> & Hy) | Hnot].
  - apply (forZ_establishes
             (fun c => getBlock c x y' z = flatLayer (flatTop w worldX worldZ) y') _ _ y');
      [lia | |].
    + intros c. rewrite flat_body_read by (done || lia). by rewrite decide_True.
    + intros c y Hy' Hc. rewrite flat_body_read by (done || lia).
      destruct (decide _) as [[= ->] | _]; done.
  - apply (forZ_keeps (fun c => getBlock c x' y' z' = getBlock chunk x' y' z')); [| done].
    intros c y Hy Hc. rewrite flat_body_read by (done || lia).
    rewrite decide_False; [done |]. intros [= -> -> ->]. apply Hnot. lia.
Qed.

(** A chunk of a flat world is made of layers: BEDROCK at height 0, STONE
    from 1 to 25, DIRT from 26 to 29, the surface block at 30 (SAND where the
    biome noise of the column is below -0.3, GRASS elsewhere) and AIR above,
    in every column, for every seed and every chunk.  No cave, tree, plant or
    house is placed. *)
Theorem generateChunk_flat_layers (w : WorldGen) (rnd : Oracle) (cx cz : Z) (cur : nat)
    (x y z : Z) :
  isFlat w = true → 0 <= x < 16 → 0 <= z < 16 →
  let b := getBlock (fst (generateChunk w rnd cx cz cur)) x y z in
  b = flatLayer (flatTop w (cx * 16 + x) (cz * 16 + z)) y ∧
  (y = 0 → b = BlockType.BEDROCK) ∧
  (1 <= y < 26 → b = BlockType.STONE) ∧
  (26 <= y < 30 → b = BlockType.DIRT) ∧
  (y = 30 → b = BlockType.GRASS ∨ b = BlockType.SAND) ∧
  (y < 0 ∨ 30 < y → b = BlockType.AIR).
Proof.
  intros Hflat Hx Hz b.
  assert (Hb : b = flatLayer (flatTop w (cx * 16 + x) (cz * 16 + z)) y).
  { unfold b, generateChunk. cbv zeta.
    unfold carveCaves. rewrite Hflat. cbn [fst].
    assert (Hh : ∀ a c, getTerrainHeight w a c = 30)
      by (intros; unfold getTerrainHeight; by rewrite Hflat).
    destruct (decide (0 <= y <= 30)) as [Hy | Hy].
    - apply (forZ_establishes
               (fun c => getBlock c x y z
                         = flatLayer (flatTop w (cx * 16 + x) (cz * 16 + z)) y) _ _ x);
        [done | |].
      + intros c.
        apply (forZ_establishes
                 (fun c => getBlock c x y z
                           = flatLayer (flatTop w (cx * 16 + x) (cz * 16 + z)) y) _ _ z);
          [done | |].
        * intros c'. rewrite Hh, fillColumn_flat_read by done. by rewrite decide_True.
        * intros c' z' Hz' Hc'. rewrite Hh, fillColumn_flat_read by done.
          destruct (decide _) as [(_ & -> & _) | _]; done.
      + intros c x' Hx' Hc.
        apply (forZ_keeps
                 (fun c => getBlock c x y z
                           = flatLayer (flatTop w (cx * 16 + x) (cz * 16 + z)) y));
          [| done].
        intros c' z' Hz' Hc'. rewrite Hh, fillColumn_flat_read by done.
        destruct (decide _) as [(-> & -> & _) | _]; done.
    - replace (flatLayer (flatTop w (cx * 16 + x) (cz * 16 + z)) y) with BlockType.AIR.
      2: { unfold flatLayer.
           replace ((y <? 0) || (30 <? y)) with true; [done |].
           symmetry. apply orb_true_iff. rewrite !Z.ltb_lt. lia. }
      apply (forZ_keeps (fun c => getBlock c x y z = BlockType.AIR)).
      + intros c x' Hx' Hc.
        apply (forZ_keeps (fun c => getBlock c x y z = BlockType.AIR)); [| done].
        intros c' z' Hz' Hc'. rewrite Hh, fillColumn_flat_read by done.
        rewrite decide_False; [done |]. intros (_ & _ & H). by apply Hy.
      + unfold getBlock. destruct (outOfChunk x y z); [done |].
        unfold u8_get. cbn [blocks]. by rewrite lookup_empty. }
  split; [exact Hb |]. rewrite Hb. unfold flatLayer, flatTop.
  split; [by intros -> |].
  split; [intros Hy |].
  { replace ((y <? 0) || (30 <? y)) with false
      by (symmetry; apply orb_false_iff; split; apply Z.ltb_ge; lia).
    replace (y =? 0) with false by (symmetry; apply Z.eqb_neq; lia).
    by replace (y <? 26) with true by (symmetry; apply Z.ltb_lt; lia). }
  split; [intros Hy |].
  { replace ((y <? 0) || (30 <? y)) with false
      by (symmetry; apply orb_false_iff; split; apply Z.ltb_ge; lia).
    replace (y =? 0) with false by (symmetry; apply Z.eqb_neq; lia).
    replace (y <? 26) with false by (symmetry; apply Z.ltb_ge; lia).
    by replace (y <? 30) with true by (symmetry; apply Z.ltb_lt; lia). }
  split; [intros -> |].
  { cbn. destruct (PrimFloat.ltb _ _); auto. }
  intros Hy.
  replace ((y <? 0) || (30 <? y)) with true; [done |].
  symmetry. apply orb_true_iff. rewrite !Z.ltb_lt. lia.
Qed.

Lemma generateChunk_flat_layers_witness :
  getBlock (fst (generateChunk (configureWorldGeneration (mkConfig 7 flat)) lowThenHigh
                   2 (-3) 0%nat)) 4 25 9 = BlockType.STONE.
Proof.
  apply (generateChunk_flat_layers (configureWorldGeneration (mkConfig 7 flat)) lowThenHigh
           2 (-3) 0%nat 4 25 9); [reflexivity | lia..].
Defined.
(** ** Regions *)

Lemma setBlockAt_loaded (g : Game) (x y z : Z) (t : BlockType) (k : Z * Z) :
  is_Some (chunks (setBlockAt g x y z t) !! k) ↔ is_Some (chunks g !! k).
Proof.
  destruct (vertOut y) eqn:Hy;
    [by unfold setBlockAt; rewrite setBlockAt_rec_unchanged by auto |].
  destruct (chunks g !! chunkKey (chunkCoord x) (chunkCoord z)) as [c |] eqn:Hc;
    [| by unfold setBlockAt; rewrite setBlockAt_rec_unchanged by auto].
  destruct (decide (getBlockAtLoaded g x y z = t)) as [He | Hne'];
    [by unfold setBlockAt; rewrite setBlockAt_rec_unchanged by auto |].
  assert (Hc' : is_Some (chunks g !! chunkKey (chunkCoord x) (chunkCoord z)))
    by (rewrite Hc; eauto).
  pose proof (setBlockAt_effect g x y z t Hy Hc' Hne') as E.
  destruct (shouldBlockFall t); destruct E as [-> _]; by rewrite !writeVoxel_loaded.
Qed.

(** What the edited cell holds. *)
Lemma setBlockAt_read_same (d : BlockType) (g : Game) (x y z : Z) (t : BlockType) :
  vertOut y = false → is_Some (chunks g !! chunkKey (chunkCoord x) (chunkCoord z)) →
  readVoxel d (chunks (setBlockAt g x y z t)) x y z = edited (getBlockAtLoaded g x y z) t.
Proof.
  intros Hy Hc. unfold edited.
  destruct (Z.eqb_spec (getBlockAtLoaded g x y z) t) as [He | Hne].
  - unfold setBlockAt. rewrite setBlockAt_rec_unchanged by auto.
    rewrite getBlockAtLoaded_read. unfold readVoxel. rewrite Hy.
    destruct Hc as [c Hc]. by rewrite Hc.
  - pose proof (setBlockAt_effect g x y z t Hy Hc Hne) as E.
    destruct (shouldBlockFall t); destruct E as [-> _].
    + rewrite readVoxel_writeVoxel; [by rewrite decide_True | done |].
      by apply writeVoxel_loaded.
    + rewrite readVoxel_writeVoxel by done. by rewrite decide_True.
Qed.

(** A list of edits to pairwise distinct cells: each cell holds what its own
    edit left, computed from the state before the first edit. *)
Lemma edits_read (d : BlockType) (l : list BlockEvent) :
  ∀ (g : Game) (x y z : Z),
  NoDup (map target l) →
  let g' := fold_left (fun g b => setBlockAt g (ev_x b) (ev_y b) (ev_z b) (ev_type b)) l g in
  (∀ b, b ∈ l → target b = (x, y, z) →
     vertOut y = false → is_Some (chunks g !! chunkKey (chunkCoord x) (chunkCoord z)) →
     readVoxel d (chunks g') x y z = edited (getBlockAtLoaded g x y z) (ev_type b)) ∧
  ((∀ b, b ∈ l → target b ≠ (x, y, z)) →
     readVoxel d (chunks g') x y z = readVoxel d (chunks g) x y z) ∧
  (vertOut y = true ∨ chunks g !! chunkKey (chunkCoord x) (chunkCoord z) = None →
     readVoxel d (chunks g') x y z = readVoxel d (chunks g) x y z).
Proof.
  induction l as [| a l IH]; intros g x y z Hnd g'.
  { repeat split; try done. intros b Hb. by apply elem_of_nil in Hb. }
  cbn [map] in Hnd. apply NoDup_cons in Hnd as [Ha Hnd].
  set (g1 := setBlockAt g (ev_x a) (ev_y a) (ev_z a) (ev_type a)).
  destruct (IH g1 x y z Hnd) as (IH1 & IH2 & IH3). fold g1 in g'.
  change (fold_left _ (a :: l) g) with
    (fold_left (fun g b => setBlockAt g (ev_x b) (ev_y b) (ev_z b) (ev_type b)) l g1) in g'.
  assert (Hother : target a ≠ (x, y, z) →
            readVoxel d (chunks g1) x y z = readVoxel d (chunks g) x y z
            ∧ getBlockAtLoaded g1 x y z = getBlockAtLoaded g x y z).
  { intros Hne. unfold g1. rewrite !getBlockAtLoaded_read.
    split; apply setBlockAt_other; intros E; apply Hne; by rewrite E. }
  split; [| split].
  - intros b Hb Ht Hy Hc. apply elem_of_cons in Hb as [-> | Hb].
    + unfold g'. rewrite IH2.
      * unfold g1. injection Ht as <- <- <-. by apply setBlockAt_read_same.
      * intros b' Hb' Ht'. apply Ha. rewrite Ht, <- Ht'.
        apply list_elem_of_In, in_map, list_elem_of_In, Hb'.
    + assert (Hne : target a ≠ (x, y, z)).
      { intros E. apply Ha. rewrite E, <- Ht.
        apply list_elem_of_In, in_map, list_elem_of_In, Hb. }
      destruct (Hother Hne) as [_ Hr]. unfold g'.
      rewrite (IH1 b Hb Ht Hy); [by rewrite Hr |]. by apply setBlockAt_loaded.
  - intros Hall. unfold g'. rewrite IH2.
    + apply Hother, Hall. by left.
    + intros b Hb. apply Hall. by right.
  - intros Hout. unfold g'.
    assert (Hg1 : ∀ d', readVoxel d' (chunks g1) x y z = readVoxel d' (chunks g) x y z).
    { intros d'. unfold readVoxel. destruct Hout as [-> | Hn]; [done |].
      destruct (vertOut y); [done |]. rewrite Hn.
      destruct (chunks g1 !! chunkKey (chunkCoord x) (chunkCoord z)) eqn:E; [| done].
      assert (Hs : is_Some (chunks g !! chunkKey (chunkCoord x) (chunkCoord z))).
      { apply (setBlockAt_loaded g (ev_x a) (ev_y a) (ev_z a) (ev_type a)).
        fold g1. by rewrite E. }
      rewrite Hn in Hs. by destruct Hs. }
    rewrite IH3, Hg1; [done |].
    destruct Hout as [Hy | Hn]; [by left | right].
    destruct (chunks g1 !! chunkKey (chunkCoord x) (chunkCoord z)) eqn:E; [| done].
    assert (Hs : is_Some (chunks g !! chunkKey (chunkCoord x) (chunkCoord z))).
    { apply (setBlockAt_loaded g (ev_x a) (ev_y a) (ev_z a) (ev_type a)).
      fold g1. by rewrite E. }
    rewrite Hn in Hs. by destruct Hs.
Qed.

Lemma boxCells_elem (x1 y1 z1 x2 y2 z2 : Z) (c : Z * Z * Z) :
  c ∈ boxCells x1 y1 z1 x2 y2 z2 ↔ inBox x1 y1 z1 x2 y2 z2 c.
Proof.
  destruct c as [[x y] z]. unfold boxCells, inBox. rewrite list_elem_of_bind. split.
  - intros (a & Ha & Hx). apply list_elem_of_bind in Ha as (b & Hb & Hy).
    apply list_elem_of_bind in Hb as (c & Hc & Hz).
    apply list_elem_of_singleton in Hc. injection Hc as -> -> ->.
    apply elem_of_seqZ in Hx, Hy, Hz. lia.
  - intros (Hx & Hy & Hz). exists x. split; [| apply elem_of_seqZ; lia].
    apply list_elem_of_bind. exists y. split; [| apply elem_of_seqZ; lia].
    apply list_elem_of_bind. exists z. split; [| apply elem_of_seqZ; lia].
    by apply list_elem_of_singleton.
Qed.

Lemma NoDup_bind_pairs {A B : Type} (f : A → list B) (l : list A) :
  NoDup l → (∀ a, a ∈ l → NoDup (f a)) →
  (∀ a a' b, a ∈ l → a' ∈ l → b ∈ f a → b ∈ f a' → a = a') →
  NoDup (l ≫= f).
Proof.
  induction l as [| a l IH]; intros Hnd Hf Hinj; [apply NoDup_nil_2 |].
  apply NoDup_cons in Hnd as [Ha Hnd]. cbn. apply NoDup_app. split; [| split].
  - apply Hf. by left.
  - intros b Hb Hb'. apply list_elem_of_bind in Hb' as (a' & Hb' & Ha').
    apply Ha. rewrite (Hinj a a' b); [done | by left | by right | done | done].
  - apply IH; [done | |].
    + intros a' Ha'. apply Hf. by right.
    + intros a1 a2 b H1 H2. apply Hinj; by right.
Qed.

Lemma boxCells_NoDup (x1 y1 z1 x2 y2 z2 : Z) : NoDup (boxCells x1 y1 z1 x2 y2 z2).
Proof.
  unfold boxCells. apply NoDup_bind_pairs; [apply NoDup_seqZ | |].
  - intros x _. apply NoDup_bind_pairs; [apply NoDup_seqZ | |].
    + intros y _. apply NoDup_bind_pairs; [apply NoDup_seqZ | |].
      * intros z _. apply NoDup_singleton.
      * intros z z' c _ _ H H'. apply list_elem_of_singleton in H, H'. congruence.
    + intros y y' c _ _ H H'.
      apply list_elem_of_bind in H as (z & H & _), H' as (z' & H' & _).
      apply list_elem_of_singleton in H, H'. congruence.
  - intros x x' c _ _ H H'.
    apply list_elem_of_bind in H as (y & H & _), H' as (y' & H' & _).
    apply list_elem_of_bind in H as (z & H & _), H' as (z' & H' & _).
    apply list_elem_of_singleton in H, H'. congruence.
Qed.
Lemma fillRegion_edits (g : Game) (x1 y1 z1 x2 y2 z2 : Z) (t : BlockType) :
  fillRegion g x1 y1 z1 x2 y2 z2 t =
  fold_left (fun g b => setBlockAt g (ev_x b) (ev_y b) (ev_z b) (ev_type b))
    (map (fun c : Z * Z * Z => let '(x, y, z) := c in mkBlockEvent x y z t)
       (boxCells x1 y1 z1 x2 y2 z2)) g.
Proof.
  unfold fillRegion. generalize (boxCells x1 y1 z1 x2 y2 z2) as l. intros l. revert g.
  induction l as [| [[x y] z] l IH]; intros g; [done |]. cbn. apply IH.
Qed.

Lemma fillRegion_targets (t : BlockType) (l : list (Z * Z * Z)) :
  map target (map (fun c : Z * Z * Z => let '(x, y, z) := c in mkBlockEvent x y z t) l) = l.
Proof. induction l as [| [[x y] z] l IH]; [done |]. cbn. by rewrite IH. Qed.

(** [fillRegion] edits every cell of the box and no other: a cell of
    the box in a loaded chunk and inside the vertical range holds the block
    type afterwards when the type does not fall, and AIR when it falls (SAND,
    GRAVEL, ANVIL) unless the cell held that type already; cells outside the
    box, in chunks that are not loaded or outside the vertical range read as
    before.  The order of the two corners does not matter. *)
Theorem fillRegion_fills_the_box (g : Game) (x1 y1 z1 x2 y2 z2 : Z) (t : BlockType)
    (x y z : Z) :
  let g' := fillRegion g x1 y1 z1 x2 y2 z2 t in
  let loaded := is_Some (chunks g !! chunkKey (chunkCoord x) (chunkCoord z)) in
  (inBox x1 y1 z1 x2 y2 z2 (x, y, z) → 0 <= y < CHUNK_HEIGHT → loaded →
     getBlockAt g' x y z = edited (getBlockAtLoaded g x y z) t
     ∧ (shouldBlockFall t = false → 0 <= t < 256 → getBlockAt g' x y z = t)
     ∧ (shouldBlockFall t = true → getBlockAtLoaded g x y z ≠ t →
          getBlockAt g' x y z = BlockType.AIR)) ∧
  (¬ inBox x1 y1 z1 x2 y2 z2 (x, y, z) ∨ ¬ 0 <= y < CHUNK_HEIGHT ∨ ¬ loaded →
     getBlockAt g' x y z = getBlockAt g x y z) ∧
  fillRegion g x2 y2 z2 x1 y1 z1 t = g'.
Proof.
  intros g' loaded. subst g' loaded.
  pose proof (edits_read BlockType.STONE
                (map (fun c : Z * Z * Z => let '(x, y, z) := c in mkBlockEvent x y z t)
                   (boxCells x1 y1 z1 x2 y2 z2)) g x y z) as E.
  rewrite fillRegion_targets in E. specialize (E (boxCells_NoDup _ _ _ _ _ _)).
  cbv zeta in E. rewrite <- fillRegion_edits in E. destruct E as (E1 & E2 & E3).
  rewrite !getBlockAt_read. split; [| split].
  - intros Hbox Hy Hl.
    assert (Hv : vertOut y = false) by (unfold vertOut, CHUNK_HEIGHT in *; lia).
    assert (Hr : readVoxel BlockType.STONE (chunks (fillRegion g x1 y1 z1 x2 y2 z2 t)) x y z
                 = edited (getBlockAtLoaded g x y z) t).
    { apply (E1 (mkBlockEvent x y z t)); [| done | done | done].
      apply list_elem_of_In, (in_map (fun c : Z * Z * Z =>
                                  let '(x, y, z) := c in mkBlockEvent x y z t) _ (x, y, z)),
        list_elem_of_In, boxCells_elem, Hbox. }
    rewrite Hr. split; [done |]. unfold edited. split.
    + intros Hf Ht. rewrite Hf. destruct (Z.eqb_spec (getBlockAtLoaded g x y z) t); [done |].
      clear - Ht. lia.
    + intros Hf Hne. rewrite Hf. by destruct (Z.eqb_spec (getBlockAtLoaded g x y z) t).
  - intros [Hbox | [Hy | Hl]].
    + apply E2. intros b Hb Ht. apply Hbox, boxCells_elem. rewrite <- Ht.
      apply list_elem_of_In, in_map_iff in Hb as ([[a b'] c] & <- & Hb).
      by apply list_elem_of_In.
    + apply E3. left. unfold vertOut, CHUNK_HEIGHT in *. clear - Hy. lia.
    + apply E3. right.
      destruct (chunks g !! chunkKey (chunkCoord x) (chunkCoord z)); [| done].
      exfalso. apply Hl. eauto.
  - unfold fillRegion, boxCells.
    by rewrite (Z.min_comm x2), (Z.max_comm x2), (Z.min_comm y2), (Z.max_comm y2),
      (Z.min_comm z2), (Z.max_comm z2).
Qed.

(** The blocks [cloneRegion] collects, as a list expression. *)
Lemma collect_blocks {A B : Type} (p : A → bool) (f : A → B) (l : list A) (acc : list B) :
  fold_left (fun acc a => if p a then acc ++ [f a] else acc) l acc
  = acc ++ map f (List.filter p l).
Proof.
  revert acc. induction l as [| a l IH]; intros acc; cbn; [by rewrite app_nil_r |].
  rewrite IH. destruct (p a); [| done]. by rewrite <- app_assoc.
Qed.

Lemma collect_blocks_cells {B : Type} (p : Z → Z → Z → bool) (f : Z → Z → Z → B)
    (l : list (Z * Z * Z)) (acc : list B) :
  fold_left (fun (blocks : list B) (c : Z * Z * Z) =>
               let '(x, y, z) := c in if p x y z then blocks ++ [f x y z] else blocks) l acc
  = acc ++ map (fun c : Z * Z * Z => let '(x, y, z) := c in f x y z)
             (List.filter (fun c : Z * Z * Z => let '(x, y, z) := c in p x y z) l).
Proof.
  rewrite <- collect_blocks. revert acc.
  induction l as [| [[x y] z] l IH]; intros acc; [done |]. cbn [fold_left]. apply IH.
Qed.

Lemma cloneRegion_edits (g : Game) (x1 y1 z1 x2 y2 z2 destX destY destZ : Z) :
  cloneRegion g x1 y1 z1 x2 y2 z2 destX destY destZ =
  fold_left (fun g b => setBlockAt g (ev_x b) (ev_y b) (ev_z b) (ev_type b))
    (map (fun c : Z * Z * Z => let '(x, y, z) := c in
            mkBlockEvent (destX + (x - x1)) (destY + (y - y1)) (destZ + (z - z1))
              (getBlockAt g x y z))
       (List.filter (fun c : Z * Z * Z => let '(x, y, z) := c in
                  negb (getBlockAt g x y z =? BlockType.AIR))
          (boxCells x1 y1 z1 x2 y2 z2))) g.
Proof.
  unfold cloneRegion. cbv zeta. f_equal.
  apply (collect_blocks_cells
           (fun x y z => negb (getBlockAt g x y z =? BlockType.AIR))
           (fun x y z => mkBlockEvent (destX + (x - x1)) (destY + (y - y1)) (destZ + (z - z1))
                           (getBlockAt g x y z))).
Qed.

Lemma cloneRegion_targets (g : Game) (x1 y1 z1 destX destY destZ : Z) (l : list (Z * Z * Z)) :
  NoDup l →
  NoDup (map target
           (map (fun c : Z * Z * Z => let '(x, y, z) := c in
                   mkBlockEvent (destX + (x - x1)) (destY + (y - y1)) (destZ + (z - z1))
                     (getBlockAt g x y z)) l)).
Proof.
  intros Hnd. rewrite map_map. apply (NoDup_fmap_2_strong _ l); [| done].
  intros [[a b] c] [[a' b'] c'] _ _. unfold target. cbn. intros [= Ha Hb Hc].
  f_equal; [f_equal |]; lia.
Qed.
(** [cloneRegion] copies a snapshot.  Every block of the source box that
    is not AIR is written at the destination plus its offset from the FIRST
    corner, with the type the source cell held before the call, also where
    source and destination overlap; a destination cell in a loaded chunk and
    inside the vertical range then holds that type when it does not fall.
    A cell whose source cell is outside the box or holds AIR reads as
    before: holes are not copied. *)
Theorem cloneRegion_copies_a_snapshot (g : Game)
    (x1 y1 z1 x2 y2 z2 destX destY destZ : Z) :
  let g' := cloneRegion g x1 y1 z1 x2 y2 z2 destX destY destZ in
  (∀ sx sy sz : Z,
     let b := getBlockAt g sx sy sz in
     let x := destX + (sx - x1) in
     let y := destY + (sy - y1) in
     let z := destZ + (sz - z1) in
     inBox x1 y1 z1 x2 y2 z2 (sx, sy, sz) → b ≠ BlockType.AIR →
     0 <= y < CHUNK_HEIGHT → is_Some (chunks g !! chunkKey (chunkCoord x) (chunkCoord z)) →
     getBlockAt g' x y z = edited (getBlockAtLoaded g x y z) b
     ∧ (shouldBlockFall b = false → 0 <= b < 256 → getBlockAt g' x y z = b)) ∧
  (∀ x y z : Z,
     let sx := x1 + (x - destX) in
     let sy := y1 + (y - destY) in
     let sz := z1 + (z - destZ) in
     ¬ inBox x1 y1 z1 x2 y2 z2 (sx, sy, sz) ∨ getBlockAt g sx sy sz = BlockType.AIR →
     getBlockAt g' x y z = getBlockAt g x y z).
Proof.
  intros g'. subst g'. rewrite cloneRegion_edits.
  set (mk := fun c : Z * Z * Z => let '(x, y, z) := c in
               mkBlockEvent (destX + (x - x1)) (destY + (y - y1)) (destZ + (z - z1))
                 (getBlockAt g x y z)).
  set (keep := fun c : Z * Z * Z => let '(x, y, z) := c in
                 negb (getBlockAt g x y z =? BlockType.AIR)).
  assert (Hnd : NoDup (map target (map mk (List.filter keep (boxCells x1 y1 z1 x2 y2 z2))))).
  { apply cloneRegion_targets, NoDup_ListNoDup, List.NoDup_filter, NoDup_ListNoDup,
      boxCells_NoDup. }
  split.
  - intros sx sy sz b x y z Hbox Hb Hy Hl.
    destruct (edits_read BlockType.STONE _ g x y z Hnd) as (E1 & _ & _).
    rewrite !getBlockAt_read.
    assert (Hv : vertOut y = false) by (unfold vertOut, CHUNK_HEIGHT in *; clear - Hy; lia).
    assert (Hr : readVoxel BlockType.STONE
                   (chunks (fold_left (fun g b => setBlockAt g (ev_x b) (ev_y b) (ev_z b)
                                                    (ev_type b))
                              (map mk (List.filter keep (boxCells x1 y1 z1 x2 y2 z2))) g))
                   x y z
                 = edited (getBlockAtLoaded g x y z) b).
    { apply (E1 (mk (sx, sy, sz))); [| done | done | done].
      apply list_elem_of_In, in_map, filter_In. split.
      - by apply list_elem_of_In, boxCells_elem.
      - unfold keep. fold b. by destruct (Z.eqb_spec b BlockType.AIR). }
    rewrite Hr. split; [done |].
    intros Hf Hb'. unfold edited. rewrite Hf.
    destruct (Z.eqb_spec (getBlockAtLoaded g x y z) b); [done |]. clear - Hb'. lia.
  - intros x y z sx sy sz Hs.
    destruct (edits_read BlockType.STONE _ g x y z Hnd) as (_ & E2 & _).
    rewrite !getBlockAt_read. apply E2. intros e He Ht.
    apply list_elem_of_In, in_map_iff in He as ([[a b] c] & <- & He).
    apply filter_In in He as [Hin Hk]. apply list_elem_of_In, boxCells_elem in Hin.
    unfold target, mk in Ht. cbn in Ht. injection Ht as Hx Hy Hz.
    assert (Ha : a = sx) by (unfold sx; clear - Hx; lia).
    assert (Hb : b = sy) by (unfold sy; clear - Hy; lia).
    assert (Hc : c = sz) by (unfold sz; clear - Hz; lia).
    subst a b c. destruct Hs as [Hs | Hs]; [by apply Hs |].
    unfold keep in Hk. rewrite Hs in Hk. done.
Qed.
(** ** The signal along a straight line of dust *)

(** A hop that changes nothing: the neighbour, if it is dust, holds at least
    the power offered, and if it is a repeater, holds 15. *)
Lemma relax_noop (g : Game) (cur : Z * Z * Z) (cp : Z) (q : list QItem)
    (pw : gmap (Z * Z * Z) Z) (d : Z * Z * Z) :
  (blockAt g (shift cur d) = BlockType.REDSTONE_DUST → cp - 1 <= powerAt pw (shift cur d)) →
  (blockAt g (shift cur d) = BlockType.REDSTONE_REPEATER → 15 <= powerAt pw (shift cur d)) →
  relax g cur cp (q, pw) d = (q, pw).
Proof.
  destruct cur as [[x y] z], d as [[dx dy] dz]. cbn [shift blockAt powerAt].
  intros Hd Hr. unfold relax.
  destruct (Z.eqb_spec (getBlockAtLoaded g (x + dx) (y + dy) (z + dz))
              BlockType.REDSTONE_DUST) as [E | E].
  - rewrite E. cbn [Z.eqb BlockType.REDSTONE_DUST BlockType.REDSTONE_REPEATER Pos.eqb andb].
    specialize (Hd E).
    destruct (Z.gtb_spec (cp - 1) (getRedstonePower pw (x + dx) (y + dy) (z + dz)));
      [lia | done].
  - destruct (Z.eqb_spec (getBlockAtLoaded g (x + dx) (y + dy) (z + dz))
                BlockType.REDSTONE_REPEATER) as [E' | E']; [| done].
    specialize (Hr E'). cbn [andb].
    destruct (Z.gtb_spec 15 (getRedstonePower pw (x + dx) (y + dy) (z + dz))); [lia | done].
Qed.

(** A hop into a dust cell that holds less than the power offered. *)
Lemma relax_forward (g : Game) (cur : Z * Z * Z) (cp : Z) (q : list QItem)
    (pw : gmap (Z * Z * Z) Z) (d : Z * Z * Z) :
  blockAt g (shift cur d) = BlockType.REDSTONE_DUST →
  powerAt pw (shift cur d) < cp - 1 →
  relax g cur cp (q, pw) d
  = (q ++ [(shift cur d, cp - 1)],
     let '(x, y, z) := shift cur d in setRSPower pw x y z (cp - 1)).
Proof.
  destruct cur as [[x y] z], d as [[dx dy] dz]. cbn [shift blockAt powerAt].
  intros E Hlt. unfold relax. rewrite E.
  cbn [Z.eqb BlockType.REDSTONE_DUST BlockType.REDSTONE_REPEATER Pos.eqb andb].
  destruct (Z.gtb_spec (cp - 1) (getRedstonePower pw (x + dx) (y + dy) (z + dz)));
    [done | lia].
Qed.

Lemma powerAt_set (pw : gmap (Z * Z * Z) Z) (c c' : Z * Z * Z) (p : Z) :
  powerAt (let '(x, y, z) := c in setRSPower pw x y z p) c'
  = if decide (c' = c) then Z.max p 0 else powerAt pw c'.
Proof.
  destruct c as [[x y] z], c' as [[x' y'] z']. cbn [powerAt].
  apply getRedstonePower_set.
Qed.

Lemma fold_relax_noop (g : Game) (cur : Z * Z * Z) (cp : Z) (pw : gmap (Z * Z * Z) Z)
    (l : list (Z * Z * Z)) (q : list QItem) :
  (∀ d, d ∈ l →
     (blockAt g (shift cur d) = BlockType.REDSTONE_DUST → cp - 1 <= powerAt pw (shift cur d)) ∧
     (blockAt g (shift cur d) = BlockType.REDSTONE_REPEATER → 15 <= powerAt pw (shift cur d))) →
  fold_left (relax g cur cp) l (q, pw) = (q, pw).
Proof.
  induction l as [| d l IH]; intros H; [done |]. cbn [fold_left].
  destruct (H d) as [Hd Hr]; [by left |].
  rewrite relax_noop by done. apply IH. intros d' Hd'. apply H. by right.
Qed.

(** The six hops out of a cell when exactly one of them, the one in direction
    [d], finds a dust cell to raise. *)
Lemma fold_relax_forward (g : Game) (cur : Z * Z * Z) (cp : Z) (pw : gmap (Z * Z * Z) Z)
    (d : Z * Z * Z) (l : list (Z * Z * Z)) (q : list QItem) :
  NoDup l → d ∈ l →
  blockAt g (shift cur d) = BlockType.REDSTONE_DUST →
  powerAt pw (shift cur d) < cp - 1 → 0 < cp - 1 →
  (∀ d', d' ∈ l → d' ≠ d → shift cur d' ≠ shift cur d ∧
     (blockAt g (shift cur d') = BlockType.REDSTONE_DUST
      → cp - 1 <= powerAt pw (shift cur d')) ∧
     (blockAt g (shift cur d') = BlockType.REDSTONE_REPEATER
      → 15 <= powerAt pw (shift cur d'))) →
  fold_left (relax g cur cp) l (q, pw)
  = (q ++ [(shift cur d, cp - 1)],
     let '(x, y, z) := shift cur d in setRSPower pw x y z (cp - 1)).
Proof.
  intros Hnd Hin Hb Hp Hpos. revert q.
  induction l as [| d' l IH]; intros q H; [by apply elem_of_nil in Hin |].
  apply NoDup_cons in Hnd as [Hd' Hnd]. cbn [fold_left].
  destruct (decide (d' = d)) as [-> | Hne].
  - rewrite relax_forward by done. apply fold_relax_noop.
    intros d2 Hd2. assert (Hne : d2 ≠ d) by (intros ->; done).
    destruct (H d2) as (Hs & Hdu & Hre); [by right | done |].
    rewrite powerAt_set, decide_False by done. done.
  - destruct (H d') as (_ & Hdu & Hre); [by left | done |].
    rewrite relax_noop by done. apply IH; [done | |].
    + apply elem_of_cons in Hin as [-> | Hin]; done.
    + intros d2 Hd2. apply H. by right.
Qed.
Lemma dirs6_elem (d : Z * Z * Z) :
  d ∈ dirs6 →
  d = (1, 0, 0) ∨ d = (-1, 0, 0) ∨ d = (0, 0, 1) ∨ d = (0, 0, -1)
  ∨ d = (0, 1, 0) ∨ d = (0, -1, 0).
Proof.
  unfold dirs6. rewrite !elem_of_cons, elem_of_nil. tauto.
Qed.

Lemma dirs6_NoDup : NoDup dirs6.
Proof. apply (bool_decide_unpack _). by vm_compute. Qed.

Lemma lineCell_zero (s d : Z * Z * Z) : lineCell s d 0 = s.
Proof. destruct s as [[x y] z], d as [[dx dy] dz]. cbn. f_equal; [f_equal |]; lia. Qed.

Lemma lineCell_next (s d : Z * Z * Z) (i : Z) :
  shift (lineCell s d i) d = lineCell s d (i + 1).
Proof. destruct s as [[x y] z], d as [[dx dy] dz]. cbn. f_equal; [f_equal |]; lia. Qed.

Lemma lineCell_inj (s d : Z * Z * Z) (i j : Z) :
  d ∈ dirs6 → lineCell s d i = lineCell s d j → i = j.
Proof.
  intros Hd%dirs6_elem. destruct s as [[x y] z]. cbn.
  destruct Hd as [-> | [-> | [-> | [-> | [-> | ->]]]]]; intros [= H1 H2 H3]; lia.
Qed.

(** A neighbour of a line cell that lies on the line is the next cell, in the
    direction of the line, or the one before. *)
Lemma lineCell_neighbour (s d d' : Z * Z * Z) (i j : Z) :
  d ∈ dirs6 → d' ∈ dirs6 → shift (lineCell s d i) d' = lineCell s d j →
  (d' = d ∧ j = i + 1) ∨ (d' ≠ d ∧ j = i - 1).
Proof.
  intros Hd%dirs6_elem Hd'%dirs6_elem. destruct s as [[x y] z]. cbn.
  destruct Hd as [-> | [-> | [-> | [-> | [-> | ->]]]]];
    destruct Hd' as [-> | [-> | [-> | [-> | [-> | ->]]]]];
    intros [= H1 H2 H3]; first [left; split; [reflexivity | lia]
                               | right; split; [discriminate | lia]
                               | exfalso; lia].
Qed.

Lemma shift_inj (c d d' : Z * Z * Z) : shift c d' = shift c d → d' = d.
Proof.
  destruct c as [[x y] z], d as [[dx dy] dz], d' as [[dx' dy'] dz']. cbn.
  intros [= H1 H2 H3]. f_equal; [f_equal |]; lia.
Qed.

(** What [straightLine] says, cell by cell. *)
Lemma straightLine_facts (g : Game) (s d : Z * Z * Z) (n : Z) :
  straightLine g s d n = true →
  0 <= n ∧ d ∈ dirs6 ∧ foundSources g = [(s, 15)] ∧
  (∀ i, 1 <= i <= n → blockAt g (lineCell s d i) = BlockType.REDSTONE_DUST) ∧
  (∀ i d', 0 <= i <= n → d' ∈ dirs6 →
     (∃ j, 0 <= j <= n ∧ shift (lineCell s d i) d' = lineCell s d j)
     ∨ conducts (blockAt g (shift (lineCell s d i) d')) = false).
Proof.
  unfold straightLine. rewrite !andb_true_iff.
  intros ((((Hn & Hd) & Hs) & Hdust) & Hnb).
  apply Z.leb_le in Hn. apply bool_decide_eq_true in Hd, Hs.
  rewrite forallb_forall in Hdust, Hnb.
  split; [done |]. split; [done |]. split; [done |]. split.
  - intros i Hi. apply Z.eqb_eq, Hdust, list_elem_of_In, elem_of_seqZ. lia.
  - intros i d' Hi Hd'.
    assert (Hi' : In i (seqZ 0 (n + 1))) by (apply list_elem_of_In, elem_of_seqZ; lia).
    specialize (Hnb i Hi'). rewrite forallb_forall in Hnb.
    specialize (Hnb d' (proj1 (list_elem_of_In _ _) Hd')). cbv zeta in Hnb.
    apply orb_true_iff in Hnb as [Hon | Hoff].
    + left. apply bool_decide_eq_true in Hon.
      apply list_elem_of_In, in_map_iff in Hon as (j & Hj & Hin).
      apply list_elem_of_In, elem_of_seqZ in Hin. exists j. split; [lia | done].
    + right. by apply negb_true_iff in Hoff.
Qed.

Lemma conducts_false (b : BlockType) :
  conducts b = false → b ≠ BlockType.REDSTONE_DUST ∧ b ≠ BlockType.REDSTONE_REPEATER.
Proof.
  unfold conducts. intros [H1 H2]%orb_false_iff.
  by apply Z.eqb_neq in H1, H2.
Qed.
Section Line.

Variable g : Game.
Variables s d : Z * Z * Z.
Variable n : Z.
Hypothesis Hn : 0 <= n.
Hypothesis Hd : d ∈ dirs6.
Hypothesis Hdust : ∀ i, 1 <= i <= n → blockAt g (lineCell s d i) = BlockType.REDSTONE_DUST.
Hypothesis Hnb : ∀ i d', 0 <= i <= n → d' ∈ dirs6 →
  (∃ j, 0 <= j <= n ∧ shift (lineCell s d i) d' = lineCell s d j)
  ∨ conducts (blockAt g (shift (lineCell s d i) d')) = false.

(** Seen from the cell the walk has reached, the cell before it and the cells
    off the line take nothing. *)
Lemma walked_neighbours (k : Z) (st : Bfs) (d' : Z * Z * Z) :
  0 <= k <= n → walked s d k st → d' ∈ dirs6 → d' ≠ d →
  (blockAt g (shift (lineCell s d k) d') = BlockType.REDSTONE_DUST
   → 15 - k - 1 <= powerAt (power st) (shift (lineCell s d k) d')) ∧
  (blockAt g (shift (lineCell s d k) d') = BlockType.REDSTONE_REPEATER
   → 15 <= powerAt (power st) (shift (lineCell s d k) d')).
Proof.
  intros Hk (_ & _ & Hon & _) Hd' Hne.
  destruct (Hnb k d' Hk Hd') as [(j & Hj & E) | Hoff].
  - destruct (lineCell_neighbour s d d' k j Hd Hd' E) as [[-> _] | [_ ->]]; [done |].
    rewrite E, Hon by lia. split; [intros _; lia |].
    intros Hr. destruct (decide (k - 1 = 0)) as [-> | Hk0]; [lia |].
    rewrite Hdust in Hr by lia. discriminate.
  - apply conducts_false in Hoff as [H1 H2]. split; intros H; done.
Qed.

Lemma walked_fresh (k : Z) (st : Bfs) (i : Z) :
  walked s d k st → k < i → powerAt (power st) (lineCell s d i) = 0.
Proof.
  intros (_ & _ & _ & Hoff) Hi. apply Hoff. intros j Hj E.
  apply lineCell_inj in E; [lia | done].
Qed.

(** One execution of the loop body moves the walk one cell along the line. *)
Lemma walked_step (k : Z) (st : Bfs) :
  0 <= k < n → k <= 13 → walked s d k st → walked s d (k + 1) (bfsBody g st).
Proof.
  intros Hk Hk13 Hw. pose proof Hw as (Hq & Hit & Hon & Hoff).
  unfold bfsBody. rewrite Hq.
  assert (Hcp : powerAt (power st) (lineCell s d k) = 15 - k) by (apply Hon; lia).
  pose proof (fold_relax_forward g (lineCell s d k) (15 - k) (power st) d dirs6 [])
    as F.
  rewrite lineCell_next in F.
  destruct (lineCell s d k) as [[x y] z] eqn:Ecur. cbn [powerAt] in Hcp. rewrite Hcp.
  destruct (Z.leb_spec (15 - k) 1) as [Hle | _]; [lia |].
  assert (E : fold_left (relax g (x, y, z) (15 - k)) dirs6 (([] : list QItem), power st)
              = ([(lineCell s d (k + 1), 15 - k - 1)],
                 let '(x, y, z) := lineCell s d (k + 1) in
                 setRSPower (power st) x y z (15 - k - 1))).
  { apply F; clear F.
    - apply dirs6_NoDup.
    - done.
    - apply Hdust. lia.
    - rewrite (walked_fresh k st) by (done || lia). lia.
    - lia.
    - intros d' Hd' Hne. split.
      + rewrite <- lineCell_next, <- Ecur. intros E. by apply shift_inj in E.
      + rewrite <- Ecur. by apply walked_neighbours; [lia | | |]. }
  clear F.
  destruct (fold_left _ dirs6 _) as [q' pw'] eqn:Ef in |- *.
  assert (E2 : (q', pw') = ([(lineCell s d (k + 1), 15 - k - 1)],
                            let '(x, y, z) := lineCell s d (k + 1) in
                            setRSPower (power st) x y z (15 - k - 1)))
    by (rewrite <- Ef; exact E).
  injection E2 as -> ->. clear E Ef.
  split; [cbn [queue]; by replace (15 - (k + 1)) with (15 - k - 1) by lia |].
  split; [cbn [iter]; lia |].
  cbn [power]. split.
  - intros i Hi. rewrite powerAt_set.
    destruct (decide (lineCell s d i = lineCell s d (k + 1))) as [E' | E'].
    + apply lineCell_inj in E'; [lia | done].
    + apply Hon. assert (i ≠ k + 1) by (intros ->; done). lia.
  - intros c Hc. rewrite powerAt_set, decide_False by (apply Hc; lia).
    apply Hoff. intros i Hi. apply Hc. lia.
Qed.

(** At the end of the line, or at the cell that holds power 1, the walk
    stops: the queue is empty and no power has changed. *)
Lemma walked_end (k : Z) (st : Bfs) :
  0 <= k <= n → k = n ∨ k = 14 → k <= 14 → walked s d k st →
  bfsBody g st = mkBfs [] (k + 1) (power st).
Proof.
  intros Hk Hend Hk14 Hw. pose proof Hw as (Hq & Hit & Hon & Hoff).
  unfold bfsBody. rewrite Hq, Hit.
  assert (Hcp : powerAt (power st) (lineCell s d k) = 15 - k) by (apply Hon; lia).
  pose proof (fold_relax_noop g (lineCell s d k) (15 - k) (power st) dirs6 []) as F.
  pose proof (walked_neighbours k st) as N.
  pose proof (Hnb k d Hk Hd) as Hfront. rewrite lineCell_next in Hfront.
  pose proof (lineCell_next s d k) as Enext.
  destruct (lineCell s d k) as [[x y] z] eqn:Ecur. cbn [powerAt] in Hcp. rewrite Hcp.
  destruct (Z.leb_spec (15 - k) 1) as [Hle | Hgt]; [done |].
  assert (E : fold_left (relax g (x, y, z) (15 - k)) dirs6 (([] : list QItem), power st)
              = ([], power st)).
  2: { destruct (fold_left _ dirs6 _) as [q' pw'] eqn:Ef in |- *.
       assert (E2 : (q', pw') = (([] : list QItem), power st)) by (rewrite <- Ef; exact E).
       by injection E2 as -> ->. }
  apply F; clear F. intros d' Hd'.
  destruct (decide (d' = d)) as [-> | Hne]; [| by apply N].
  rewrite Enext.
  destruct Hfront as [(j & Hj & E) | Hoff'].
  - apply lineCell_inj in E; [lia | done].
  - apply conducts_false in Hoff' as [H1 H2]. split; intros H; done.
Qed.

(** The loop, entered with the walk at cell [k], leaves the cells
    0 .. min n 14 of the line at 15, 14, ... and every other cell at 0. *)
Lemma bfsLoop_walks (j : nat) :
  ∀ (k : Z) (st : Bfs) (fuel : nat),
  0 <= k <= Z.min n 14 → Z.min n 14 - k = Z.of_nat j → (j < fuel)%nat →
  Z.of_nat fuel <= BFS_CAP - k → walked s d k st →
  let pw := power (bfsLoop fuel g st) in
  (∀ i, 0 <= i <= Z.min n 14 → powerAt pw (lineCell s d i) = 15 - i) ∧
  (∀ c, (∀ i, 0 <= i <= Z.min n 14 → c ≠ lineCell s d i) → powerAt pw c = 0).
Proof.
  induction j as [| j IH]; intros k st fuel Hk Hj Hfuel Hcap Hw.
  - destruct fuel as [| fuel]; [lia |]. cbn [bfsLoop].
    assert (Hg : bfsGuard st = true).
    { unfold bfsGuard. destruct Hw as (-> & -> & _). apply Z.ltb_lt. lia. }
    rewrite Hg, (walked_end k) by (done || lia).
    assert (E : ∀ f, bfsLoop f g (mkBfs [] (k + 1) (power st)) = mkBfs [] (k + 1) (power st))
      by (by intros [| f]).
    rewrite E. cbn [power]. destruct Hw as (_ & _ & Hon & Hoff).
    replace (Z.min n 14) with k by lia. by split.
  - destruct fuel as [| fuel]; [lia |]. cbn [bfsLoop].
    assert (Hg : bfsGuard st = true).
    { unfold bfsGuard. destruct Hw as (-> & -> & _). apply Z.ltb_lt. lia. }
    rewrite Hg. apply (IH (k + 1)); [lia | lia | lia | lia |].
    apply walked_step; [lia | lia | done].
Qed.

End Line.
(** C4, amended. After one signal refresh over a straight line of a level-15
    source followed by REDSTONE_DUST cells, the line reads [15, 14, ..., 1, 0]
    from the source on.  For every world, every source cell [s], each of the
    six directions [d] and every number [n] of dust cells: when the source at
    [s] is the one source of the world and the line is not joined by other
    dust or repeaters, after [updateRedstone] the source reads 15, the [i]-th
    dust cell reads [15 - i] down to 0 (the first 14, the fourteenth 1, the
    fifteenth, the sixteenth and all later ones 0), and no cell off the line
    holds power.  Dust power decays by exactly 1 per hop and is overwritten
    only by a strictly greater value: a hop from a cell of power [cp] into a
    dust cell holding [old] leaves [max old (cp - 1)] there, queues the cell
    exactly when [cp - 1 > old], and changes no other cell. *)
Theorem dust_line_decay (g : Game) (s d : Z * Z * Z) (n : Z) :
  straightLine g s d n = true →
  let pw := redstonePower (updateRedstone g) in
  powerAt pw s = 15 ∧
  (∀ i, 1 <= i <= n → powerAt pw (lineCell s d i) = Z.max (15 - i) 0) ∧
  (∀ c, (∀ i, 0 <= i <= n → c ≠ lineCell s d i) → powerAt pw c = 0) ∧
  (∀ (x y z cp : Z) (q : list QItem) (pw : gmap (Z * Z * Z) Z) (dx dy dz : Z),
     getBlockAtLoaded g (x + dx) (y + dy) (z + dz) = BlockType.REDSTONE_DUST →
     0 <= getRedstonePower pw (x + dx) (y + dy) (z + dz) →
     let old := getRedstonePower pw (x + dx) (y + dy) (z + dz) in
     let '(q', pw') := relax g (x, y, z) cp (q, pw) (dx, dy, dz) in
     getRedstonePower pw' (x + dx) (y + dy) (z + dz) = Z.max old (cp - 1) ∧
     (q' = if cp - 1 >? old then q ++ [(x + dx, y + dy, z + dz, cp - 1)] else q) ∧
     (∀ x' y' z', (x', y', z') ≠ (x + dx, y + dy, z + dz) →
        getRedstonePower pw' x' y' z' = getRedstonePower pw x' y' z')).
Proof.
  intros (Hn & Hd & Hsrc & Hdust & Hnb)%straightLine_facts pw.
  assert (Hfinal :
    (∀ i, 0 <= i <= Z.min n 14 → powerAt pw (lineCell s d i) = 15 - i) ∧
    (∀ c, (∀ i, 0 <= i <= Z.min n 14 → c ≠ lineCell s d i) → powerAt pw c = 0)).
  { unfold pw. rewrite redstonePower_updateRedstone. cbv zeta.
    fold (foundSources g). rewrite Hsrc.
    apply (bfsLoop_walks g s d n Hd Hdust Hnb (Z.to_nat (Z.min n 14)) 0);
      [lia | lia | unfold BFS_CAP; lia | unfold BFS_CAP; lia |].
    clear Hsrc Hdust Hnb pw. destruct s as [[x0 y0] z0]. cbn [fold_left].
    pose proof (powerAt_set ∅ (x0, y0, z0)) as Hset. cbv beta iota in Hset.
    split; [by rewrite lineCell_zero |]. split; [done |]. cbn [power].
    split.
    - intros i Hi. assert (i = 0) as -> by lia.
      rewrite lineCell_zero, Hset, decide_True by done. done.
    - intros c Hc. rewrite Hset, decide_False.
      + destruct c as [[cx cy] cz]. done.
      + rewrite <- (lineCell_zero (x0, y0, z0) d). apply Hc. lia. }
  destruct Hfinal as [Hon Hoff].
  split; [| split; [| split]].
  - rewrite <- (lineCell_zero s d). apply Hon. lia.
  - intros i Hi. destruct (Z.le_gt_cases i (Z.min n 14)) as [Hle | Hgt].
    + rewrite Hon by lia. lia.
    + rewrite Hoff; [lia |]. intros j Hj E. apply lineCell_inj in E; [lia | done].
  - intros c Hc. apply Hoff. intros i Hi. apply Hc. lia.
  - intros x y z cp q pw0 dx dy dz Hdu Hold.
    exact (relax_dust g x y z cp q pw0 dx dy dz Hdu Hold).
Qed.

Lemma dust_line_decay_witness :
  let pw := redstonePower (updateRedstone lineWorld) in
  straightLine lineWorld (0, 1, 0) (1, 0, 0) 16 = true ∧
  powerAt pw (0, 1, 0) = 15 ∧
  (∀ i, 1 <= i <= 16 → powerAt pw (lineCell (0, 1, 0) (1, 0, 0) i) = Z.max (15 - i) 0) ∧
  (∀ c, (∀ i, 0 <= i <= 16 → c ≠ lineCell (0, 1, 0) (1, 0, 0) i) → powerAt pw c = 0).
Proof.
  assert (H : straightLine lineWorld (0, 1, 0) (1, 0, 0) 16 = true)
    by (vm_compute; reflexivity).
  pose proof (dust_line_decay lineWorld (0, 1, 0) (1, 0, 0) 16 H) as (H1 & H2 & H3 & _).
  exact (conj H (conj H1 (conj H2 H3))).
Defined.
(** ** The fluid tick as a whole *)





